(** * FlashCardLearning: the presence-aware study timer and its hosts

    A shallow embedding of [src/app/components/StudyPresence.tsx] (the
    component [StudyPresence]; [src/unnamed/part_000] is a copy of it that
    differs in layout and comments only), of the pages that host it, and of
    what they call.

    - [Luminance]: the brightness analysis of one video frame, over IEEE 754
      binary64 numbers, which is what a JavaScript [number] is, and the mean
      and variance of a frame over the rationals, to compare with.
    - [StudyPresence]: the component's state, its event handlers, the effects React
      runs after every render, and one presence sample.
    - [StudyPresenceView]: what the component renders, the component inside
      a host with its timer in time, and the bookkeeping of a trace of
      events.
    - [Dashboard]: [src/app/components/Dashboard.tsx], the lists and charts
      derived from the flashcards, the celebration, the look-up of links.
    - [Quiz]: [src/app/quiz/page.tsx], the answers and the score.
    - [FetchYoutube]: [src/app/utils/fetchYoutube.ts], the ranking of search
      results and the requests made.
    - [StudyPlanner]: the component [StudyPlanner] of [src/unnamed/part_002],
      the timetable.
    - [ImportExport]: [src/app/components/ImportExport.tsx], the import of a
      file of cards. *)

From Stdlib Require Import ZArith QArith List Bool Floats Uint63 Lia.
From Stdlib Require Import Ascii String DecimalString DecimalZ DecimalPos Sorted.
From stdpp Require Import gmap strings.
Import ListNotations.

(** ** Brightness analysis of a frame *)

Module Luminance.

(** [ImageData.data]: a [Uint8ClampedArray], four bytes (r, g, b, a) per pixel. *)
Definition ImageData := list Z.

(** A byte read from the array, as a JavaScript number. *)
Definition num (z : Z) : float := PrimFloat.of_uint63 (Uint63.of_Z z).

(** [data[i]] for an index that may be past the end: [undefined] there, which
    arithmetic turns into NaN. *)
Definition chan (l : list Z) (i : nat) : float :=
  match nth_error l i with
  | Some z => num z
  | None => PrimFloat.nan
  end.

(** [const lum = (r + g + b) / 3]. *)
Definition lum (r g b : float) : float := ((r + g + b) / 3)%float.

(** One turn of the loop body: [sum += lum; sumSq += lum * lum]. *)
Definition accumulate (acc : float * float) (l : float) : float * float :=
  (fst acc + l, snd acc + l * l)%float.

(** [for (let i = 0; i < data.length; i += 4) { ... }], carrying [(sum, sumSq)].
    The third equation is a last turn whose pixel is cut short: it cannot
    happen for the array [getImageData] returns, whose length is a multiple
    of four. *)
Fixpoint lumLoop (data : ImageData) (acc : float * float) : float * float :=
  match data with
  | [] => acc
  | r :: g :: b :: _ :: rest => lumLoop rest (accumulate acc (lum (num r) (num g) (num b)))
  | r :: tl => accumulate acc (lum (num r) (chan tl 0) (chan tl 1))
  end.

(** [const pixels = data.length / 4]. *)
Definition pixels (data : ImageData) : float :=
  (num (Z.of_nat (length data)) / 4)%float.

Definition sums (data : ImageData) : float * float := lumLoop data (0, 0)%float.

(** [const avg = sum / pixels]. *)
Definition avg (data : ImageData) : float := (fst (sums data) / pixels data)%float.

(** [const variance = sumSq / pixels - avg * avg]. *)
Definition variance (data : ImageData) : float :=
  (snd (sums data) / pixels data - avg data * avg data)%float.

Definition veryDark (data : ImageData) : bool := (avg data <? 25)%float.
Definition veryFlat (data : ImageData) : bool := (variance data <? 50)%float.

(** [const cameraCovered = veryDark || veryFlat]. *)
Definition cameraCovered (data : ImageData) : bool := veryDark data || veryFlat data.

(** *** The analysis as the specification words it

    A frame is a list of pixels; the luminance of a pixel is the unweighted
    average of its three colour channels; the mean is the sum of the
    luminances over the number of pixels, the variance the sum of the squared
    luminances over the number of pixels minus the squared mean. *)

Record Pixel := { red : Z; green : Z; blue : Z; alpha : Z }.

(** The pixels of an array of bytes, four bytes to the pixel. *)
Fixpoint pixelsOf (data : ImageData) : list Pixel :=
  match data with
  | r :: g :: b :: a :: rest =>
      {| red := r; green := g; blue := b; alpha := a |} :: pixelsOf rest
  | _ => []
  end.

(** **** In exact arithmetic, over the rationals *)

Definition exactLuminance (p : Pixel) : Q := ((red p + green p + blue p) # 3)%Q.

(** A sum kept in lowest terms. *)
Definition exactTotal (l : list Q) : Q := fold_left (fun s x => Qred (s + x)%Q) l 0%Q.

Definition exactCount (ps : list Pixel) : Q := inject_Z (Z.of_nat (length ps)).

Definition exactMean (ps : list Pixel) : Q :=
  Qred (exactTotal (map exactLuminance ps) / exactCount ps)%Q.

Definition exactVariance (ps : list Pixel) : Q :=
  Qred (exactTotal (map (fun p => exactLuminance p * exactLuminance p)%Q ps)
        / exactCount ps
        - exactMean ps * exactMean ps)%Q.

(** **** In binary64, the sums taken from the first pixel to the last *)

(** An integer as a binary64 number. *)
Definition binary64 (z : Z) : float := PrimFloat.of_uint63 (Uint63.of_Z z).

Definition luminance (p : Pixel) : float :=
  ((binary64 (red p) + binary64 (green p) + binary64 (blue p)) / 3)%float.

Definition total (l : list float) : float := fold_left PrimFloat.add l 0%float.

Definition meanLuminance (ps : list Pixel) : float :=
  (total (map luminance ps) / binary64 (Z.of_nat (length ps)))%float.

Definition luminanceVariance (ps : list Pixel) : float :=
  (total (map (fun p => luminance p * luminance p) ps) / binary64 (Z.of_nat (length ps))
   - meanLuminance ps * meanLuminance ps)%float.

Definition darkThreshold : float := 25%float.
Definition flatnessThreshold : float := 50%float.

(** The [k] integers from [z] on. *)
Fixpoint upto (k : nat) (z : Z) : list Z :=
  match k with
  | O => []
  | S k' => z :: upto k' (z + 1)
  end.

(** *** The analysis resolution, 160 by 90, and synthetic frames *)

Definition width : nat := 160.
Definition height : nat := 90.

(** The frames the component analyses: [canvas.width = width] and
    [canvas.height = height], four bytes to the pixel. *)
Definition analysed (data : ImageData) : Prop :=
  length data = (4 * (width * height))%nat.

(** The claim about the classification, as the specification states it,
    with mean and variance the exact ones. *)
Definition coveredClaim : Prop :=
  forall data, analysed data ->
    cameraCovered data = true <->
    (exactMean (pixelsOf data) < 25)%Q \/ (exactVariance (pixelsOf data) < 50)%Q.

(** A frame whose pixel at column [x], row [y] has the grey level [f x y]. *)
Definition frame (f : nat -> nat -> Z) : ImageData :=
  flat_map (fun y => flat_map (fun x => [f x y; f x y; f x y; 255%Z]) (seq 0 width))
           (seq 0 height).

Definition blackFrame : ImageData := frame (fun _ _ => 0%Z).

(** Squares of one pixel, alternately 1 and 255. *)
Definition checkerboard : ImageData :=
  frame (fun x y => if Nat.even (x + y) then 1%Z else 255%Z).

(** A frame whose pixel at column [x], row [y] has the colour [f x y]. *)
Definition colourFrame (f : nat -> nat -> Z * Z * Z) : ImageData :=
  flat_map (fun y => flat_map (fun x => let '(r, g, b) := f x y in [r; g; b; 255%Z])
                              (seq 0 width))
           (seq 0 height).

(** Squares of one pixel with no red in them, alternately of luminance 170
    and 86: mean 128, variance 1764. *)
Definition colourBoard : ImageData :=
  colourFrame (fun x y => if Nat.even (x + y) then (0, 255, 255)%Z else (0, 129, 129)%Z).

(** A grey of luminance 149/3 in the upper half of the frame and a blue of
    luminance 1/3 in the lower half, and the same two halves the other way
    round. *)
Definition greyAboveBlue : ImageData :=
  colourFrame (fun x y => if (y <? 45)%nat then (50, 50, 49)%Z else (0, 0, 1)%Z).

Definition blueAboveGrey : ImageData :=
  colourFrame (fun x y => if (y <? 45)%nat then (0, 0, 1)%Z else (50, 50, 49)%Z).

End Luminance.

(** ** The component *)

Module StudyPresence.

(** *** Data *)

(** A hardware track, named by a number; [stream.getTracks()] is the stream. *)
Definition MediaStreamTrack := nat.
Definition MediaStream := list MediaStreamTrack.

(** The [<video>] element, as far as the component writes to it. *)
Record HTMLVideoElement := { srcObject : option MediaStream }.

(** How a call that may throw (or a promise that may reject) ends. *)
Inductive Completion (A : Type) : Type :=
| Normal (a : A)
| Throw (e : string).
Arguments Normal {A} a.
Arguments Throw {A} e.

#[global] Instance Completion_ret : MRet Completion := fun A a => Normal a.

#[global] Instance Completion_bind : MBind Completion := fun A B k m =>
  match m with
  | Normal a => k a
  | Throw e => Throw e
  end.

(** [try { body } catch (e) { handler }]. *)
Definition tryCatch {A} (body : Completion A) (handler : string -> Completion A)
  : Completion A :=
  match body with
  | Normal a => Normal a
  | Throw e => handler e
  end.

(** A call of [getUserMedia] whose promise is pending, by the handler that
    awaits it: [handleEnableCamera] called from its button, or called from
    [handleToggle], which goes on to [setIsRunning(true)]. *)
Inductive Awaiting := EnableCameraAwaits | ToggleAwaits.

(** The component: its six state variables, its two refs, and what it holds
    of the world around it. The closure of every run of the sampling effect
    has a number; [cancelled] has the closures whose variable [cancelled] is
    true and [sampler] the closure whose interval is installed. [pending] has
    the calls of [getUserMedia] that have not settled yet, oldest first. *)
Record Component := {
  seconds : Z;
  isRunning : bool;
  isOnline : bool;
  cameraEnabled : bool;
  isUserPresent : option bool;
  cameraError : option string;
  videoRef : option HTMLVideoElement;
  streamRef : option MediaStream;
  live : gset MediaStreamTrack;
  sampler : option nat;
  cancelled : gset nat;
  closures : nat;
  mounted : bool;
  pending : list Awaiting
}.

Definition setSeconds (f : Z -> Z) (c : Component) : Component :=
  {| seconds := f (seconds c); isRunning := isRunning c; isOnline := isOnline c;
     cameraEnabled := cameraEnabled c; isUserPresent := isUserPresent c;
     cameraError := cameraError c; videoRef := videoRef c; streamRef := streamRef c;
     live := live c; sampler := sampler c; cancelled := cancelled c;
     closures := closures c; mounted := mounted c;
     pending := pending c |}.

Definition setIsRunning (b : bool) (c : Component) : Component :=
  {| seconds := seconds c; isRunning := b; isOnline := isOnline c;
     cameraEnabled := cameraEnabled c; isUserPresent := isUserPresent c;
     cameraError := cameraError c; videoRef := videoRef c; streamRef := streamRef c;
     live := live c; sampler := sampler c; cancelled := cancelled c;
     closures := closures c; mounted := mounted c;
     pending := pending c |}.

Definition setIsOnline (b : bool) (c : Component) : Component :=
  {| seconds := seconds c; isRunning := isRunning c; isOnline := b;
     cameraEnabled := cameraEnabled c; isUserPresent := isUserPresent c;
     cameraError := cameraError c; videoRef := videoRef c; streamRef := streamRef c;
     live := live c; sampler := sampler c; cancelled := cancelled c;
     closures := closures c; mounted := mounted c;
     pending := pending c |}.

Definition setCameraEnabled (b : bool) (c : Component) : Component :=
  {| seconds := seconds c; isRunning := isRunning c; isOnline := isOnline c;
     cameraEnabled := b; isUserPresent := isUserPresent c;
     cameraError := cameraError c; videoRef := videoRef c; streamRef := streamRef c;
     live := live c; sampler := sampler c; cancelled := cancelled c;
     closures := closures c; mounted := mounted c;
     pending := pending c |}.

Definition setIsUserPresent (p : option bool) (c : Component) : Component :=
  {| seconds := seconds c; isRunning := isRunning c; isOnline := isOnline c;
     cameraEnabled := cameraEnabled c; isUserPresent := p;
     cameraError := cameraError c; videoRef := videoRef c; streamRef := streamRef c;
     live := live c; sampler := sampler c; cancelled := cancelled c;
     closures := closures c; mounted := mounted c;
     pending := pending c |}.

Definition setCameraError (e : option string) (c : Component) : Component :=
  {| seconds := seconds c; isRunning := isRunning c; isOnline := isOnline c;
     cameraEnabled := cameraEnabled c; isUserPresent := isUserPresent c;
     cameraError := e; videoRef := videoRef c; streamRef := streamRef c;
     live := live c; sampler := sampler c; cancelled := cancelled c;
     closures := closures c; mounted := mounted c;
     pending := pending c |}.

(** [videoRef.current = v] and [streamRef.current = s]. *)
Definition setVideoRef (v : option HTMLVideoElement) (c : Component) : Component :=
  {| seconds := seconds c; isRunning := isRunning c; isOnline := isOnline c;
     cameraEnabled := cameraEnabled c; isUserPresent := isUserPresent c;
     cameraError := cameraError c; videoRef := v; streamRef := streamRef c;
     live := live c; sampler := sampler c; cancelled := cancelled c;
     closures := closures c; mounted := mounted c;
     pending := pending c |}.

Definition setStreamRef (s : option MediaStream) (c : Component) : Component :=
  {| seconds := seconds c; isRunning := isRunning c; isOnline := isOnline c;
     cameraEnabled := cameraEnabled c; isUserPresent := isUserPresent c;
     cameraError := cameraError c; videoRef := videoRef c; streamRef := s;
     live := live c; sampler := sampler c; cancelled := cancelled c;
     closures := closures c; mounted := mounted c;
     pending := pending c |}.

Definition setLive (l : gset MediaStreamTrack) (c : Component) : Component :=
  {| seconds := seconds c; isRunning := isRunning c; isOnline := isOnline c;
     cameraEnabled := cameraEnabled c; isUserPresent := isUserPresent c;
     cameraError := cameraError c; videoRef := videoRef c; streamRef := streamRef c;
     live := l; sampler := sampler c; cancelled := cancelled c;
     closures := closures c; mounted := mounted c;
     pending := pending c |}.

(** The sampling effect's bookkeeping: the installed closure, the cancelled
    closures, the number of closures made so far. *)
Definition setSampling (s : option nat) (k : gset nat) (n : nat) (c : Component)
  : Component :=
  {| seconds := seconds c; isRunning := isRunning c; isOnline := isOnline c;
     cameraEnabled := cameraEnabled c; isUserPresent := isUserPresent c;
     cameraError := cameraError c; videoRef := videoRef c; streamRef := streamRef c;
     live := live c; sampler := s; cancelled := k;
     closures := n; mounted := mounted c;
     pending := pending c |}.

Definition setMounted (b : bool) (c : Component) : Component :=
  {| seconds := seconds c; isRunning := isRunning c; isOnline := isOnline c;
     cameraEnabled := cameraEnabled c; isUserPresent := isUserPresent c;
     cameraError := cameraError c; videoRef := videoRef c; streamRef := streamRef c;
     live := live c; sampler := sampler c; cancelled := cancelled c;
     closures := closures c; mounted := b;
     pending := pending c |}.

Definition setPending (p : list Awaiting) (c : Component) : Component :=
  {| seconds := seconds c; isRunning := isRunning c; isOnline := isOnline c;
     cameraEnabled := cameraEnabled c; isUserPresent := isUserPresent c;
     cameraError := cameraError c; videoRef := videoRef c; streamRef := streamRef c;
     live := live c; sampler := sampler c; cancelled := cancelled c;
     closures := closures c; mounted := mounted c; pending := p |}.

(** The specification's reading of [isUserPresent : boolean | null]. *)
Inductive PresenceSample := Present | Absent | Unknown.

Definition sampleOf (p : option bool) : PresenceSample :=
  match p with
  | Some true => Present
  | Some false => Absent
  | None => Unknown
  end.

Definition latestSample (c : Component) : PresenceSample := sampleOf (isUserPresent c).

Definition isPresent (s : PresenceSample) : bool :=
  match s with Present => true | _ => false end.

(** *** Derived values of a render *)

(** [isUserPresent !== true]. *)
Definition notTrue (p : option bool) : bool :=
  match p with
  | Some true => false
  | _ => true
  end.

(** [const isAutoPaused = cameraEnabled && isUserPresent !== true]. *)
Definition isAutoPaused (c : Component) : bool :=
  cameraEnabled c && notTrue (isUserPresent c).

(** [const isTimerActive = isRunning && !isAutoPaused]. *)
Definition isTimerActive (c : Component) : bool :=
  isRunning c && negb (isAutoPaused c).

Definition studyStatusLabel (c : Component) : string :=
  if isTimerActive c then "Studying"
  else if isAutoPaused c then "Not studying – user not detected or camera covered"
  else "Not studying".

(** *** Camera *)

(** What [navigator.mediaDevices.getUserMedia] does when asked for a stream. *)
Inductive UserMedia :=
| ApiMissing                       (* no [getUserMedia] in this browser *)
| Resolves (stream : MediaStream)  (* the promise resolves with a stream *)
| Rejects (err : string).          (* the promise rejects *)

(** The tracks of a stream the browser hands out are running. *)
Definition acquire (stream : MediaStream) (c : Component) : Component :=
  setLive (live c ∪ list_to_set stream) c.

(** [handleEnableCamera] run to its end, with no other event in between. *)
Definition handleEnableCamera (m : UserMedia) (c : Component) : Component :=
  match m with
  | ApiMissing => setCameraError (Some "Camera API not available in this browser.") c
  | Resolves stream =>
      setCameraError None
        (setCameraEnabled true (setStreamRef (Some stream) (acquire stream c)))
  | Rejects _ =>
      setCameraError (Some "Unable to access camera. Check permissions and try again.") c
  end.

(** How the promise of [getUserMedia] settles, as an answer. *)
Definition settled (a : Completion MediaStream) : UserMedia :=
  match a with
  | Normal stream => Resolves stream
  | Throw err => Rejects err
  end.

(** A handler taken up again when the promise it awaits settles. While the
    component is mounted it goes on as written. After the unmount the state
    setters do nothing, but the ref is still written: [streamRef.current =
    stream]. *)
Definition resume (w : Awaiting) (a : Completion MediaStream) (c : Component)
  : Component :=
  if mounted c then
    let c1 := handleEnableCamera (settled a) c in
    match w with
    | EnableCameraAwaits => c1
    | ToggleAwaits => setIsRunning true c1
    end
  else
    match a with
    | Normal stream => setStreamRef (Some stream) (acquire stream c)
    | Throw _ => c
    end.

(** [t.stop()] and [stream.getTracks().forEach((t) => t.stop())]. *)
Definition stop (l : gset MediaStreamTrack) (t : MediaStreamTrack)
  : gset MediaStreamTrack := l ∖ {[t]}.

Definition stopTracks (stream : MediaStream) (l : gset MediaStreamTrack)
  : gset MediaStreamTrack := foldl stop l stream.

(** *** Controls *)

(** The second half of [handleToggle], running -> stopped: stop timer and
    camera. *)
Definition stopTimerAndCamera (c : Component) : Component :=
  let c1 := setIsRunning false c in
  let c2 := match streamRef c1 with
            | Some stream => setStreamRef None (setLive (stopTracks stream (live c1)) c1)
            | None => c1
            end in
  let c3 := match videoRef c2 with
            | Some _ => setVideoRef (Some {| srcObject := None |}) c2
            | None => c2
            end in
  setIsUserPresent None (setCameraEnabled false c3).

(** [handleToggle] run to its end, with no other event in between: [m] is
    what [getUserMedia] answers, should the handler come to ask. *)
Definition handleToggle (m : UserMedia) (c : Component) : Component :=
  if negb (isRunning c) then
    setIsRunning true (if negb (cameraEnabled c) then handleEnableCamera m c else c)
  else stopTimerAndCamera c.

Definition handleReset (c : Component) : Component := setSeconds (fun _ => 0%Z) c.

(** The callback of the one-second interval: [setSeconds((s) => s + 1)].
    Seconds are integers here; a JavaScript number counts them exactly up to
    2^53. *)
Definition secondTick (c : Component) : Component := setSeconds (fun s => (s + 1)%Z) c.

(** *** One presence sample *)

Record DetectedFace := { boundingBox : Z * Z * Z * Z }.

(** What one call of [checkPresence] meets. *)
Record Sample := {
  hasVideo : bool;      (* [videoRef.current] is not null when the call begins *)
  hasCtx : bool;        (* [canvas.getContext("2d")] is not null *)
  detector : option (Completion (list DetectedFace));
                        (* [None]: the window has no [FaceDetector];
                           otherwise how [detector.detect(video)] settles *)
  readyState : Z;
  videoWidth : Z;
  videoHeight : Z;
  drawn : Completion Luminance.ImageData
                        (* [ctx.drawImage] followed by [ctx.getImageData] *)
}.

(** [video.readyState >= 2 && video.videoWidth > 0 && video.videoHeight > 0]. *)
Definition frameReady (smp : Sample) : bool :=
  (2 <=? readyState smp)%Z && (0 <? videoWidth smp)%Z && (0 <? videoHeight smp)%Z.

(** The value given to [present]. *)
Definition present (cameraCovered hasDetector : bool) (facesCount : nat) : bool :=
  if cameraCovered then false
  else if hasDetector then (0 <? facesCount)%nat
  else true.

(** [let facesCount = 0; if (detector) { ... facesCount = faces.length; }]. *)
Definition countFaces (smp : Sample) : Completion nat :=
  match detector smp with
  | Some settles => faces ← settles; mret (length faces)
  | None => mret 0%nat
  end.

(** The body of the [try]. [isCancelled] is the closure's variable
    [cancelled] as it stands when the body reads it, after the detector has
    settled. *)
Definition analyse (isCancelled : bool) (smp : Sample) (c : Component)
  : Completion Component :=
  facesCount ← countFaces smp;
  if frameReady smp then
    data ← drawn smp;
    let cameraCovered := Luminance.cameraCovered data in
    if negb isCancelled then
      mret (setIsUserPresent
              (Some (present cameraCovered (bool_decide (is_Some (detector smp))) facesCount))
              c)
    else mret c
  else mret c.

(** [checkPresence]: how its promise settles, and the component then. *)
Definition checkPresence (isCancelled : bool) (smp : Sample) (c : Component)
  : Completion Component :=
  if negb (hasVideo smp) || negb (hasCtx smp) then Normal c
  else
    tryCatch (analyse isCancelled smp c)
      (fun _ => if negb isCancelled then Normal (setIsUserPresent (Some false) c)
                else Normal c).

(** *** Rendering and effects *)

(** The [<video>] element is in the page exactly while [cameraEnabled]; React
    fills and empties [videoRef.current] with it. *)
Definition render (c : Component) : Component :=
  if cameraEnabled c then
    match videoRef c with
    | Some _ => c
    | None => setVideoRef (Some {| srcObject := None |}) c
    end
  else setVideoRef None c.

(** The effect on [cameraEnabled] that attaches the stream to the video. *)
Definition attachStream (c : Component) : Component :=
  match cameraEnabled c, videoRef c, streamRef c with
  | true, Some _, Some stream => setVideoRef (Some {| srcObject := Some stream |}) c
  | _, _, _ => c
  end.

(** The sampling effect on [cameraEnabled, isRunning]: its clean-up, then its
    body, which makes a new closure with [cancelled = false] and installs the
    interval. *)
Definition samplingCleanup (c : Component) : Component :=
  match sampler c with
  | Some k => setSampling None (cancelled c ∪ {[k]}) (closures c) c
  | None => c
  end.

Definition samplingEffect (c : Component) : Component :=
  if cameraEnabled c && isRunning c && bool_decide (is_Some (videoRef c)) then
    setSampling (Some (closures c)) (cancelled c) (S (closures c)) c
  else c.

(** The clean-up of the effect that releases the camera on unmount. *)
Definition streamCleanup (c : Component) : Component :=
  match streamRef c with
  | Some stream => setLive (stopTracks stream (live c)) c
  | None => c
  end.

(** What React does after a handler has changed the state from [old] to [c]:
    render, then run the effects whose dependencies changed. The timer
    effect depends on the callback the host passes and its interval lives in
    time: it is in [StudyPresenceView.hostStep]. Here the interval can call
    back, by [SecondElapsed], at any moment at which [isTimerActive]. *)
Definition commit (old c : Component) : Component :=
  let c1 := render c in
  let c2 := if bool_decide (cameraEnabled old = cameraEnabled c) then c1
            else attachStream c1 in
  if bool_decide (cameraEnabled old = cameraEnabled c ∧ isRunning old = isRunning c)
  then c2
  else samplingEffect (samplingCleanup c2).

Definition unmount (c : Component) : Component :=
  setMounted false (setVideoRef None (streamCleanup (samplingCleanup c))).

(** The component after its first render: the [useState] initial values, and
    the connectivity effect has read [navigator.onLine]. *)
Definition initial : Component :=
  {| seconds := 0; isRunning := true; isOnline := true; cameraEnabled := false;
     isUserPresent := None; cameraError := None; videoRef := None; streamRef := None;
     live := ∅; sampler := None; cancelled := ∅; closures := 0; mounted := true;
     pending := [] |}.

Definition mount (onLine : bool) : Component := setIsOnline onLine initial.

(** *** Events *)

(** A click whose handler awaits [getUserMedia] comes in two kinds. In
    [ClickEnableCamera m] and [ClickToggle m] the handler runs to its end
    before anything else happens: the browser has no [getUserMedia], or the
    handler does not come to ask, or the promise settles, with [m], before the
    next event. In [ClickEnableCameraPending] and [ClickTogglePending] the
    handler has called [getUserMedia] and the promise is still pending when
    the next event comes; [UserMediaSettles i a] is the [i]-th pending promise
    settling with [a], in any order and at any later time, also after the
    unmount. *)
Inductive Event :=
| Connectivity (onLine : bool)       (* the window's online and offline events *)
| ClickEnableCamera (m : UserMedia)  (* the button "Enable camera" *)
| ClickToggle (m : UserMedia)        (* the button "Start" or "Stop" *)
| ClickReset                         (* the button "Reset" *)
| SecondElapsed                      (* the timer effect's interval fires *)
| SampleSettles (k : nat) (smp : Sample)
                                     (* a [checkPresence] call of closure [k] settles *)
| Unmount
| ClickEnableCameraPending           (* "Enable camera", the answer yet to come *)
| ClickTogglePending                 (* "Start" with the camera off, likewise *)
| UserMediaSettles (i : nat) (a : Completion MediaStream).
                                     (* the [i]-th pending [getUserMedia] settles *)

(** The handler of an event; [None] when the event cannot happen in [c]: a
    button that is not rendered, an interval that is not installed, a closure
    that was never made, a promise that is not pending. A sample is taken at
    the moment it settles, which may be after its loop was torn down:
    [SampleSettles] can happen for every closure ever made. "Start" awaits
    [getUserMedia] only when pressed while stopped with the camera off. *)
Definition handle (e : Event) (c : Component) : option Component :=
  match e with
  | Connectivity onLine => if mounted c then Some (setIsOnline onLine c) else None
  | ClickEnableCamera m =>
      if mounted c && negb (cameraEnabled c) then Some (handleEnableCamera m c) else None
  | ClickToggle m => if mounted c then Some (handleToggle m c) else None
  | ClickReset => if mounted c then Some (handleReset c) else None
  | SecondElapsed => if mounted c && isTimerActive c then Some (secondTick c) else None
  | SampleSettles k smp =>
      if bool_decide (k < closures c) then
        match checkPresence (bool_decide (k ∈ cancelled c)) smp c with
        | Normal c' => Some c'
        | Throw _ => Some c
        end
      else None
  | Unmount => if mounted c then Some (unmount c) else None
  | ClickEnableCameraPending =>
      if mounted c && negb (cameraEnabled c)
      then Some (setPending (pending c ++ [EnableCameraAwaits]) c) else None
  | ClickTogglePending =>
      if mounted c && negb (isRunning c) && negb (cameraEnabled c)
      then Some (setPending (pending c ++ [ToggleAwaits]) c) else None
  | UserMediaSettles i a =>
      match pending c !! i with
      | Some w => Some (resume w a (setPending (delete i (pending c)) c))
      | None => None
      end
  end.

Definition step (e : Event) (c : Component) : option Component :=
  c' ← handle e c; Some (if mounted c' then commit c c' else c').

Fixpoint run (es : list Event) (c : Component) : option Component :=
  match es with
  | [] => Some c
  | e :: es' => c' ← step e c; run es' c'
  end.

(** The states the component can be in. *)
Inductive reachable : Component -> Prop :=
| reachable_mount onLine : reachable (mount onLine)
| reachable_step e c c' : reachable c -> step e c = Some c' -> reachable c'.

(** *** The specification's vocabulary *)

(** The ordered decision table of the final classification: covered first,
    then the detector's face count when there is a detector, then the
    permissive default. *)
Definition decisionTable (cameraCovered : bool) (faceCount : option nat)
  : PresenceSample :=
  if cameraCovered then Absent
  else match faceCount with
       | Some n => if (0 <? n)%nat then Present else Absent
       | None => Present
       end.

(** The status label as the specification derives it: the long label when the
    camera is enabled and run is requested but the timer is not active. *)
Definition specifiedLabel (c : Component) : string :=
  if isTimerActive c then "Studying"
  else if cameraEnabled c && isRunning c
       then "Not studying – user not detected or camera covered"
  else "Not studying".

(** Two components agree on everything but the elapsed seconds and the video
    element. *)
Definition sameButSeconds (c c' : Component) : Prop :=
  isRunning c' = isRunning c /\ isOnline c' = isOnline c /\
  cameraEnabled c' = cameraEnabled c /\ isUserPresent c' = isUserPresent c /\
  cameraError c' = cameraError c /\ streamRef c' = streamRef c /\
  live c' = live c /\ sampler c' = sampler c /\ cancelled c' = cancelled c /\
  closures c' = closures c /\ mounted c' = mounted c /\ pending c' = pending c.

(** The claim about the label, as the specification states it. *)
Definition statusLabelClaim : Prop :=
  forall c, studyStatusLabel c = specifiedLabel c.

(** The claim about a frame that is not decodable, as the specification
    states it: the classification is left as it was. *)
Definition notReadyClaim : Prop :=
  forall k smp c c',
    frameReady smp = false -> step (SampleSettles k smp) c = Some c' ->
    isUserPresent c' = isUserPresent c.

(** *** What holds in every reachable state *)

(** What rendering and the sampling effect leave alone: the state variables,
    the stream and the tracks. *)
Definition stateOf (c : Component) :=
  (seconds c, isRunning c, isOnline c, cameraEnabled c, isUserPresent c,
   cameraError c, streamRef c, live c, mounted c).

(** The bookkeeping of the sampling effect. *)
Definition samplingOf (c : Component) := (sampler c, cancelled c, closures c).

Definition tracksOf (s : option MediaStream) : gset MediaStreamTrack :=
  match s with
  | Some stream => list_to_set stream
  | None => ∅
  end.

(** The stream of a mounted component: its tracks run, and it is given back
    with the camera. *)
Definition tracksHeld (c : Component) : Prop :=
  (mounted c = true -> tracksOf (streamRef c) ⊆ live c) /\
  (mounted c = true -> cameraEnabled c = false -> streamRef c = None).

(** No track runs that the component could not stop: while it is mounted the
    running tracks are those of the stream it holds, and after the unmount
    there is none. *)
Definition noLeak (c : Component) : Prop :=
  live c = if mounted c then tracksOf (streamRef c) else ∅.

(** The events in which a handler is left waiting for [getUserMedia]. *)
Definition leavesPending (e : Event) : bool :=
  match e with
  | ClickEnableCameraPending | ClickTogglePending => true
  | _ => false
  end.

(** The sampling effect's bookkeeping is sound: the closures are numbered in
    the order they are made, the installed closure is not cancelled, nothing
    is installed after the unmount, and while mounted a closure is installed
    exactly when the camera is enabled and run is requested. *)
Definition samplingHeld (c : Component) : Prop :=
  (forall k, k ∈ cancelled c -> k < closures c) /\
  (forall k, sampler c = Some k -> k < closures c /\ k ∉ cancelled c) /\
  (mounted c = false -> sampler c = None) /\
  (mounted c = true ->
   (is_Some (sampler c) <-> cameraEnabled c = true /\ isRunning c = true)).

Definition invariant (c : Component) : Prop := tracksHeld c /\ samplingHeld c.

(** *** Concrete components and samples *)

(** [getUserMedia] resolves with a stream of one track. *)
Definition oneTrack : UserMedia := Resolves [7%nat].

(** Mounted, then the camera enabled: the sampling effect runs. *)
Definition watching : Component :=
  {| seconds := 0; isRunning := true; isOnline := true; cameraEnabled := true;
     isUserPresent := None; cameraError := None;
     videoRef := Some {| srcObject := Some [7%nat] |}; streamRef := Some [7%nat];
     live := {[ 7%nat ]}; sampler := Some 0%nat; cancelled := ∅; closures := 1;
     mounted := true; pending := [] |}.

(** Mounted, stopped, then the camera enabled with the button of the camera
    panel: the timer is stopped and the camera is on. *)
Definition stoppedWithCamera : Component :=
  {| seconds := 0; isRunning := false; isOnline := true; cameraEnabled := true;
     isUserPresent := None; cameraError := None;
     videoRef := Some {| srcObject := Some [7%nat] |}; streamRef := Some [7%nat];
     live := {[ 7%nat ]}; sampler := None; cancelled := ∅; closures := 0;
     mounted := true; pending := [] |}.

(** Two presses of "Enable camera" before the first answer, then the two
    answers, each a stream of one track. *)
Definition twoStreams : list Event :=
  [ClickEnableCameraPending; ClickEnableCameraPending;
   UserMediaSettles 0 (Normal [7%nat]); UserMediaSettles 0 (Normal [8%nat])].

(** "Enable camera", the unmount before the answer, then the answer. *)
Definition answerAfterUnmount : list Event :=
  [ClickEnableCameraPending; Unmount; UserMediaSettles 0 (Normal [7%nat])].

(** A frame that is not decodable yet, on which the detector rejects. *)
Definition notReadyDetectorRejects : Sample :=
  {| hasVideo := true; hasCtx := true;
     detector := Some (Throw "InvalidStateError");
     readyState := 1; videoWidth := 0; videoHeight := 0;
     drawn := Normal [] |}.

(** A frame that is not decodable yet, on which the detector finds nothing. *)
Definition notReadyDetectorQuiet : Sample :=
  {| hasVideo := true; hasCtx := true;
     detector := Some (Normal []);
     readyState := 1; videoWidth := 0; videoHeight := 0;
     drawn := Normal [] |}.

(** A decodable frame showing the checkerboard, no detector in the window. *)
Definition texturedNoDetector : Sample :=
  {| hasVideo := true; hasCtx := true;
     detector := None;
     readyState := 4; videoWidth := 640; videoHeight := 480;
     drawn := Normal Luminance.checkerboard |}.

(** A decodable frame that cannot be read back from the canvas. *)
Definition unreadableFrame : Sample :=
  {| hasVideo := true; hasCtx := true;
     detector := None;
     readyState := 4; videoWidth := 640; videoHeight := 480;
     drawn := Throw "SecurityError" |}.

End StudyPresence.

(** ** What the component shows *)

Module StudyPresenceView.
Import StudyPresence.

(** [n.toString()] for an integer: its decimal digits, with a sign when
    negative. (JavaScript writes integers this way below 10^21.) *)
Definition toString (z : Z) : string := NilZero.string_of_int (Z.to_int z).

Fixpoint repeatChar (n : nat) (fill : ascii) : string :=
  match n with
  | O => EmptyString
  | S n' => String fill (repeatChar n' fill)
  end.

(** [s.padStart(targetLength, fill)] for a [fill] of one character. *)
Definition padStart (targetLength : nat) (fill : ascii) (s : string) : string :=
  repeatChar (targetLength - String.length s) fill +:+ s.

(** [const minutes = Math.floor(seconds / 60)]: exact on the integers a
    JavaScript number counts, those below 2^53. *)
Definition minutes (c : Component) : Z := (seconds c / 60)%Z.

(** [const remainderSeconds = seconds % 60]: the remainder has the sign of
    the dividend. *)
Definition remainderSeconds (c : Component) : Z := Z.rem (seconds c) 60.

(** [{minutes.toString().padStart(2, "0")}:{remainderSeconds.toString().padStart(2, "0")}]. *)
Definition timeDisplay (c : Component) : string :=
  padStart 2 "0" (toString (minutes c)) +:+ ":" +:+
  padStart 2 "0" (toString (remainderSeconds c)).

(** [s.startsWith(p)]. *)
Definition startsWith (s p : string) : bool := String.prefix p s.

(** The class of the status text:
    [studyStatusLabel.startsWith("Studying") ? "text-emerald-300" : "text-amber-300"]. *)
Definition statusClass (c : Component) : string :=
  if startsWith (studyStatusLabel c) "Studying" then "text-emerald-300"
  else "text-amber-300".

(** The label of the toggle: [isRunning ? "Stop" : "Start"]. *)
Definition toggleLabel (c : Component) : string :=
  if isRunning c then "Stop" else "Start".

(** The badge of the camera panel, rendered only while [cameraEnabled]. *)
Definition presenceBadge (c : Component) : option string :=
  if cameraEnabled c then
    Some match isUserPresent c with
         | None => "Detecting..."
         | Some true => "Face detected"
         | Some false => "No face or camera covered"
         end
  else None.

(** The connectivity badge. *)
Definition onlineBadge (c : Component) : string :=
  if isOnline c then "Online" else "Offline – Firestore in offline mode".

(** The button "Enable camera" is rendered exactly while [!cameraEnabled]. *)
Definition enableCameraShown (c : Component) : bool := negb (cameraEnabled c).

(** The error line is rendered while [cameraError] is not null. *)
Definition errorShown (c : Component) : option string := cameraError c.

(** *** Reading the display back

    A decimal field read as a number, leading zeros allowed. *)
Definition readNumber (s : string) : option Z :=
  option_map Z.of_int (NilZero.int_of_string s).

(** The largest count a JavaScript number reaches by adding one. *)
Definition maxSafeInteger : Z := (2 ^ 53 - 1)%Z.

(** *** The component inside a host, in time

    The host passes [onSecondsTick], or nothing; the callback of the timer's
    interval calls it after [setSeconds]: [onSecondsTick?.()]. The timer
    effect depends on [isTimerActive] and on the function it was passed, by
    identity: whenever one of the two changes, its clean-up clears the
    interval and its body, while [isTimerActive], installs a new one, whose
    first call is a full second away. [H] is the host's own state. *)
Record Host (H : Type) := {
  callback : option (H -> H);  (* what [onSecondsTick] does to the host *)
  freshCallback : bool         (* the host makes the function anew at each render *)
}.
Arguments callback {H} _.
Arguments freshCallback {H} _.

(** The component, the host's state, and the interval of the timer effect:
    the milliseconds since it was installed or last called back, when one is
    installed. *)
Record Hosted (H : Type) := {
  component : Component;
  host : H;
  sinceInstalled : option Z
}.
Arguments component {H} _.
Arguments host {H} _.
Arguments sinceInstalled {H} _.

Inductive HostEvent :=
| Wait (ms : Z)     (* [ms] milliseconds pass and nothing happens *)
| At (e : Event)    (* an event of the component; [At SecondElapsed] is the
                       interval calling back *)
| HostRenders.      (* the host renders again, for a reason of its own *)

(** The period of the interval, in milliseconds. *)
Definition period : Z := 1000.

(** The interval after a render of the component: it goes on from where it
    was if there was one and [isTimerActive] still holds, it starts from zero
    if [isTimerActive] has come to hold, and there is none otherwise. *)
Definition timerEffect (before : option Z) (c : Component) : option Z :=
  if mounted c && isTimerActive c then Some (default 0%Z before) else None.

(** One step of the component in its host. Timers are taken to call back on
    time: the interval calls back when a full period has passed since it was
    installed or last called back, and no more time passes before it has.
    After its call the host that was called back renders again. *)
Definition hostStep {H : Type} (h : Host H) (e : HostEvent) (s : Hosted H)
  : option (Hosted H) :=
  match e with
  | Wait ms =>
      if (0 <? ms)%Z then
        match sinceInstalled s with
        | Some t =>
            if (t + ms <=? period)%Z
            then Some {| component := component s; host := host s;
                         sinceInstalled := Some (t + ms)%Z |}
            else None
        | None => Some s
        end
      else None
  | At SecondElapsed =>
      if bool_decide (sinceInstalled s = Some period) then
        c' ← step SecondElapsed (component s);
        Some {| component := c';
                host := match callback h with
                        | Some f => f (host s)
                        | None => host s
                        end;
                sinceInstalled := timerEffect None c' |}
      else None
  | At e =>
      c' ← step e (component s);
      Some {| component := c'; host := host s;
              sinceInstalled := timerEffect (sinceInstalled s) c' |}
  | HostRenders =>
      Some {| component := component s; host := host s;
              sinceInstalled := if freshCallback h
                                then timerEffect None (component s)
                                else sinceInstalled s |}
  end.

Fixpoint hostRun {H : Type} (h : Host H) (es : list HostEvent) (s : Hosted H)
  : option (Hosted H) :=
  match es with
  | [] => Some s
  | e :: es' => s' ← hostStep h e s; hostRun h es' s'
  end.

(** The component mounted in its host: the timer is active at once, so its
    interval is installed. *)
Definition hostMount {H : Type} (onLine : bool) (state : H) : Hosted H :=
  {| component := mount onLine; host := state;
     sinceInstalled := timerEffect None (mount onLine) |}.

(** The events of the component among those of a hosted run. *)
Definition componentEvents (es : list HostEvent) : list Event :=
  omap (fun e => match e with At e' => Some e' | _ => None end) es.

(** The milliseconds waited in a run. *)
Fixpoint waited (es : list HostEvent) : Z :=
  match es with
  | [] => 0
  | Wait ms :: es' => (ms + waited es')%Z
  | _ :: es' => waited es'
  end.

(** The interval is installed exactly while the component is mounted with its
    timer active, and it has never run for more than a period. *)
Definition timerHeld {H : Type} (s : Hosted H) : Prop :=
  match sinceInstalled s with
  | Some t => mounted (component s) = true /\ isTimerActive (component s) = true /\
              (0 <= t <= period)%Z
  | None => mounted (component s) && isTimerActive (component s) = false
  end.

(** The milliseconds the interval has run, zero when there is none. *)
Definition since {H : Type} (s : Hosted H) : Z := default 0%Z (sinceInstalled s).

(** The events of a host that leave a running timer running: time, the call
    of the interval, connectivity and Reset. *)
Definition keepsTimer (e : HostEvent) : bool :=
  match e with
  | Wait _ | At SecondElapsed | At (Connectivity _) | At ClickReset | HostRenders => true
  | _ => false
  end.

(** A host that passes no callback, as the quiz page does. *)
Definition noCallback : Host unit := {| callback := None; freshCallback := false |}.

(** A host that renders again every 999 milliseconds, [n] times over. *)
Definition restless (n : nat) : list HostEvent :=
  concat (replicate n [Wait 999; HostRenders]).

(** *** Bookkeeping of a trace *)

(** The seconds after the events [es], from the seconds [s] before them: a
    tick adds one, a reset starts again from zero. *)
Fixpoint tally (es : list Event) (s : Z) : Z :=
  match es with
  | [] => s
  | SecondElapsed :: es' => tally es' (s + 1)
  | ClickReset :: es' => tally es' 0
  | _ :: es' => tally es' s
  end.

(** The number of ticks among the events. *)
Fixpoint ticks (es : list Event) : Z :=
  match es with
  | [] => 0
  | SecondElapsed :: es' => (1 + ticks es')%Z
  | _ :: es' => ticks es'
  end.

(** What the platform last said about the network. *)
Fixpoint lastConnectivity (es : list Event) (onLine : bool) : bool :=
  match es with
  | [] => onLine
  | Connectivity b :: es' => lastConnectivity es' b
  | _ :: es' => lastConnectivity es' onLine
  end.

(** The camera session as the component keeps it, whatever the order in
    which clicks and answers of [getUserMedia] come. *)
Definition sessionHeld (c : Component) : Prop :=
  (0 <= seconds c)%Z /\
  (mounted c = true -> (cameraEnabled c = true <-> is_Some (streamRef c))) /\
  (mounted c = true -> tracksOf (streamRef c) ⊆ live c) /\
  (mounted c = true ->
   if cameraEnabled c
   then exists stream, videoRef c = Some {| srcObject := Some stream |} /\
                       list_to_set stream ⊆ live c
   else videoRef c = None) /\
  (cameraEnabled c = false -> isUserPresent c = None) /\
  (forall k, k < closures c -> k ∈ cancelled c \/ sampler c = Some k).

(** The camera session while no answer of [getUserMedia] is ever waited for
    across another event: no promise is pending, the running tracks are
    those of the stream held, the video element shows that stream, and an
    enabled camera shows no error. *)
Definition sessionUnshared (c : Component) : Prop :=
  pending c = [] /\
  noLeak c /\
  (mounted c = true ->
   videoRef c = if cameraEnabled c then Some {| srcObject := streamRef c |} else None) /\
  (cameraEnabled c = true -> cameraError c = None).

(** What stays as it is once the component is unmounted: everything but the
    stream ref, the running tracks and the promises still pending. *)
Definition settledOf (c : Component) :=
  (seconds c, isRunning c, isOnline c, cameraEnabled c, isUserPresent c,
   cameraError c, videoRef c, samplingOf c, mounted c).

(** The events that can still come after the unmount. *)
Definition settles (e : Event) : bool :=
  match e with
  | SampleSettles _ _ | UserMediaSettles _ _ => true
  | _ => false
  end.

(** *** More concrete components *)

(** Mounted, then stopped with the toggle: no camera, no request to run. *)
Definition stoppedNoCamera : Component :=
  {| seconds := 0; isRunning := false; isOnline := true; cameraEnabled := false;
     isUserPresent := None; cameraError := None; videoRef := None; streamRef := None;
     live := ∅; sampler := None; cancelled := ∅; closures := 0; mounted := true;
     pending := [] |}.

(** [watching], then unmounted. *)
Definition unmountedAfterWatching : Component :=
  {| seconds := 0; isRunning := true; isOnline := true; cameraEnabled := true;
     isUserPresent := None; cameraError := None; videoRef := None;
     streamRef := Some [7%nat]; live := ∅; sampler := None; cancelled := {[ 0%nat ]};
     closures := 1; mounted := false; pending := [] |}.

End StudyPresenceView.

(** ** The dashboard

    [src/app/components/Dashboard.tsx]: what the dashboard derives from the
    list of flashcards (the filtered list, the categories, the progress per
    category, the slices of the category chart), when it celebrates, for
    which cards it looks up links, and how it hosts the study timer.
    The percentages, which round a quotient of floating-point numbers, are
    not part of the model. *)

Module Dashboard.
Import StudyPresence StudyPresenceView.

(** The fields of a flashcard the dashboard reads. A [category] that is
    [null] or [undefined] is [None]. *)
Record Flashcard := {
  id : string;
  front : string;
  back : string;
  category : option string;
  completed : bool
}.

(** JavaScript's truthiness of a string that may be missing. *)
Definition truthy (s : option string) : bool :=
  match s with
  | Some s => negb (String.eqb s "")
  | None => false
  end.

(** *** The filtered list *)

Section Filter.

(** [String.prototype.toLowerCase] and [String.prototype.includes]. *)
Variable toLowerCase : string -> string.
Variable includes : string -> string -> bool.

(** The search predicate, [q] being the lowered search term. *)
Definition matchesSearch (q : string) (card : Flashcard) : bool :=
  includes (toLowerCase (front card)) q ||
  includes (toLowerCase (back card)) q ||
  match category card with
  | Some cat => truthy (Some cat) && includes (toLowerCase cat) q
  | None => false
  end.

Definition inCategory (selectedCategory : string) (card : Flashcard) : bool :=
  bool_decide (category card = Some selectedCategory).

(** The effect on [flashcards, searchTerm, selectedCategory]. *)
Definition filteredFlashcards (flashcards : list Flashcard)
  (searchTerm selectedCategory : string) : list Flashcard :=
  let filtered :=
    if truthy (Some searchTerm)
    then List.filter (matchesSearch (toLowerCase searchTerm)) flashcards
    else flashcards in
  if truthy (Some selectedCategory)
  then List.filter (inCategory selectedCategory) filtered
  else filtered.

End Filter.

(** *** Categories *)

(** [new Set(values)] and [Array.from] of it: the values in the order of
    their first occurrence. *)
Definition setAdd (set : list string) (value : string) : list string :=
  if bool_decide (value ∈ set) then set else set ++ [value].

Definition arrayFromSet (values : list string) : list string :=
  foldl setAdd [] values.

(** [.filter(Boolean)] on the categories. *)
Definition filterBoolean (values : list (option string)) : list string :=
  omap (fun v => if truthy v then v else None) values.

Definition categories (flashcards : list Flashcard) : list string :=
  arrayFromSet (filterBoolean (List.map category flashcards)).

(** The cards that have a category, and those whose category is one of
    [cats]. *)
Definition categorised (card : Flashcard) : bool := truthy (category card).

Definition inCategories (cats : list string) (card : Flashcard) : bool :=
  match category card with
  | Some cat => bool_decide (cat ∈ cats)
  | None => false
  end.

Definition completedCount (flashcards : list Flashcard) : nat :=
  List.length (List.filter completed flashcards).

Definition totalCount (flashcards : list Flashcard) : nat := List.length flashcards.

(** The main chart: completed and remaining. *)
Definition progressPieData (flashcards : list Flashcard) : list (string * nat) :=
  [("Completed", completedCount flashcards);
   ("Remaining", totalCount flashcards - completedCount flashcards)].

(** *** Progress by category *)

Definition catCards (flashcards : list Flashcard) (cat : string) : list Flashcard :=
  List.filter (inCategory cat) flashcards.

Record CategoryProgress := {
  progressCategory : string;
  progressCompleted : nat;
  progressTotal : nat
}.

Definition categoryProgress (flashcards : list Flashcard) : list CategoryProgress :=
  List.map (fun cat =>
              {| progressCategory := cat;
                 progressCompleted :=
                   List.length (List.filter completed (catCards flashcards cat));
                 progressTotal := List.length (catCards flashcards cat) |})
           (categories flashcards).

(** *** The category chart: top five and Other *)

Record CategoryCount := { countCategory : string; count : nat }.

(** [Array.prototype.sort] with the comparator [(a, b) => b.count - a.count]:
    descending by count, and stable, as the language requires. [a] stood
    before every element of the sorted [l]. *)
Fixpoint sortInsert (a : CategoryCount) (l : list CategoryCount) : list CategoryCount :=
  match l with
  | [] => [a]
  | b :: l' => if (count b <=? count a)%nat then a :: b :: l' else b :: sortInsert a l'
  end.

Definition sortByCount (l : list CategoryCount) : list CategoryCount :=
  foldr sortInsert [] l.

(** Descending by count. *)
Definition descending (a b : CategoryCount) : Prop := count b <= count a.

Definition categoryCounts (flashcards : list Flashcard) : list CategoryCount :=
  sortByCount
    (List.map (fun cat => {| countCategory := cat;
                             count := List.length (catCards flashcards cat) |})
              (categories flashcards)).

Definition topCats (flashcards : list Flashcard) : list CategoryCount :=
  take 5 (categoryCounts flashcards).

Definition otherCount (flashcards : list Flashcard) : nat :=
  foldl (fun sum c => sum + count c) 0 (drop 5 (categoryCounts flashcards)).

Definition catColors : list string :=
  ["#60a5fa"; "#a78bfa"; "#34d399"; "#f472b6"; "#f59e0b"; "#94a3b8"].

Record Slice := { title : string; value : nat; color : string }.

(** [catColors[i]]; the index is in range wherever the code uses it. *)
Definition colorAt (i : nat) : string := nth i catColors "".

Definition categoryPieData (flashcards : list Flashcard) : list Slice :=
  imap (fun i c => {| title := countCategory c; value := count c;
                      color := colorAt (i mod List.length catColors) |})
       (topCats flashcards) ++
  (if (0 <? otherCount flashcards)%nat
   then [{| title := "Other"; value := otherCount flashcards; color := colorAt 5 |}]
   else []).

(** *** Celebration *)

(** The condition of the second, larger burst in [handleMarkCompleted], over
    the [flashcards] of the render in which the card was clicked. *)
Definition newCompletedCount (flashcards : list Flashcard) (id' : string) : nat :=
  List.length (List.filter (fun c => completed c || String.eqb (id c) id') flashcards).

Definition megaCelebration (flashcards : list Flashcard) (id' : string) : bool :=
  (newCompletedCount flashcards id' =? totalCount flashcards)%nat &&
  (0 <? totalCount flashcards)%nat.

(** What the update of [handleMarkCompleted] makes of the collection:
    [updateDoc(ref, { completed: true, ... })] on the document [id']. *)
Definition updateCompleted (flashcards : list Flashcard) (id' : string) : list Flashcard :=
  List.map (fun c => if String.eqb (id c) id'
                     then {| id := id c; front := front c; back := back c;
                             category := category c; completed := true |}
                     else c) flashcards.

(** *** Links: each card once *)

(** The dashboard as far as the link look-ups go: the cards, the ids in
    [fetchedIdsRef], and the ids for which look-ups were started, latest
    first. *)
Record Links := {
  flashcards : list Flashcard;
  fetchedIds : gset string;
  started : list string
}.

(** One turn of the loop in [fetchLinksForCards]. *)
Definition fetchLinksForCard (l : Links) (card : Flashcard) : Links :=
  if bool_decide (id card ∈ fetchedIds l) then l
  else {| flashcards := flashcards l;
          fetchedIds := fetchedIds l ∪ {[ id card ]};
          started := id card :: started l |}.

(** The effect on [flashcards]. *)
Definition fetchLinksForCards (l : Links) : Links :=
  if (List.length (flashcards l) =? 0)%nat then l
  else foldl fetchLinksForCard l (flashcards l).

Inductive LinksEvent :=
| Snapshot (cards : list Flashcard)  (* the listener delivers the collection *)
| Deleted (id' : string).            (* [handleDelete], the deletion done *)

Definition linksStep (l : Links) (e : LinksEvent) : Links :=
  match e with
  | Snapshot cards =>
      fetchLinksForCards {| flashcards := cards; fetchedIds := fetchedIds l;
                            started := started l |}
  | Deleted id' =>
      {| flashcards := flashcards l; fetchedIds := fetchedIds l ∖ {[ id' ]};
         started := started l |}
  end.

Definition linksInitial : Links :=
  {| flashcards := []; fetchedIds := ∅; started := [] |}.

Definition linksRun (es : list LinksEvent) : Links := foldl linksStep linksInitial es.

(** How often a look-up was started for [id'], how often it was deleted. *)
Definition startedFor (id' : string) (l : Links) : nat :=
  List.length (List.filter (String.eqb id') (started l)).

Definition deletions (id' : string) (es : list LinksEvent) : nat :=
  List.length (List.filter (fun e => match e with
                                     | Deleted d => String.eqb id' d
                                     | Snapshot _ => false
                                     end) es).

(** What is known of the look-ups for one card after [n] deletions of it:
    started at most once more than deleted, and started if marked. *)
Definition lookedUp (id' : string) (n : nat) (l : Links) : Prop :=
  startedFor id' l <= n + (if bool_decide (id' ∈ fetchedIds l) then 1 else 0) /\
  (id' ∈ fetchedIds l -> 1 <= startedFor id' l).

(** *** The study timer in the dashboard *)

(** [onSecondsTick={() => setStatsRefreshKey((k) => k + 1)}]. *)
Definition onSecondsTick (statsRefreshKey : Z) : Z := (statsRefreshKey + 1)%Z.

(** The dashboard as the host of the timer: the arrow is written in the JSX,
    so each render of the dashboard passes a new function. The host's state
    is the statistics key. *)
Definition dashboardHost : Host Z :=
  {| callback := Some onSecondsTick; freshCallback := true |}.

(** A host that passes the same callback at every render. *)
Definition steadyHost : Host Z :=
  {| callback := Some onSecondsTick; freshCallback := false |}.

(** One second in a host that renders once in between: 999 milliseconds, a
    render of the host, one more millisecond, and the interval's call. *)
Definition secondWithRender : list HostEvent :=
  [Wait 999; HostRenders; Wait 1; At SecondElapsed].

End Dashboard.

(** ** The quiz page

    [src/app/quiz/page.tsx]: the answers, when the quiz can be submitted,
    and the score. The page also shows the study timer, with no callback. *)

Module Quiz.

Record QuizQuestion := {
  id : string;
  question : string;
  options : list string;
  correctIndex : Z;        (* a number that is no integer equals no option index *)
  explanation : option string
}.

Record QuizPayload := { topic : string; questions : list QuizQuestion }.

(** A slot of the array [answers]: a hole, [undefined], or a number. *)
Inductive Slot := Hole | Undefined | Number (n : Z).

(** [lastQuizScore] in [localStorage], but for the time stamp. *)
Record LastQuizScore := { lastTopic : string; lastScore : nat; lastTotal : nat }.

Record Page := {
  quiz : option QuizPayload;
  answers : list Slot;
  submitted : bool;
  score : option nat;
  lastQuizScore : option LastQuizScore
}.

(** [new Array(n).fill(-1)]. *)
Definition fill (n : nat) (v : Z) : list Slot := replicate n (Number v).

(** [[...prev]]: a copy in which the holes have become [undefined]. *)
Definition spread (prev : list Slot) : list Slot :=
  List.map (fun s => match s with Hole => Undefined | _ => s end) prev.

(** [next[i] = v]: in range it replaces the slot; out of range the array
    grows, with holes up to [i]. *)
Definition assign (i : nat) (v : Z) (next : list Slot) : list Slot :=
  if (i <? List.length next)%nat then <[ i := Number v ]> next
  else next ++ replicate (i - List.length next) Hole ++ [Number v].

(** [answers.every((a) => a >= 0)]: holes are not visited, and [undefined]
    is not at least zero. *)
Definition everyAnswered (answers : list Slot) : bool :=
  forallb (fun a => match a with
                    | Hole => true
                    | Undefined => false
                    | Number n => (0 <=? n)%Z
                    end) answers.

(** [allAnswered], as a boolean. *)
Definition allAnswered (p : Page) : bool :=
  match quiz p with
  | Some q => (List.length (answers p) =? List.length (questions q))%nat &&
              everyAnswered (answers p)
  | None => false
  end.

(** [answers[i] === correctIndex]. *)
Definition strictEquals (a : option Slot) (correctIndex : Z) : bool :=
  match a with
  | Some (Number n) => (n =? correctIndex)%Z
  | _ => false
  end.

(** The loop [quiz.questions.forEach((q, i) => ...)] of [handleSubmit], from
    question [i] on. *)
Fixpoint countCorrect (questions : list QuizQuestion) (i : nat) (answers : list Slot)
  (correct : nat) : nat :=
  match questions with
  | [] => correct
  | q :: questions' =>
      countCorrect questions' (S i) answers
        (if strictEquals (answers !! i) (correctIndex q) then S correct else correct)
  end.

(** The effect that loads the quiz: [currentQuiz] is what [sessionStorage]
    holds and [JSON.parse] makes of it, [None] when there is no item or it
    does not parse. *)
Definition quizMount (currentQuiz : option QuizPayload) (stored : option LastQuizScore)
  : Page :=
  match currentQuiz with
  | Some parsed =>
      {| quiz := Some parsed;
         answers := fill (List.length (questions parsed)) (-1);
         submitted := false; score := None; lastQuizScore := stored |}
  | None =>
      {| quiz := None; answers := []; submitted := false; score := None;
         lastQuizScore := stored |}
  end.

Definition handleSelect (qIndex optionIndex : nat) (p : Page) : Page :=
  match quiz p with
  | Some _ =>
      if submitted p then p
      else {| quiz := quiz p;
              answers := assign qIndex (Z.of_nat optionIndex) (spread (answers p));
              submitted := submitted p; score := score p;
              lastQuizScore := lastQuizScore p |}
  | None => p
  end.

Definition handleSubmit (p : Page) : Page :=
  match quiz p with
  | Some q =>
      if negb (allAnswered p) then p
      else
        let correct := countCorrect (questions q) 0 (answers p) 0 in
        {| quiz := quiz p; answers := answers p; submitted := true;
           score := Some correct;
           lastQuizScore := Some {| lastTopic := topic q; lastScore := correct;
                                    lastTotal := List.length (questions q) |} |}
  | None => p
  end.

(** *** Events: the buttons that are rendered and not disabled *)

Inductive QuizEvent :=
| Select (qIndex optionIndex : nat)   (* option [optionIndex] of question [qIndex] *)
| Submit.

Definition optionRendered (p : Page) (qIndex optionIndex : nat) : bool :=
  match quiz p with
  | Some q =>
      match questions q !! qIndex with
      | Some qu => (optionIndex <? List.length (options qu))%nat
      | None => false
      end
  | None => false
  end.

Definition quizStep (e : QuizEvent) (p : Page) : option Page :=
  match e with
  | Select qIndex optionIndex =>
      if optionRendered p qIndex optionIndex && negb (submitted p)
      then Some (handleSelect qIndex optionIndex p) else None
  | Submit =>
      if bool_decide (is_Some (quiz p)) && negb (submitted p || negb (allAnswered p))
      then Some (handleSubmit p) else None
  end.

Fixpoint quizRun (es : list QuizEvent) (p : Page) : option Page :=
  match es with
  | [] => Some p
  | e :: es' => p' ← quizStep e p; quizRun es' p'
  end.

Inductive quizReachable (currentQuiz : option QuizPayload) : Page -> Prop :=
| quizReachable_mount stored : quizReachable currentQuiz (quizMount currentQuiz stored)
| quizReachable_step e p p' :
    quizReachable currentQuiz p -> quizStep e p = Some p' -> quizReachable currentQuiz p'.

(** *** What holds of the page *)

(** The answer to a question: nothing yet, or one of its options. *)
Definition answerOf (a : Slot) (q : QuizQuestion) : Prop :=
  exists n, a = Number n /\ (n = -1 \/ 0 <= n < Z.of_nat (List.length (options q)))%Z.

(** A question whose [correctIndex] is the index of one of its options. *)
Definition answerable (q : QuizQuestion) : bool :=
  (0 <=? correctIndex q)%Z && (correctIndex q <? Z.of_nat (List.length (options q)))%Z.

(** The option last selected for question [i] in a trace, [-1] if none;
    [answer] is what was there before. *)
Fixpoint lastSelected (es : list QuizEvent) (i : nat) (answer : Z) : Z :=
  match es with
  | [] => answer
  | Select qIndex optionIndex :: es' =>
      lastSelected es' i (if (qIndex =? i)%nat then Z.of_nat optionIndex else answer)
  | Submit :: es' => lastSelected es' i answer
  end.

Definition pageHeld (currentQuiz : option QuizPayload) (p : Page) : Prop :=
  quiz p = currentQuiz /\
  Forall2 answerOf (answers p) (from_option questions [] currentQuiz) /\
  (submitted p = true <-> is_Some (score p)) /\
  (submitted p = true -> allAnswered p = true) /\
  (forall n, score p = Some n ->
     exists q, currentQuiz = Some q /\
       n = countCorrect (questions q) 0 (answers p) 0 /\
       lastQuizScore p = Some {| lastTopic := topic q; lastScore := n;
                                 lastTotal := List.length (questions q) |}).

(** The questions answered correctly by the last selections of a trace. *)
Definition correctlyAnswered (es : list QuizEvent) (q : QuizPayload) : list (nat * QuizQuestion) :=
  List.filter (fun iq => (lastSelected es iq.1 (-1) =? correctIndex iq.2)%Z)
              (imap pair (questions q)).

(** *** A concrete quiz *)

Definition twoQuestions : QuizPayload :=
  {| topic := "Newton";
     questions :=
       [{| id := "q1"; question := "First law?"; options := ["Inertia"; "Action"];
           correctIndex := 0; explanation := None |};
        {| id := "q2"; question := "Second law?"; options := ["F = ma"; "E = mc2"; "pV"];
           correctIndex := 0; explanation := Some "Force" |}] |}.

End Quiz.

(** ** Looking up a video

    [src/app/utils/fetchYoutube.ts]: the tokens of a text, the score of a
    search result for a query, the choice of the best result, and the
    requests [fetchBestYoutubeUrl] makes. *)

Module FetchYoutube.
Import StudyPresence(Completion, Normal, Throw).

(** [id?.videoId] and [snippet?.title], [snippet?.description]. *)
Record YoutubeSearchItem := {
  videoId : option string;
  title : option string;
  description : option string
}.

(** *** Tokens *)

Definition between (lo hi c : ascii) : bool :=
  (N_of_ascii lo <=? N_of_ascii c)%N && (N_of_ascii c <=? N_of_ascii hi)%N.

(** The class [a-z0-9]. *)
Definition isWord (c : ascii) : bool := between "a" "z" c || between "0" "9" c.

(** The class [\s], as far as it is in ASCII: tab, line feed, vertical tab,
    form feed, carriage return, space. A white-space character beyond ASCII
    is replaced by spaces before the split, like every character outside
    [a-z0-9\s]; it separates tokens either way. *)
Definition isSpace (c : ascii) : bool :=
  between "009" "013" c || Ascii.eqb c " ".

(** [.replace(/[^a-z0-9\s]/g, " ")]. *)
Fixpoint replaceOthers (s : string) : string :=
  match s with
  | EmptyString => EmptyString
  | String c s' =>
      String (if isWord c || isSpace c then c else " "%char) (replaceOthers s')
  end.

(** [.split(/\s+/)]: [current] is the piece being read, [gap] whether the
    separator before it is still being read. A separator at either end
    leaves an empty piece there. *)
Fixpoint splitFrom (s : string) (current : string) (gap : bool) : list string :=
  match s with
  | EmptyString => [current]
  | String c s' =>
      if isSpace c then
        if gap then splitFrom s' current true
        else current :: splitFrom s' "" true
      else splitFrom s' (current +:+ String c "") false
  end.

Definition split (s : string) : list string := splitFrom s "" false.

Section Strings.

(** [toLowerCase], [trim], [includes] and [length] of the language's
    strings; the length counts UTF-16 code units. *)
Variable toLowerCase : string -> string.
Variable trim : string -> string.
Variable includes : string -> string -> bool.
Variable codeUnits : string -> nat.

Definition tokenize (text : string) : list string :=
  List.filter (fun t => (3 <=? String.length t)%nat)
              (split (replaceOthers (toLowerCase text))).

(** [x || ""]. *)
Definition orEmpty (x : option string) : string := default "" x.

(** The loop over the query's tokens. *)
Definition overlap (tTokens dTokens : list string) (score : Z) (qt : string) : Z :=
  if bool_decide (qt ∈ tTokens) then (score + 3)%Z
  else if bool_decide (qt ∈ dTokens) then (score + 1)%Z
  else score.

Definition nonEmpty (s : string) : bool := negb (String.eqb s "").

Definition scoreResult (query : string) (item : YoutubeSearchItem) : Z :=
  let qTokens := tokenize query in
  let title' := orEmpty (title item) in
  let desc := orEmpty (description item) in
  let tTokens := tokenize title' in
  let dTokens := tokenize desc in
  let score := foldl (overlap tTokens dTokens) 0%Z qTokens in
  let q := toLowerCase (trim query) in
  let score := if nonEmpty q && includes (toLowerCase title') q
               then (score + 5)%Z else score in
  let score := if nonEmpty q && includes (toLowerCase desc) q
               then (score + 2)%Z else score in
  (score + Z.max 0 (3 - Z.of_nat (codeUnits title') / 40))%Z.

(** *** The best result *)

(** [bestScore]: [None] is [-Infinity]. *)
Definition exceeds (s : Z) (bestScore : option Z) : bool :=
  match bestScore with
  | Some b => (b <? s)%Z
  | None => true
  end.

(** One turn of the loop of [pickBest], on [(bestId, bestScore)]. *)
Definition pickStep (query : string) (best : option string * option Z)
  (it : YoutubeSearchItem) : option string * option Z :=
  match videoId it with
  | Some id =>
      if nonEmpty id then
        let s := scoreResult query it in
        if exceeds s best.2 then (Some id, Some s) else best
      else best
  | None => best
  end.

Definition pickBest (items : list YoutubeSearchItem) (query : string) : option string :=
  (foldl (pickStep query) (None, None) items).1.

(** The items that have a video id. *)
Definition hasId (it : YoutubeSearchItem) : bool :=
  match videoId it with
  | Some id => nonEmpty id
  | None => false
  end.

(** What the loop of [pickBest] holds after the items [l]: nothing if none
    of them has an id, else the first of those with the highest score. *)
Definition picked (query : string) (l : list YoutubeSearchItem)
  (best : option string * option Z) : Prop :=
  match best.1 with
  | None => best.2 = None /\ Forall (fun it => hasId it = false) l
  | Some id =>
      id <> "" /\
      exists i it, l !! i = Some it /\ videoId it = Some id /\
        best.2 = Some (scoreResult query it) /\
        forall j it', l !! j = Some it' -> hasId it' = true ->
          (scoreResult query it' <= scoreResult query it)%Z /\
          (j < i -> (scoreResult query it' < scoreResult query it)%Z)
  end.

(** *** The requests *)

(** A response: [ok], [status], and what [(await res.json()).items] is;
    [None] when the answer has no [items]. *)
Record Response := {
  ok : bool;
  status : Z;
  items : Completion (option (list YoutubeSearchItem))
}.

(** [encodeURIComponent], of a query that is well-formed. *)
Variable encodeURIComponent : string -> string.

Definition searchUrl : string :=
  "https://www.googleapis.com/youtube/v3/search?part=snippet&type=video&videoEmbeddable=true&order=relevance&relevanceLanguage=en&maxResults=5&q=".

Definition urlWithKey (query apiKey : string) : string :=
  searchUrl +:+ encodeURIComponent query +:+ "&key=" +:+ apiKey.

Definition fallback (query : string) : string :=
  searchUrl +:+ encodeURIComponent query.

Definition watchUrl (id : string) : string := "https://youtube.com/watch?v=" +:+ id.

(** [pickBest(data.items || [], query)] and the URL made of it. *)
Definition bestOf (res : Response) (query : string) : Completion (option string) :=
  data ← items res;
  mret (watchUrl <$> pickBest (default [] data) query).

(** [fetch] is the network: what a request for a URL gives. The result is
    the list of the URLs requested, in order, and how the call ends. *)
Definition fetchBestYoutubeUrl (apiKey : option string)
  (fetch : string -> Completion Response) (query : string)
  : list string * Completion (option string) :=
  match apiKey with
  | Some key =>
      if nonEmpty key then
        let url := urlWithKey query key in
        match fetch url with
        | Normal res =>
            if negb (ok res) then
              if (status res =? 403)%Z then
                match fetch (fallback query) with
                | Normal res2 =>
                    ([url; fallback query],
                     if negb (ok res2) then Normal None else bestOf res2 query)
                | Throw e => ([url; fallback query], Throw e)
                end
              else ([url], Normal None)
            else ([url], bestOf res query)
        | Throw e => ([url], Throw e)
        end
      else ([], Normal None)
  | None => ([], Normal None)
  end.

End Strings.

(** *** Vocabulary *)

(** Every character of [s] is in the class [p]. *)
Fixpoint allChars (p : ascii -> bool) (s : string) : bool :=
  match s with
  | EmptyString => true
  | String c s' => p c && allChars p s'
  end.


End FetchYoutube.

(** ** The study planner

    The component [StudyPlanner] ([src/unnamed/part_002]): the clock label
    of a minute of the day, the start time read from the input, and the
    blocks of the timetable. Minutes and cards are integers; the language
    computes with them exactly at these sizes. *)

Module StudyPlanner.
Import StudyPresenceView(toString, padStart).
Import FetchYoutube(between).

Record TimeSlot := { start : string; end' : string; cards : Z }.

(** [toTimeLabel]: [%] is the remainder that has the sign of the dividend,
    hence the second [%]. *)
Definition toTimeLabel (minutesFromMidnight : Z) : string :=
  let m := Z.rem (Z.rem minutesFromMidnight (24 * 60) + 24 * 60) (24 * 60) in
  let h := (m / 60)%Z in
  let min := Z.rem m 60 in
  padStart 2 "0" (toString h) +:+ ":" +:+ padStart 2 "0" (toString min).

(** [totalMinutes], of what [parseInt(totalMinutesInput, 10)] gives; [None]
    is [NaN]. *)
Definition totalMinutes (n : option Z) : Z :=
  match n with
  | Some n => if (0 <? n)%Z then n else 0%Z
  | None => 0%Z
  end.

(** *** The start time *)

Definition isDigit (c : ascii) : bool := between "0" "9" c.

(** The groups of [/^([0-1]?\d|2[0-3]):([0-5]\d)$/] on [s], if it matches. *)
Definition matchTime (s : string) : option (string * string) :=
  match s with
  | String d (String ":" (String m1 (String m2 EmptyString))) =>
      if isDigit d && between "0" "5" m1 && isDigit m2
      then Some (String d "", String m1 (String m2 ""))
      else None
  | String a (String b (String ":" (String m1 (String m2 EmptyString)))) =>
      if (between "0" "1" a && isDigit b || Ascii.eqb a "2" && between "0" "3" b) &&
         between "0" "5" m1 && isDigit m2
      then Some (String a (String b ""), String m1 (String m2 ""))
      else None
  | _ => None
  end.

(** [parseInt(s, 10)] of a string of decimal digits. *)
Fixpoint parseDigits (s : string) (value : Z) : Z :=
  match s with
  | EmptyString => value
  | String c s' => parseDigits s' (10 * value + (Z.of_N (N_of_ascii c) - 48))
  end.

Definition parseInt (s : string) : Z := parseDigits s 0.

Section Trim.

(** [String.prototype.trim]. *)
Variable trim : string -> string.

Definition startMinutes (startTimeInput : string) : Z :=
  match matchTime (trim startTimeInput) with
  | None => (9 * 60)%Z
  | Some (hours, minutes) => (parseInt hours * 60 + parseInt minutes)%Z
  end.

End Trim.

(** *** The blocks *)

Definition slotMinutes : Z := 30.

(** [Math.ceil(a / b)], for a positive [b]. *)
Definition ceilDiv (a b : Z) : Z := (- ((- a) / b))%Z.

(** The loop that pushes the blocks: [n] are still to come, the next one
    starts at [cursor]. *)
Fixpoint pushSlots (n : nat) (cursor cardsPerSlot : Z) : list TimeSlot :=
  match n with
  | O => []
  | S n' =>
      {| start := toTimeLabel cursor;
         end' := toTimeLabel (cursor + slotMinutes);
         cards := cardsPerSlot |}
      :: pushSlots n' (cursor + slotMinutes) cardsPerSlot
  end.

Definition slotCount (totalMinutes : Z) : Z := Z.max 1 (totalMinutes / slotMinutes).

Definition cardsPerSlot (remaining totalMinutes : Z) : Z :=
  Z.max 1 (ceilDiv remaining (slotCount totalMinutes)).

Definition slots (remaining totalMinutes startMinutes : Z) : list TimeSlot :=
  if (remaining <=? 0)%Z || (totalMinutes <=? 0)%Z then []
  else pushSlots (Z.to_nat (slotCount totalMinutes)) startMinutes
                 (cardsPerSlot remaining totalMinutes).

(** *** Vocabulary *)

(** The minute of the day. *)
Definition minuteOfDay (minutes : Z) : Z := (minutes mod (24 * 60))%Z.

(** The cards of a timetable, together. *)
Definition plannedCards (l : list TimeSlot) : Z := foldr (fun s n => (cards s + n)%Z) 0%Z l.

(** The start time read from a text already trimmed. *)
Definition startOf (text : string) : Z := startMinutes (fun s => s) text.

End StudyPlanner.

(** ** Importing cards

    [src/app/components/ImportExport.tsx]: [handleImport], which adds the
    cards of a JSON file to the collection one by one. *)

Module ImportExport.
Import StudyPresence(Completion, Normal, Throw).

(** An element of the parsed file: [front] and [back], and what else of a
    flashcard it may have. *)
Record ImportedCard := {
  front : string;
  back : string;
  category : option string;     (* [None]: [null] or [undefined] *)
  completed : option bool;
  reviewCount : option Z;
  userId : option string
}.

(** The document [addDoc] is given, but for [createdAt]. *)
Record Document := {
  docFront : string;
  docBack : string;
  docCategory : option string;
  docUserId : string;
  docCompleted : bool;
  docReviewCount : Z
}.

Definition document (user : string) (card : ImportedCard) : Document :=
  {| docFront := front card; docBack := back card;
     docCategory := category card;
     docUserId := user;
     docCompleted := default false (completed card);
     docReviewCount := default 0%Z (reviewCount card) |}.

(** The component and what it acts on: the collection, [busy], the alerts
    shown, the calls of [onImportComplete], and the file input's value. *)
Record Importer := {
  collection : list Document;
  busy : bool;
  alerts : nat;
  completions : nat;
  inputValue : string
}.

(** The loop [for (const card of parsed) await addDoc(...)], from the
    [n]-th call of [addDoc] on; [accepted n] is whether that call is
    fulfilled. The loop ends at the first call that is rejected. *)
Fixpoint addAll (user : string) (accepted : nat -> bool) (parsed : list ImportedCard)
  (n : nat) (docs : list Document) : list Document * bool :=
  match parsed with
  | [] => (docs, true)
  | card :: parsed' =>
      if accepted n then addAll user accepted parsed' (S n) (docs ++ [document user card])
      else (docs, false)
  end.

(** [file] is [e.target.files?.[0]] read and parsed: [None] when no file was
    chosen, [Throw] when reading or [JSON.parse] fails or the value parsed
    cannot be iterated. [onImportComplete] is whether the host passed the
    callback. *)
Definition handleImport (user : string) (onImportComplete : bool)
  (accepted : nat -> bool) (file : option (Completion (list ImportedCard)))
  (s : Importer) : Importer :=
  match file with
  | None => s
  | Some text =>
      let '(docs, done) :=
        match text with
        | Normal parsed => addAll user accepted parsed 0 (collection s)
        | Throw _ => (collection s, false)
        end in
      {| collection := docs;
         busy := false;
         alerts := if done then alerts s else S (alerts s);
         completions := if done && onImportComplete then S (completions s)
                        else completions s;
         inputValue := "" |}
  end.

End ImportExport.

(** * Properties *)

(** ** The brightness analysis *)

Module LuminanceFacts.
Import Luminance.

(** An array of whole pixels. *)
Lemma whole_pixels_ind (P : ImageData -> Prop) :
  P [] ->
  (forall r g b a rest, P rest -> P (r :: g :: b :: a :: rest)) ->
  forall data n, length data = (4 * n)%nat -> P data.
Proof.
  intros Hnil Hpixel data n. revert data.
  induction n as [|n IH]; intros data Hlen.
  - destruct data; [exact Hnil | discriminate].
  - destruct data as [|r [|g [|b [|a rest]]]]; simpl in Hlen; try lia.
    apply Hpixel, IH. lia.
Qed.

Lemma pixelsOf_length data n :
  length data = (4 * n)%nat -> length (pixelsOf data) = n.
Proof.
  revert data. induction n as [|n IH]; intros data Hlen.
  - now destruct data.
  - destruct data as [|r [|g [|b [|a rest]]]]; simpl in Hlen; try lia.
    simpl. f_equal. apply IH. lia.
Qed.

(** On whole pixels the loop's two accumulators are the sum of the
    luminances and the sum of their squares, whatever they start from. *)
Lemma lumLoop_sums data n : forall s q,
  length data = (4 * n)%nat ->
  lumLoop data (s, q) =
  (fold_left PrimFloat.add (map luminance (pixelsOf data)) s,
   fold_left PrimFloat.add
     (map (fun p => luminance p * luminance p)%float (pixelsOf data)) q).
Proof.
  intros s q Hlen. revert s q.
  apply (whole_pixels_ind (fun data => forall s q,
    lumLoop data (s, q) =
    (fold_left PrimFloat.add (map luminance (pixelsOf data)) s,
     fold_left PrimFloat.add
       (map (fun p => luminance p * luminance p)%float (pixelsOf data)) q)))
    with (n := n); [| | exact Hlen].
  - reflexivity.
  - intros r g b a rest IH s q.
    cbn [lumLoop pixelsOf map fold_left]. unfold accumulate. cbn [fst snd].
    rewrite IH. reflexivity.
Qed.

Lemma upto_In k : forall z0 z,
  (z0 <= z < z0 + Z.of_nat k)%Z -> In z (upto k z0).
Proof.
  induction k as [|k IH]; intros z0 z Hz; [lia |].
  cbn [upto]. destruct (Z.eq_dec z0 z) as [-> | Hne]; [now left | right].
  apply IH. lia.
Qed.

(** Dividing the number of bytes by four gives the number of pixels, with
    no rounding, for every frame up to the size of the canvas. *)
Lemma pixels_upto_canvas :
  forallb (fun n => Leibniz.eqb (num (4 * n) / 4)%float (binary64 n))
          (upto (Z.to_nat 14401) 0) = true.
Proof. vm_compute. reflexivity. Qed.

Lemma pixels_count data n :
  length data = (4 * n)%nat -> (n <= width * height)%nat ->
  pixels data = binary64 (Z.of_nat (length (pixelsOf data))).
Proof.
  intros Hlen Hn. unfold pixels.
  rewrite (pixelsOf_length data n Hlen), Hlen, Nat2Z.inj_mul.
  apply Leibniz.eqb_spec.
  apply (proj1 (forallb_forall _ _) pixels_upto_canvas (Z.of_nat n)).
  apply upto_In. unfold width, height in Hn. lia.
Qed.

Lemma avg_mean data n :
  length data = (4 * n)%nat -> (n <= width * height)%nat ->
  avg data = meanLuminance (pixelsOf data).
Proof.
  intros Hlen Hn. unfold avg, meanLuminance, sums, total.
  now rewrite (lumLoop_sums data _ _ _ Hlen), (pixels_count data n).
Qed.

Lemma variance_spec data n :
  length data = (4 * n)%nat -> (n <= width * height)%nat ->
  variance data = luminanceVariance (pixelsOf data).
Proof.
  intros Hlen Hn. unfold variance, luminanceVariance.
  rewrite (avg_mean data n) by assumption.
  unfold sums, total.
  now rewrite (lumLoop_sums data _ _ _ Hlen), (pixels_count data n).
Qed.

Lemma flat_map_length_const {A B} (f : A -> list B) (k : nat) (l : list A) :
  (forall a, length (f a) = k) -> length (flat_map f l) = (k * length l)%nat.
Proof.
  intros Hf. induction l as [|a l IH]; simpl; [lia |].
  rewrite length_app, IH, Hf. lia.
Qed.

Lemma colourFrame_length f : length (colourFrame f) = (4 * (width * height))%nat.
Proof.
  unfold colourFrame.
  rewrite (flat_map_length_const _ (4 * width)), length_seq; [lia |].
  intros y. rewrite (flat_map_length_const _ 4), length_seq; [lia |].
  intros x. now destruct (f x y) as [[r g] b].
Qed.

Lemma frame_length f : length (frame f) = (4 * (width * height))%nat.
Proof.
  unfold frame.
  rewrite (flat_map_length_const _ (4 * width)), length_seq; [lia |].
  intros y. rewrite (flat_map_length_const _ 4), length_seq; [lia |].
  reflexivity.
Qed.

(** C3, as stated, fails. In exact arithmetic the frame with the grey above
    the blue has mean luminance 25 and variance 5476/9, so neither is the
    mean below 25 nor the variance below 50; the component classifies it as
    covered, because the mean it computes in binary64 is below 25. The same
    pixels with the two halves exchanged have the same exact mean and
    variance and are classified as not covered. *)
Lemma cameraCovered_depends_on_pixel_order :
  analysed greyAboveBlue /\
  (exactMean (pixelsOf greyAboveBlue) == 25)%Q /\
  (exactVariance (pixelsOf greyAboveBlue) == 5476 # 9)%Q /\
  ~ ((exactMean (pixelsOf greyAboveBlue) < 25)%Q \/
     (exactVariance (pixelsOf greyAboveBlue) < 50)%Q) /\
  cameraCovered greyAboveBlue = true /\
  (meanLuminance (pixelsOf greyAboveBlue) <? darkThreshold)%float = true /\
  (exactMean (pixelsOf blueAboveGrey) == 25)%Q /\
  (exactVariance (pixelsOf blueAboveGrey) == 5476 # 9)%Q /\
  cameraCovered blueAboveGrey = false /\
  ~ coveredClaim.
Proof.
  assert (Hmean : exactMean (pixelsOf greyAboveBlue) = 25%Q)
    by (vm_compute; reflexivity).
  assert (Hvar : exactVariance (pixelsOf greyAboveBlue) = (5476 # 9)%Q)
    by (vm_compute; reflexivity).
  assert (Hmean' : exactMean (pixelsOf blueAboveGrey) = 25%Q)
    by (vm_compute; reflexivity).
  assert (Hvar' : exactVariance (pixelsOf blueAboveGrey) = (5476 # 9)%Q)
    by (vm_compute; reflexivity).
  assert (Hcovered : cameraCovered greyAboveBlue = true)
    by (vm_compute; reflexivity).
  assert (Hnot : ~ ((exactMean (pixelsOf greyAboveBlue) < 25)%Q \/
                    (exactVariance (pixelsOf greyAboveBlue) < 50)%Q)).
  { rewrite Hmean, Hvar. intros [H | H]; discriminate H. }
  assert (Hlen : analysed greyAboveBlue)
    by (unfold analysed, greyAboveBlue; apply colourFrame_length).
  split; [exact Hlen |].
  split; [rewrite Hmean; reflexivity |]. split; [rewrite Hvar; reflexivity |].
  split; [exact Hnot |]. split; [exact Hcovered |].
  split; [vm_compute; reflexivity |].
  split; [rewrite Hmean'; reflexivity |]. split; [rewrite Hvar'; reflexivity |].
  split; [vm_compute; reflexivity |].
  intros Hclaim. apply Hnot. exact (proj1 (Hclaim greyAboveBlue Hlen) Hcovered).
Qed.

(** C3, amended. For every frame of whole pixels up to the size of the
    canvas, 160 by 90, which is the size of every frame the component
    analyses, with the luminance of a pixel the unweighted average
    (r + g + b) / 3 of its three colour channels, the frame is classified as
    covered if and only if the mean luminance is below 25 or the luminance
    variance is below 50, where mean and variance are the values computed in
    binary64: the sum of the luminances, taken from the first pixel to the
    last, over the number of pixels, and the sum of the squared luminances,
    taken likewise, over the number of pixels minus the squared mean. So the
    all-black frame, of mean 0, is covered, and the two-coloured board of
    mean 128 and variance 1764, exactly and as computed, is not. *)
Theorem cameraCovered_iff_computed_dark_or_flat :
  (forall data n,
     length data = (4 * n)%nat -> (n <= width * height)%nat ->
     cameraCovered data = true <->
     (meanLuminance (pixelsOf data) <? darkThreshold)%float = true \/
     (luminanceVariance (pixelsOf data) <? flatnessThreshold)%float = true) /\
  (forall data,
     analysed data ->
     cameraCovered data = true <->
     (meanLuminance (pixelsOf data) <? darkThreshold)%float = true \/
     (luminanceVariance (pixelsOf data) <? flatnessThreshold)%float = true) /\
  (analysed blackFrame /\
   (exactMean (pixelsOf blackFrame) == 0)%Q /\
   meanLuminance (pixelsOf blackFrame) = 0%float /\
   cameraCovered blackFrame = true) /\
  (analysed colourBoard /\
   (exactMean (pixelsOf colourBoard) == 128)%Q /\
   (exactVariance (pixelsOf colourBoard) == 1764)%Q /\
   meanLuminance (pixelsOf colourBoard) = 128%float /\
   luminanceVariance (pixelsOf colourBoard) = 1764%float /\
   cameraCovered colourBoard = false).
Proof.
  assert (Hiff : forall data n,
            length data = (4 * n)%nat -> (n <= width * height)%nat ->
            cameraCovered data = true <->
            (meanLuminance (pixelsOf data) <? darkThreshold)%float = true \/
            (luminanceVariance (pixelsOf data) <? flatnessThreshold)%float = true).
  { intros data n Hlen Hn. unfold cameraCovered, veryDark, veryFlat.
    rewrite (avg_mean data n), (variance_spec data n) by assumption.
    unfold darkThreshold, flatnessThreshold. apply orb_true_iff. }
  split; [exact Hiff |]. split; [| split].
  - intros data Hlen. apply (Hiff data (width * height)%nat Hlen). apply le_n.
  - assert (Hmean : exactMean (pixelsOf blackFrame) = 0%Q)
      by (vm_compute; reflexivity).
    split; [unfold analysed, blackFrame; apply frame_length |].
    rewrite Hmean. split; [reflexivity |]. apply conj; vm_compute; reflexivity.
  - assert (Hmean : exactMean (pixelsOf colourBoard) = 128%Q)
      by (vm_compute; reflexivity).
    assert (Hvar : exactVariance (pixelsOf colourBoard) = 1764%Q)
      by (vm_compute; reflexivity).
    split; [unfold analysed, colourBoard; apply colourFrame_length |].
    rewrite Hmean, Hvar. split; [reflexivity |]. split; [reflexivity |].
    apply conj; [| apply conj]; vm_compute; reflexivity.
Qed.

End LuminanceFacts.

(** ** The component *)

Module StudyPresenceFacts.
Import StudyPresence.

(** *** Helper lemmas *)

Ltac effects :=
  unfold unmount, commit, render, attachStream, samplingEffect, samplingCleanup,
    streamCleanup.

Lemma stateOf_fields c c' :
  stateOf c' = stateOf c ->
  seconds c' = seconds c /\ isRunning c' = isRunning c /\
  isOnline c' = isOnline c /\ cameraEnabled c' = cameraEnabled c /\
  isUserPresent c' = isUserPresent c /\ cameraError c' = cameraError c /\
  streamRef c' = streamRef c /\ live c' = live c /\ mounted c' = mounted c.
Proof.
  unfold stateOf. intros H. injection H as -> -> -> -> -> -> -> -> ->. tauto.
Qed.

Lemma render_state c : stateOf (render c) = stateOf c.
Proof. unfold render. repeat case_match; reflexivity. Qed.

Lemma attachStream_state c : stateOf (attachStream c) = stateOf c.
Proof. unfold attachStream. repeat case_match; reflexivity. Qed.

Lemma samplingCleanup_state c : stateOf (samplingCleanup c) = stateOf c.
Proof. unfold samplingCleanup. case_match; reflexivity. Qed.

Lemma samplingEffect_state c : stateOf (samplingEffect c) = stateOf c.
Proof. unfold samplingEffect. case_match; reflexivity. Qed.

Lemma commit_stateOf old c : stateOf (commit old c) = stateOf c.
Proof.
  unfold commit.
  repeat case_bool_decide;
    rewrite ?samplingEffect_state, ?samplingCleanup_state, ?attachStream_state;
    apply render_state.
Qed.

Lemma commit_state old c :
  seconds (commit old c) = seconds c /\ isRunning (commit old c) = isRunning c /\
  isOnline (commit old c) = isOnline c /\
  cameraEnabled (commit old c) = cameraEnabled c /\
  isUserPresent (commit old c) = isUserPresent c /\
  cameraError (commit old c) = cameraError c /\
  streamRef (commit old c) = streamRef c /\ live (commit old c) = live c /\
  mounted (commit old c) = mounted c.
Proof.
  pose proof (commit_stateOf old c) as H. unfold stateOf in H.
  injection H as -> -> -> -> -> -> -> -> ->. tauto.
Qed.

Lemma commit_pending old c : pending (commit old c) = pending c.
Proof.
  effects. repeat case_bool_decide; repeat case_match; reflexivity.
Qed.

Lemma samplingCleanup_videoRef c : videoRef (samplingCleanup c) = videoRef c.
Proof. unfold samplingCleanup. case_match; reflexivity. Qed.

Lemma samplingEffect_videoRef c : videoRef (samplingEffect c) = videoRef c.
Proof. unfold samplingEffect. case_match; reflexivity. Qed.

(** With the camera enabled there is a video element after the render. *)
Lemma render_videoRef c : cameraEnabled c = true -> is_Some (videoRef (render c)).
Proof.
  intros Hcam. unfold render. rewrite Hcam.
  destruct (videoRef c) eqn:Hv; simpl; [rewrite Hv |]; eauto.
Qed.

Lemma attachStream_videoRef c :
  is_Some (videoRef c) -> is_Some (videoRef (attachStream c)).
Proof.
  intros [v Hv]. unfold attachStream. rewrite Hv.
  destruct (cameraEnabled c), (streamRef c); simpl; rewrite ?Hv; eauto.
Qed.

(** With the camera disabled there is no video element after the render. *)
Lemma commit_videoRef_disabled old c :
  cameraEnabled c = false -> videoRef (commit old c) = None.
Proof.
  intros Hcam.
  assert (Hrender : render c = setVideoRef None c)
    by (unfold render; now rewrite Hcam).
  assert (Hattach : attachStream (render c) = render c)
    by (rewrite Hrender; unfold attachStream; simpl; now rewrite Hcam).
  unfold commit. rewrite Hattach.
  repeat case_bool_decide;
    rewrite ?samplingEffect_videoRef, ?samplingCleanup_videoRef, Hrender;
    reflexivity.
Qed.

(** With the same [cameraEnabled] and [isRunning] as before, the sampling
    effect is left alone. *)
Lemma commit_sampling old c :
  cameraEnabled old = cameraEnabled c -> isRunning old = isRunning c ->
  sampler (commit old c) = sampler c /\ cancelled (commit old c) = cancelled c /\
  closures (commit old c) = closures c.
Proof.
  intros Hcam Hrun. effects.
  rewrite !bool_decide_eq_true_2 by auto.
  destruct (cameraEnabled c); [destruct (videoRef c) |]; repeat split; reflexivity.
Qed.

Lemma stopTracks_difference stream l : stopTracks stream l = l ∖ list_to_set stream.
Proof.
  unfold stopTracks. revert l.
  induction stream as [|t stream IH]; intros l; simpl.
  - symmetry. apply difference_empty_L.
  - rewrite IH. unfold stop. apply difference_difference_l_L.
Qed.

(** The promise of [checkPresence] is never rejected. *)
Lemma checkPresence_settles isCancelled smp c :
  exists c', checkPresence isCancelled smp c = Normal c'.
Proof.
  unfold checkPresence.
  destruct (negb (hasVideo smp) || negb (hasCtx smp)); [eauto |].
  unfold tryCatch. destruct (analyse isCancelled smp c); [eauto |].
  destruct (negb isCancelled); eauto.
Qed.

(** *** The gate of the timer *)

(** C1. In every state, the timer is active exactly when run is requested and
    either the camera is disabled or the latest sample is Present. With the
    camera disabled it is active exactly when run is requested; with the
    camera enabled and the latest sample Absent or Unknown it is not active,
    whatever is requested. *)
Theorem isTimerActive_gate (c : Component) :
  isTimerActive c
  = isRunning c && (negb (cameraEnabled c) || isPresent (latestSample c)) /\
  (cameraEnabled c = false -> isTimerActive c = isRunning c) /\
  (cameraEnabled c = true ->
   latestSample c = Absent \/ latestSample c = Unknown ->
   isTimerActive c = false).
Proof.
  unfold isTimerActive, isAutoPaused, latestSample.
  destruct (isRunning c), (cameraEnabled c), (isUserPresent c) as [[|]|]; simpl;
    repeat split; intros; try reflexivity; try discriminate;
    destruct_or?; discriminate.
Qed.

Lemma isTimerActive_gate_witness : isTimerActive watching = false.
Proof.
  apply (proj2 (proj2 (isTimerActive_gate watching))).
  - reflexivity.
  - right. reflexivity.
Defined.

(** *** Reachability of the concrete components *)

Lemma watching_run : run [ClickEnableCamera oneTrack] (mount true) = Some watching.
Proof. vm_compute. reflexivity. Qed.

Lemma stoppedWithCamera_run :
  run [ClickToggle oneTrack; ClickEnableCamera oneTrack] (mount true)
  = Some stoppedWithCamera.
Proof. vm_compute. reflexivity. Qed.

Lemma reachable_run es : forall c c',
  reachable c -> run es c = Some c' -> reachable c'.
Proof.
  induction es as [|e es IH]; intros c c' Hc Hrun; simpl in Hrun.
  - now injection Hrun as <-.
  - destruct (step e c) as [c1|] eqn:Hstep; [| discriminate].
    simpl in Hrun. eapply IH; [| exact Hrun]. eapply reachable_step; eauto.
Qed.

Lemma watching_reachable : reachable watching.
Proof. eapply reachable_run; [apply (reachable_mount true) | apply watching_run]. Qed.

(** *** The status label *)

(** C4, as stated, fails: with the timer stopped and the camera then enabled
    from the camera panel, the label is the long one although run is not
    requested. *)
Lemma studyStatusLabel_stopped_with_camera :
  run [ClickToggle oneTrack; ClickEnableCamera oneTrack] (mount true)
  = Some stoppedWithCamera /\
  cameraEnabled stoppedWithCamera = true /\
  isRunning stoppedWithCamera = false /\
  specifiedLabel stoppedWithCamera = "Not studying" /\
  studyStatusLabel stoppedWithCamera
  = "Not studying – user not detected or camera covered" /\
  ~ statusLabelClaim.
Proof.
  split; [apply stoppedWithCamera_run |].
  repeat (split; [reflexivity |]).
  intros Hclaim. specialize (Hclaim stoppedWithCamera). discriminate Hclaim.
Qed.

(** C4, amended. The label is a function of the state: "Studying" whenever
    the timer is active; the long label exactly when the camera is enabled and
    the latest sample is not Present, whether or not run is requested (the
    timer is then not active); "Not studying" in every other state. So with
    the camera enabled and run requested but the timer not active the label
    is the long one, and with the camera enabled and run not requested it is
    the long one unless the latest sample is Present. *)
Theorem studyStatusLabel_cases (c : Component) :
  (isTimerActive c = true -> studyStatusLabel c = "Studying") /\
  (studyStatusLabel c = "Studying" -> isTimerActive c = true) /\
  (studyStatusLabel c = "Not studying – user not detected or camera covered"
   <-> cameraEnabled c = true /\ latestSample c <> Present) /\
  (studyStatusLabel c = "Not studying"
   <-> isTimerActive c = false /\
       (cameraEnabled c = false \/ latestSample c = Present)) /\
  (cameraEnabled c = true -> isRunning c = true -> isTimerActive c = false ->
   studyStatusLabel c = "Not studying – user not detected or camera covered") /\
  (cameraEnabled c = true -> isRunning c = false ->
   studyStatusLabel c
   = if isPresent (latestSample c) then "Not studying"
     else "Not studying – user not detected or camera covered").
Proof.
  unfold studyStatusLabel, isTimerActive, isAutoPaused, latestSample.
  destruct (isRunning c), (cameraEnabled c), (isUserPresent c) as [[|]|]; simpl;
    repeat match goal with
      | |- _ /\ _ => split
      | |- _ <-> _ => split
      | |- _ -> _ => intros ?
      end;
    try reflexivity; try discriminate; try tauto;
    repeat match goal with
      | H : _ /\ _ |- _ => destruct H
      | H : _ \/ _ |- _ => destruct H
      end;
    try discriminate; try congruence; auto.
Qed.

Lemma studyStatusLabel_cases_witness :
  studyStatusLabel stoppedWithCamera
  = "Not studying – user not detected or camera covered".
Proof.
  apply (proj2 (proj1 (proj2 (proj2 (studyStatusLabel_cases stoppedWithCamera))))).
  split; [reflexivity | discriminate].
Defined.

(** *** The first render *)

(** C10. When the component is initialised, run is requested, the camera is
    disabled, no second has elapsed and the presence sample is Unknown; so
    the timer is active at once, and its first tick comes without any click:
    it counts from the mount, unconstrained. *)
Theorem timer_active_from_mount (onLine : bool) :
  isRunning (mount onLine) = true /\
  cameraEnabled (mount onLine) = false /\
  seconds (mount onLine) = 0%Z /\
  isUserPresent (mount onLine) = None /\
  latestSample (mount onLine) = Unknown /\
  isTimerActive (mount onLine) = true /\
  exists c', step SecondElapsed (mount onLine) = Some c' /\ seconds c' = 1%Z.
Proof.
  repeat (split; [reflexivity |]).
  eexists. split; reflexivity.
Qed.

(** *** One sample *)

(** A sample writes at most the classification. *)
Lemma checkPresence_cases isCancelled smp c c' :
  checkPresence isCancelled smp c = Normal c' ->
  c' = c \/ (isCancelled = false /\ exists p, c' = setIsUserPresent (Some p) c).
Proof.
  unfold checkPresence, tryCatch, analyse.
  destruct (negb (hasVideo smp) || negb (hasCtx smp)); [intros [= <-]; auto |].
  destruct (countFaces smp) as [n|e]; simpl.
  - destruct (frameReady smp); [| intros [= <-]; auto].
    destruct (drawn smp) as [data|e]; simpl;
      destruct isCancelled; simpl; intros [= <-]; eauto.
  - destruct isCancelled; simpl; intros [= <-]; eauto.
Qed.

(** Once the closure's variable [cancelled] is true, nothing is written. *)
Lemma checkPresence_cancelled smp c : checkPresence true smp c = Normal c.
Proof.
  destruct (checkPresence_settles true smp c) as [c' Hc'].
  rewrite Hc'. destruct (checkPresence_cases _ _ _ _ Hc') as [-> | [[=] _]].
  reflexivity.
Qed.

(** A sample that runs to its end writes the value of [present]. *)
Lemma checkPresence_completed
  (c : Component) (smp : Sample) (data : Luminance.ImageData)
  (faces : option (list DetectedFace)) :
  hasVideo smp = true -> hasCtx smp = true -> frameReady smp = true ->
  detector smp = Normal <$> faces -> drawn smp = Normal data ->
  checkPresence false smp c
  = Normal (setIsUserPresent
              (Some (present (Luminance.cameraCovered data)
                             (bool_decide (is_Some faces))
                             (default 0%nat (length <$> faces)))) c).
Proof.
  intros Hvideo Hctx Hready Hdet Hdrawn.
  unfold checkPresence, tryCatch, analyse, countFaces.
  rewrite Hvideo, Hctx, Hready, Hdet, Hdrawn.
  destruct faces as [fs|]; reflexivity.
Qed.

(** The value of [present] read through the decision table. *)
Lemma present_decisionTable (covered : bool) (faces : option (list DetectedFace)) :
  sampleOf (Some (present covered (bool_decide (is_Some faces))
                          (default 0%nat (length <$> faces))))
  = decisionTable covered (length <$> faces).
Proof.
  unfold present, decisionTable.
  destruct covered, faces as [[|f fs]|]; reflexivity.
Qed.

(** C2. For every completed presence sample (the frame is decodable, nothing
    throws, the loop is not cancelled) the classification follows the ordered
    decision table: Absent if the camera is covered; otherwise, with a face
    detector, Present if and only if it detected at least one face; otherwise,
    with no detector, Present. *)
Theorem checkPresence_decision_table
  (c : Component) (smp : Sample) (data : Luminance.ImageData)
  (faces : option (list DetectedFace)) :
  hasVideo smp = true -> hasCtx smp = true -> frameReady smp = true ->
  detector smp = Normal <$> faces -> drawn smp = Normal data ->
  exists c',
    checkPresence false smp c = Normal c' /\
    latestSample c' = decisionTable (Luminance.cameraCovered data) (length <$> faces) /\
    (latestSample c' = Present <->
     Luminance.cameraCovered data = false /\
     match faces with Some fs => (0 < length fs)%nat | None => True end).
Proof.
  intros Hvideo Hctx Hready Hdet Hdrawn.
  eexists. split; [now apply (checkPresence_completed c smp data faces) |].
  unfold latestSample. cbn [isUserPresent setIsUserPresent].
  rewrite present_decisionTable. split; [reflexivity |].
  unfold decisionTable.
  destruct (Luminance.cameraCovered data), faces as [[|f fs]|]; simpl;
    (split;
     [ intros H;
       first [discriminate H | split; [reflexivity | first [exact I | lia]]]
     | intros [Hcov Hfaces];
       first [discriminate Hcov | reflexivity | exfalso; lia] ]).
Qed.

Lemma checkPresence_decision_table_witness :
  exists c',
    checkPresence false texturedNoDetector watching = Normal c' /\
    latestSample c'
    = decisionTable (Luminance.cameraCovered Luminance.checkerboard)
        (length <$> @None (list DetectedFace)) /\
    (latestSample c' = Present <->
     Luminance.cameraCovered Luminance.checkerboard = false /\ True).
Proof.
  apply (checkPresence_decision_table watching texturedNoDetector
           Luminance.checkerboard None); reflexivity.
Defined.

(** C5, as stated, fails: the detector is asked before the frame is looked
    at, and when its promise rejects on the frame that is not decodable the
    handler of the [try] writes Absent over Unknown. *)
Lemma checkPresence_not_ready_detector_rejects :
  frameReady notReadyDetectorRejects = false /\
  latestSample watching = Unknown /\
  step (SampleSettles 0 notReadyDetectorRejects) watching
  = Some (setIsUserPresent (Some false) watching) /\
  latestSample (setIsUserPresent (Some false) watching) = Absent /\
  ~ notReadyClaim.
Proof.
  assert (Hstep : step (SampleSettles 0 notReadyDetectorRejects) watching
                  = Some (setIsUserPresent (Some false) watching))
    by (vm_compute; reflexivity).
  repeat (split; [first [reflexivity | exact Hstep] |]).
  intros Hclaim.
  specialize (Hclaim 0%nat notReadyDetectorRejects watching _ eq_refl Hstep).
  discriminate Hclaim.
Qed.

(** C5, amended. On a sampling tick whose frame is not decodable (ready
    state below 2, or no width, or no height), provided the face detector, if
    there is one, does not throw, the luminance analysis is skipped (what the
    canvas would give is not looked at) and the component, its classification
    included, is left as it was; a detector that is there and returns is no
    reason to write Absent. *)
Theorem checkPresence_not_ready (isCancelled : bool) (smp : Sample) (c : Component) :
  frameReady smp = false ->
  (forall e, detector smp <> Some (Throw e)) ->
  checkPresence isCancelled smp c = Normal c /\
  (forall k c', step (SampleSettles k smp) c = Some c' ->
                isUserPresent c' = isUserPresent c /\ latestSample c' = latestSample c).
Proof.
  intros Hready Hdet.
  assert (Hcheck : forall b, checkPresence b smp c = Normal c).
  { intros b. unfold checkPresence, tryCatch, analyse, countFaces.
    destruct (negb (hasVideo smp) || negb (hasCtx smp)); [reflexivity |].
    rewrite Hready.
    destruct (detector smp) as [[fs|e]|]; simpl; try reflexivity.
    now destruct (Hdet e). }
  split; [apply Hcheck |].
  intros k c'. unfold step, handle, latestSample.
  case_bool_decide; [| discriminate]. rewrite Hcheck. simpl.
  intros [= <-].
  destruct (mounted c); [| auto].
  destruct (commit_state c c) as (_ & _ & _ & _ & -> & _). auto.
Qed.

Lemma checkPresence_not_ready_witness :
  checkPresence false notReadyDetectorQuiet watching = Normal watching /\
  (forall k c', step (SampleSettles k notReadyDetectorQuiet) watching = Some c' ->
                isUserPresent c' = isUserPresent watching /\
                latestSample c' = latestSample watching).
Proof.
  apply (checkPresence_not_ready false notReadyDetectorQuiet watching).
  - reflexivity.
  - intros e. discriminate.
Defined.

(** *** Elapsed seconds *)

Lemma handleEnableCamera_seconds m c : seconds (handleEnableCamera m c) = seconds c.
Proof. destruct m; reflexivity. Qed.

(** The stop path, field by field. *)
Lemma stopTimerAndCamera_fields c :
  stopTimerAndCamera c =
  {| seconds := seconds c; isRunning := false; isOnline := isOnline c;
     cameraEnabled := false; isUserPresent := None; cameraError := cameraError c;
     videoRef := (fun _ => {| srcObject := None |}) <$> videoRef c;
     streamRef := None;
     live := match streamRef c with
             | Some stream => stopTracks stream (live c)
             | None => live c
             end;
     sampler := sampler c; cancelled := cancelled c; closures := closures c;
     mounted := mounted c; pending := pending c |}.
Proof.
  unfold stopTimerAndCamera.
  destruct c as [? ? ? ? ? ? [v|] [stream|] ? ? ? ? ? ?]; reflexivity.
Qed.

Lemma stopTimerAndCamera_seconds c : seconds (stopTimerAndCamera c) = seconds c.
Proof. now rewrite stopTimerAndCamera_fields. Qed.

Lemma handleToggle_seconds m c : seconds (handleToggle m c) = seconds c.
Proof.
  unfold handleToggle. destruct (negb (isRunning c)).
  - destruct (negb (cameraEnabled c)); simpl; auto using handleEnableCamera_seconds.
  - apply stopTimerAndCamera_seconds.
Qed.

Lemma unmount_seconds c : seconds (unmount c) = seconds c.
Proof.
  effects. destruct (sampler c); simpl; destruct (streamRef c); reflexivity.
Qed.

Lemma resume_seconds w a c : seconds (resume w a c) = seconds c.
Proof. unfold resume. destruct (mounted c), w, a; reflexivity. Qed.

(** What a handler does to the seconds: the tick adds one, the reset writes
    zero, every other handler leaves them. *)
Lemma handle_seconds e c c' :
  handle e c = Some c' ->
  seconds c' = match e with
               | SecondElapsed => (seconds c + 1)%Z
               | ClickReset => 0%Z
               | _ => seconds c
               end.
Proof.
  destruct e; simpl; repeat case_match; intros [= <-];
    rewrite ?resume_seconds;
    auto using handleEnableCamera_seconds, handleToggle_seconds, unmount_seconds.
  match goal with
  | H : checkPresence _ _ _ = Normal _ |- _ =>
      destruct (checkPresence_cases _ _ _ _ H) as [-> | [_ [p ->]]]; reflexivity
  end.
Qed.

Lemma step_handle e c c' :
  step e c = Some c' ->
  exists c1, handle e c = Some c1 /\ stateOf c' = stateOf c1.
Proof.
  unfold step. destruct (handle e c) as [c1|]; [| discriminate]. simpl.
  intros [= <-]. exists c1. split; [reflexivity |].
  destruct (mounted c1); [apply commit_stateOf | reflexivity].
Qed.

Lemma step_seconds e c c' :
  step e c = Some c' ->
  seconds c' = match e with
               | SecondElapsed => (seconds c + 1)%Z
               | ClickReset => 0%Z
               | _ => seconds c
               end.
Proof.
  intros (c1 & Hhandle & Hstate)%step_handle.
  rewrite <- (handle_seconds _ _ _ Hhandle).
  unfold stateOf in Hstate. now injection Hstate.
Qed.

(** C6. The elapsed seconds never decrease under any operation but the
    reset. A tick of the timer comes only while the timer is active, it comes
    whenever the timer is active, and it adds exactly one. The reset can be
    called in any state, sets the seconds to exactly zero whatever they were,
    and changes nothing else: not the run state, the camera state, the
    classification, the error string. *)
Theorem seconds_never_decrease (c : Component) :
  (forall e c', step e c = Some c' -> e <> ClickReset ->
                (seconds c <= seconds c')%Z) /\
  (forall c', step SecondElapsed c = Some c' ->
              isTimerActive c = true /\ seconds c' = (seconds c + 1)%Z) /\
  (mounted c = true -> isTimerActive c = true ->
   exists c', step SecondElapsed c = Some c' /\ seconds c' = (seconds c + 1)%Z) /\
  (forall c', step ClickReset c = Some c' ->
              seconds c' = 0%Z /\ sameButSeconds c c') /\
  (mounted c = true -> exists c', step ClickReset c = Some c' /\ seconds c' = 0%Z).
Proof.
  split; [| split; [| split; [| split]]].
  - intros e c' Hstep Hreset. rewrite (step_seconds _ _ _ Hstep).
    destruct e; try lia. now destruct Hreset.
  - intros c' Hstep. split; [| apply (step_seconds _ _ _ Hstep)].
    unfold step, handle in Hstep.
    destruct (mounted c), (isTimerActive c); try discriminate. reflexivity.
  - intros Hmounted Hactive. unfold step, handle. rewrite Hmounted, Hactive. simpl.
    eexists. split; [reflexivity |].
    rewrite Hmounted. now destruct (commit_state c (secondTick c)) as [-> _].
  - intros c' Hstep. split; [apply (step_seconds _ _ _ Hstep) |].
    unfold step, handle in Hstep.
    destruct (mounted c) eqn:Hmounted; [| discriminate]. simpl in Hstep.
    rewrite Hmounted in Hstep. injection Hstep as <-.
    destruct (commit_state c (handleReset c)) as (_ & ? & ? & ? & ? & ? & ? & ? & ?).
    destruct (commit_sampling c (handleReset c)) as (? & ? & ?); [reflexivity .. |].
    pose proof (commit_pending c (handleReset c)).
    unfold sameButSeconds. repeat split; assumption.
  - intros Hmounted. unfold step, handle. rewrite Hmounted. simpl.
    eexists. split; [reflexivity |].
    rewrite Hmounted. now destruct (commit_state c (handleReset c)) as [-> _].
Qed.

Lemma seconds_never_decrease_witness :
  exists c', step SecondElapsed (mount true) = Some c' /\
             seconds c' = (seconds (mount true) + 1)%Z.
Proof.
  apply (proj1 (proj2 (proj2 (seconds_never_decrease (mount true)))));
    reflexivity.
Defined.

(** *** Stopping *)

Lemma stopTimerAndCamera_idempotent c :
  stopTimerAndCamera (stopTimerAndCamera c) = stopTimerAndCamera c.
Proof.
  rewrite (stopTimerAndCamera_fields (stopTimerAndCamera c)).
  rewrite stopTimerAndCamera_fields. simpl.
  destruct (videoRef c); reflexivity.
Qed.

(** C7. Pressing the toggle while the timer runs takes back the request to
    run, stops every track of the stream the component holds, detaches the
    stream from the video element, marks the camera disabled and clears the
    latest sample to Unknown. With no stream left, going down the stop path
    again, or running the clean-up that releases the camera, changes
    nothing. *)
Theorem handleToggle_stops (m : UserMedia) (c : Component) :
  isRunning c = true ->
  exists c',
    handleToggle m c = c' /\
    isRunning c' = false /\
    (forall stream t, streamRef c = Some stream -> t ∈ stream -> t ∉ live c') /\
    streamRef c' = None /\
    (forall v, videoRef c' = Some v -> srcObject v = None) /\
    cameraEnabled c' = false /\
    isUserPresent c' = None /\ latestSample c' = Unknown /\
    stopTimerAndCamera c' = c' /\
    streamCleanup c' = c' /\
    (mounted c = true ->
     exists c'', step (ClickToggle m) c = Some c'' /\ stateOf c'' = stateOf c' /\
                 videoRef c'' = None).
Proof.
  intros Hrun. exists (stopTimerAndCamera c).
  assert (Htoggle : handleToggle m c = stopTimerAndCamera c)
    by (unfold handleToggle; now rewrite Hrun).
  split; [exact Htoggle |].
  split; [now rewrite stopTimerAndCamera_fields |].
  split.
  { intros stream t Hstream Ht. rewrite stopTimerAndCamera_fields. simpl.
    rewrite Hstream, stopTracks_difference.
    intros [_ Hnot]%elem_of_difference. apply Hnot.
    now apply elem_of_list_to_set. }
  split; [now rewrite stopTimerAndCamera_fields |].
  split.
  { intros v. rewrite stopTimerAndCamera_fields. simpl.
    destruct (videoRef c); simpl; intros [= <-]; reflexivity. }
  split; [now rewrite stopTimerAndCamera_fields |].
  split; [now rewrite stopTimerAndCamera_fields |].
  split; [unfold latestSample; now rewrite stopTimerAndCamera_fields |].
  split; [apply stopTimerAndCamera_idempotent |].
  split; [now rewrite stopTimerAndCamera_fields |].
  intros Hmounted.
  assert (Hm : mounted (stopTimerAndCamera c) = true)
    by now rewrite stopTimerAndCamera_fields.
  exists (commit c (stopTimerAndCamera c)).
  split; [| split; [apply commit_stateOf |]].
  - unfold step, handle. rewrite Hmounted, Htoggle. cbn [mbind option_bind].
    now rewrite Hm.
  - apply commit_videoRef_disabled. now rewrite stopTimerAndCamera_fields.
Qed.

Lemma handleToggle_stops_witness :
  exists c',
    step (ClickToggle oneTrack) watching = Some c' /\
    isRunning c' = false /\ cameraEnabled c' = false /\ live c' = ∅ /\
    videoRef c' = None.
Proof.
  destruct (handleToggle_stops oneTrack watching eq_refl)
    as (c' & _ & _ & _ & _ & _ & _ & _ & _ & _ & _ & Hstep).
  destruct (Hstep eq_refl) as (c'' & Hc'' & _ & _).
  exists c''. split; [exact Hc'' |].
  vm_compute in Hc''. injection Hc'' as <-. repeat split; reflexivity.
Defined.

(** *** The invariant *)

(** Every handler but the unmount leaves the sampling effect alone. *)
Lemma resume_sampling w a c :
  samplingOf (resume w a c) = samplingOf c /\ mounted (resume w a c) = mounted c.
Proof. unfold resume. destruct (mounted c) eqn:Hm, w, a; split; auto. Qed.

Lemma handle_sampling e c c1 :
  handle e c = Some c1 -> e <> Unmount ->
  samplingOf c1 = samplingOf c /\ mounted c1 = mounted c.
Proof.
  destruct e as [onLine|m|m| | |k smp| | | |i a]; unfold handle; intros Hhandle Hne.
  - destruct (mounted c) eqn:Hm; [| discriminate]. injection Hhandle as <-.
    split; unfold samplingOf; simpl; congruence.
  - destruct (mounted c && negb (cameraEnabled c)); [| discriminate].
    injection Hhandle as <-. destruct m; split; unfold samplingOf; simpl; congruence.
  - destruct (mounted c) eqn:Hm; [| discriminate]. injection Hhandle as <-.
    unfold handleToggle. destruct (negb (isRunning c)).
    + destruct (negb (cameraEnabled c)); [destruct m |]; split; unfold samplingOf; simpl; congruence.
    + rewrite stopTimerAndCamera_fields. split; unfold samplingOf; simpl; congruence.
  - destruct (mounted c) eqn:Hm; [| discriminate]. injection Hhandle as <-.
    split; unfold samplingOf; simpl; congruence.
  - destruct (mounted c && isTimerActive c); [| discriminate].
    injection Hhandle as <-. split; unfold samplingOf; simpl; congruence.
  - case_bool_decide; [| discriminate].
    destruct (checkPresence _ smp c) as [c2|err] eqn:Hcheck;
      injection Hhandle as <-; [| split; unfold samplingOf; simpl; congruence].
    destruct (checkPresence_cases _ _ _ _ Hcheck) as [-> | [_ [p ->]]]; split; unfold samplingOf; simpl; congruence.
  - now destruct Hne.
  - destruct (mounted c && negb (cameraEnabled c)); [| discriminate].
    injection Hhandle as <-. split; reflexivity.
  - destruct (mounted c && negb (isRunning c) && negb (cameraEnabled c));
      [| discriminate].
    injection Hhandle as <-. split; reflexivity.
  - destruct (pending c !! i) as [w|]; [| discriminate]. injection Hhandle as <-.
    destruct (resume_sampling w a (setPending (delete i (pending c)) c)) as [-> ->].
    split; reflexivity.
Qed.

(** The clean-up of the sampling effect followed by its body. *)
Lemma samplingEffect_after_cleanup c :
  (cameraEnabled c = true -> is_Some (videoRef c)) ->
  samplingOf (samplingEffect (samplingCleanup c)) =
  let k' := match sampler c with
            | Some k => cancelled c ∪ {[k]}
            | None => cancelled c
            end in
  if cameraEnabled c && isRunning c
  then (Some (closures c), k', S (closures c))
  else (None, k', closures c).
Proof.
  destruct c as [? run ? cam ? ? video ? ? sam ? ? ? ?]. simpl. intros Hvideo.
  unfold samplingEffect, samplingCleanup, samplingOf.
  destruct sam as [k|], cam, run; simpl; try reflexivity;
    (destruct Hvideo as [v ->]; [reflexivity |]); reflexivity.
Qed.

(** What the commit does to the sampling effect. *)
Lemma commit_samplingOf old c :
  samplingOf (commit old c) =
  if bool_decide (cameraEnabled old = cameraEnabled c /\ isRunning old = isRunning c)
  then samplingOf c
  else
    let k' := match sampler c with
              | Some k => cancelled c ∪ {[k]}
              | None => cancelled c
              end in
    if cameraEnabled c && isRunning c
    then (Some (closures c), k', S (closures c))
    else (None, k', closures c).
Proof.
  unfold commit.
  assert (Hrender : samplingOf (render c) = samplingOf c)
    by (unfold render; repeat case_match; reflexivity).
  assert (Hattach : forall d, samplingOf (attachStream d) = samplingOf d)
    by (intros d; unfold attachStream; repeat case_match; reflexivity).
  set (c2 := if bool_decide (cameraEnabled old = cameraEnabled c)
             then render c else attachStream (render c)).
  assert (Hc2 : samplingOf c2 = samplingOf c)
    by (unfold c2; case_bool_decide; rewrite ?Hattach; exact Hrender).
  assert (Hs2 : stateOf c2 = stateOf c)
    by (unfold c2; case_bool_decide; rewrite ?attachStream_state;
        apply render_state).
  assert (Hv2 : cameraEnabled c = true -> is_Some (videoRef c2)).
  { intros Hcam. unfold c2.
    case_bool_decide; [| apply attachStream_videoRef];
      now apply render_videoRef. }
  clearbody c2.
  unfold samplingOf in Hc2. injection Hc2 as Hsam Hcan Hclo.
  unfold stateOf in Hs2. injection Hs2 as _ Hrun _ Hcam _ _ _ _ _.
  case_bool_decide as Hdeps.
  - unfold samplingOf. congruence.
  - rewrite samplingEffect_after_cleanup by (rewrite Hcam; exact Hv2).
    cbv zeta. now rewrite Hsam, Hcan, Hclo, Hcam, Hrun.
Qed.

(** The unmount, field by field. *)
Lemma unmount_fields c :
  unmount c =
  {| seconds := seconds c; isRunning := isRunning c; isOnline := isOnline c;
     cameraEnabled := cameraEnabled c; isUserPresent := isUserPresent c;
     cameraError := cameraError c; videoRef := None; streamRef := streamRef c;
     live := match streamRef c with
             | Some stream => stopTracks stream (live c)
             | None => live c
             end;
     sampler := None;
     cancelled := match sampler c with
                  | Some k => cancelled c ∪ {[k]}
                  | None => cancelled c
                  end;
     closures := closures c; mounted := false; pending := pending c |}.
Proof.
  effects. destruct c as [? ? ? ? ? ? ? [stream|] ? [k|] ? ? ? ?]; reflexivity.
Qed.

Lemma handleEnableCamera_tracks m c :
  tracksHeld c -> tracksHeld (handleEnableCamera m c).
Proof.
  intros [Hlive Hstream]. destruct m as [|stream|err]; [now split | | now split].
  split; cbn; [| discriminate].
  intros _ t Ht. apply elem_of_union. now right.
Qed.

Lemma setIsRunning_tracks b c : tracksHeld c -> tracksHeld (setIsRunning b c).
Proof. now intros [Hlive Hstream]. Qed.

Lemma resume_tracks w a c : tracksHeld c -> tracksHeld (resume w a c).
Proof.
  intros Hheld. unfold resume. destruct (mounted c) eqn:Hm.
  - destruct w; [| apply setIsRunning_tracks]; now apply handleEnableCamera_tracks.
  - destruct a; [| exact Hheld].
    split; cbn; rewrite Hm; discriminate.
Qed.

Lemma handle_tracks e c c1 :
  handle e c = Some c1 -> tracksHeld c -> tracksHeld c1.
Proof.
  destruct e as [onLine|m|m| | |k smp| | | |i a]; unfold handle; intros Hhandle Hheld.
  - destruct (mounted c); [| discriminate]. now injection Hhandle as <-.
  - destruct (mounted c && negb (cameraEnabled c)); [| discriminate].
    injection Hhandle as <-. now apply handleEnableCamera_tracks.
  - destruct (mounted c) eqn:Hm; [| discriminate]. injection Hhandle as <-.
    unfold handleToggle. destruct (isRunning c); simpl.
    + rewrite stopTimerAndCamera_fields. split; cbn; [| reflexivity].
      intros _ t []%elem_of_empty.
    + apply setIsRunning_tracks.
      destruct (cameraEnabled c); simpl; [exact Hheld |].
      now apply handleEnableCamera_tracks.
  - destruct (mounted c); [| discriminate]. now injection Hhandle as <-.
  - destruct (mounted c && isTimerActive c); [| discriminate].
    now injection Hhandle as <-.
  - case_bool_decide; [| discriminate].
    destruct (checkPresence _ smp c) as [c2|err] eqn:Hcheck;
      injection Hhandle as <-; [| exact Hheld].
    now destruct (checkPresence_cases _ _ _ _ Hcheck) as [-> | [_ [p ->]]].
  - destruct (mounted c); [| discriminate]. injection Hhandle as <-.
    rewrite unmount_fields. split; cbn; discriminate.
  - destruct (mounted c && negb (cameraEnabled c)); [| discriminate].
    now injection Hhandle as <-.
  - destruct (mounted c && negb (isRunning c) && negb (cameraEnabled c));
      [| discriminate].
    now injection Hhandle as <-.
  - destruct (pending c !! i) as [w|]; [| discriminate]. injection Hhandle as <-.
    apply resume_tracks. exact Hheld.
Qed.

Lemma cancelled_after_cleanup c k :
  (forall k, k ∈ cancelled c -> k < closures c) ->
  (forall k, sampler c = Some k -> k < closures c /\ k ∉ cancelled c) ->
  k ∈ match sampler c with
      | Some k0 => cancelled c ∪ {[k0]}
      | None => cancelled c
      end ->
  k < closures c.
Proof.
  intros Hcan Hsam. destruct (sampler c) as [k0|]; [| apply Hcan].
  intros [Hk | ->%elem_of_singleton]%elem_of_union; [now apply Hcan |].
  now apply Hsam.
Qed.

Lemma step_samplingHeld e c c' :
  samplingHeld c -> step e c = Some c' -> samplingHeld c'.
Proof.
  intros (Hcan & Hsam & Hun & Hon) Hstep. unfold step in Hstep.
  destruct (handle e c) as [c1|] eqn:Hhandle; [| discriminate].
  simpl in Hstep. injection Hstep as <-.
  assert (Hcase : e = Unmount \/ e <> Unmount)
    by (destruct e; auto; right; discriminate).
  destruct Hcase as [-> | Hne].
  - simpl in Hhandle. destruct (mounted c); [| discriminate].
    injection Hhandle as <-. rewrite unmount_fields.
    unfold samplingHeld. simpl. refine (conj _ (conj _ (conj _ _))).
    + intros k. now apply cancelled_after_cleanup.
    + intros; discriminate.
    + reflexivity.
    + intros; discriminate.
  - destruct (handle_sampling _ _ _ Hhandle Hne) as [Hsampling Hmounted].
    unfold samplingOf in Hsampling. injection Hsampling as Hs1 Hk1 Hn1.
    destruct (mounted c1) eqn:Hm1.
    + pose proof (commit_samplingOf c c1) as Hcommit.
      pose proof (commit_stateOf c c1) as Hstate.
      unfold stateOf in Hstate. injection Hstate as _ Hrun _ Hcam _ _ _ _ Hm.
      symmetry in Hmounted. specialize (Hon Hmounted).
      unfold samplingHeld. rewrite Hm, Hcam, Hrun, Hm1.
      case_bool_decide as Hdeps.
      * unfold samplingOf in Hcommit. injection Hcommit as -> -> ->.
        rewrite Hs1, Hk1, Hn1. destruct Hdeps as [<- <-].
        refine (conj Hcan (conj Hsam (conj _ _))); [intros; discriminate | auto].
      * cbv zeta in Hcommit. rewrite Hs1, Hk1, Hn1 in Hcommit.
        pose proof (cancelled_after_cleanup c) as Hclean.
        destruct (cameraEnabled c1 && isRunning c1) eqn:Hboth;
          unfold samplingOf in Hcommit; injection Hcommit as -> -> ->.
        -- apply andb_true_iff in Hboth as [-> ->].
           refine (conj _ (conj _ (conj _ _))).
           ++ intros k Hk. apply Nat.lt_lt_succ_r. eauto.
           ++ intros k [= <-]. split; [lia |].
              intros Hk. apply (Hclean _ Hcan Hsam) in Hk. lia.
           ++ intros; discriminate.
           ++ intros _. split; eauto.
        -- refine (conj _ (conj _ (conj _ _))).
           ++ intros k Hk. eauto.
           ++ intros; discriminate.
           ++ intros; discriminate.
           ++ intros _. split; [intros [k [=]] |].
              intros [Hc Hr]. rewrite Hc, Hr in Hboth. discriminate.
    + symmetry in Hmounted.
      unfold samplingHeld. rewrite Hs1, Hk1, Hn1, Hm1.
      refine (conj Hcan (conj Hsam (conj _ _))); [auto | intros; discriminate].
Qed.

Lemma step_invariant e c c' : invariant c -> step e c = Some c' -> invariant c'.
Proof.
  intros [Htracks Hsampling] Hstep.
  split; [| eapply step_samplingHeld; eauto].
  unfold step in Hstep. destruct (handle e c) as [c1|] eqn:Hhandle; [| discriminate].
  simpl in Hstep. injection Hstep as <-.
  apply (handle_tracks _ _ _ Hhandle) in Htracks.
  destruct (mounted c1); [| exact Htracks].
  pose proof (commit_stateOf c c1) as Hstate.
  unfold stateOf in Hstate. injection Hstate as _ _ _ Hcam _ _ Hstream Hlive Hm.
  unfold tracksHeld. now rewrite Hcam, Hstream, Hlive, Hm.
Qed.

Lemma mount_invariant onLine : invariant (mount onLine).
Proof.
  split.
  - split; simpl; [intros _ t []%elem_of_empty | reflexivity].
  - unfold samplingHeld. simpl. refine (conj _ (conj _ (conj _ _))).
    + intros k []%elem_of_empty.
    + intros; discriminate.
    + reflexivity.
    + intros _. split; [intros [k [=]] | intros [[=] _]].
Qed.

Lemma reachable_invariant c : reachable c -> invariant c.
Proof.
  induction 1 as [onLine | e c c' _ IH Hstep].
  - apply mount_invariant.
  - eapply step_invariant; eauto.
Qed.

(** *** The sampling loop *)

(** A settling sample of a closure that exists is always handled; it writes
    what [checkPresence] writes and leaves the sampling effect alone. *)
Lemma step_sample c k smp c1 :
  k < closures c ->
  checkPresence (bool_decide (k ∈ cancelled c)) smp c = Normal c1 ->
  exists c', step (SampleSettles k smp) c = Some c' /\
             stateOf c' = stateOf c1 /\ samplingOf c' = samplingOf c.
Proof.
  intros Hk Hcheck. unfold step, handle.
  rewrite bool_decide_eq_true_2 by exact Hk. rewrite Hcheck.
  cbn [mbind option_bind].
  assert (Hsame : cameraEnabled c = cameraEnabled c1 /\ isRunning c = isRunning c1 /\
                  samplingOf c1 = samplingOf c)
    by (destruct (checkPresence_cases _ _ _ _ Hcheck) as [-> | [_ [p ->]]];
        repeat split; reflexivity).
  destruct Hsame as (Hcam & Hrun & Hsampling).
  destruct (mounted c1); eexists; (split; [reflexivity |]).
  - split; [apply commit_stateOf |].
    rewrite commit_samplingOf, bool_decide_eq_true_2 by auto. exact Hsampling.
  - split; [reflexivity | exact Hsampling].
Qed.

(** An exception in the body of the [try] ends in the handler's Absent. *)
Lemma checkPresence_throws smp c e :
  hasVideo smp = true -> hasCtx smp = true ->
  (detector smp = Some (Throw e) \/ (frameReady smp = true /\ drawn smp = Throw e)) ->
  checkPresence false smp c = Normal (setIsUserPresent (Some false) c).
Proof.
  intros Hvideo Hctx Hthrows.
  unfold checkPresence, tryCatch, analyse, countFaces. rewrite Hvideo, Hctx.
  destruct Hthrows as [-> | [-> ->]]; [reflexivity |].
  destruct (detector smp) as [[fs|e']|]; reflexivity.
Qed.

(** C8. When an exception occurs during a sample of the installed loop, be it
    the face detector that fails or the frame that cannot be drawn or read,
    the classification of that cycle is Absent, the promise of the sampler is
    fulfilled all the same, and the loop stays installed with its closure not
    cancelled: every later sample is handled, and one that completes sets the
    classification by the decision table. *)
Theorem failed_sample_is_absent
  (c : Component) (k : nat) (smp : Sample) (e : string) :
  reachable c -> sampler c = Some k ->
  hasVideo smp = true -> hasCtx smp = true ->
  (detector smp = Some (Throw e) \/ (frameReady smp = true /\ drawn smp = Throw e)) ->
  exists c',
    checkPresence false smp c = Normal (setIsUserPresent (Some false) c) /\
    step (SampleSettles k smp) c = Some c' /\
    latestSample c' = Absent /\
    sampler c' = Some k /\ (k ∉ cancelled c') /\ mounted c' = true /\
    (forall smp', exists c'', step (SampleSettles k smp') c' = Some c'') /\
    (forall smp' data faces,
       hasVideo smp' = true -> hasCtx smp' = true -> frameReady smp' = true ->
       detector smp' = Normal <$> faces -> drawn smp' = Normal data ->
       exists c'',
         step (SampleSettles k smp') c' = Some c'' /\
         latestSample c''
         = decisionTable (Luminance.cameraCovered data) (length <$> faces)).
Proof.
  intros Hreach Hsampler Hvideo Hctx Hthrows.
  pose proof (reachable_invariant _ Hreach) as [_ (Hcan & Hsam & Hun & _)].
  destruct (Hsam _ Hsampler) as [Hk Hlive].
  pose proof (checkPresence_throws smp c e Hvideo Hctx Hthrows) as Hcheck.
  destruct (step_sample c k smp (setIsUserPresent (Some false) c) Hk)
    as (c' & Hstep & Hstate & Hsampling).
  { now rewrite bool_decide_eq_false_2. }
  assert (Hreach' : reachable c') by (eapply reachable_step; eauto).
  pose proof (reachable_invariant _ Hreach') as [_ (Hcan' & Hsam' & Hun' & _)].
  unfold samplingOf in Hsampling. injection Hsampling as Hs Hc Hn.
  unfold stateOf in Hstate. injection Hstate as _ _ _ _ Hpresent _ _ _ _.
  assert (Hsampler' : sampler c' = Some k) by congruence.
  destruct (Hsam' _ Hsampler') as [Hk' Hlive'].
  exists c'. split; [exact Hcheck |]. split; [exact Hstep |].
  split; [unfold latestSample; now rewrite Hpresent |].
  split; [exact Hsampler' |]. split; [exact Hlive' |].
  split.
  { destruct (mounted c') eqn:Hm; [reflexivity |].
    rewrite (Hun' eq_refl) in Hsampler'. discriminate. }
  split.
  - intros smp'.
    destruct (checkPresence_settles (bool_decide (k ∈ cancelled c')) smp' c')
      as [c1 Hc1].
    destruct (step_sample c' k smp' c1 Hk' Hc1) as (c'' & Hstep' & _). eauto.
  - intros smp' data faces Hv' Hx' Hr' Hd' Hw'.
    pose proof (checkPresence_completed c' smp' data faces Hv' Hx' Hr' Hd' Hw')
      as Hdone.
    rewrite <- (bool_decide_eq_false_2 (k ∈ cancelled c') Hlive') in Hdone.
    destruct (step_sample c' k smp' _ Hk' Hdone) as (c'' & Hstep' & Hstate' & _).
    exists c''. split; [exact Hstep' |].
    unfold stateOf in Hstate'. injection Hstate' as _ _ _ _ Hpresent' _ _ _ _.
    unfold latestSample. rewrite Hpresent'. apply present_decisionTable.
Qed.

Lemma failed_sample_is_absent_witness :
  exists c',
    step (SampleSettles 0 unreadableFrame) watching = Some c' /\
    latestSample c' = Absent /\ sampler c' = Some 0%nat.
Proof.
  destruct (failed_sample_is_absent watching 0 unreadableFrame "SecurityError"
              watching_reachable eq_refl eq_refl eq_refl
              (or_intror (conj eq_refl eq_refl)))
    as (c' & _ & Hstep & Habsent & Hsampler & _).
  exists c'. auto.
Defined.

(** *** Teardown *)

(** The variable [cancelled] of a closure is only ever set. *)
Lemma step_cancelled e c c' : step e c = Some c' -> cancelled c ⊆ cancelled c'.
Proof.
  unfold step. destruct (handle e c) as [c1|] eqn:Hhandle; [| discriminate].
  simpl. intros [= <-].
  assert (Hcase : e = Unmount \/ e <> Unmount)
    by (destruct e; auto; right; discriminate).
  destruct Hcase as [-> | Hne].
  - simpl in Hhandle. destruct (mounted c); [| discriminate].
    injection Hhandle as <-. rewrite unmount_fields. simpl.
    destruct (sampler c); intros k Hk; [apply elem_of_union |]; auto.
  - destruct (handle_sampling _ _ _ Hhandle Hne) as [Hsampling _].
    unfold samplingOf in Hsampling. injection Hsampling as _ Hk1 _.
    destruct (mounted c1); [| now rewrite Hk1].
    pose proof (commit_samplingOf c c1) as Hcommit.
    case_bool_decide; [| cbv zeta in Hcommit;
                         destruct (cameraEnabled c1 && isRunning c1)];
      unfold samplingOf in Hcommit; injection Hcommit as _ -> _;
      rewrite ?Hk1; try reflexivity;
      (destruct (sampler c1); intros k Hk; [apply elem_of_union |]; auto).
Qed.

Lemma run_cancelled es : forall c c',
  run es c = Some c' -> cancelled c ⊆ cancelled c'.
Proof.
  induction es as [|e es IH]; intros c c'; simpl.
  - now intros [= <-].
  - destruct (step e c) as [c1|] eqn:Hstep; [| discriminate]. simpl.
    intros Hrun k Hk. eapply IH; [exact Hrun |].
    eapply step_cancelled; eauto.
Qed.

(** A sample of a cancelled closure that settles changes no state variable. *)
Lemma step_sample_cancelled c k smp c' :
  k ∈ cancelled c -> step (SampleSettles k smp) c = Some c' ->
  stateOf c' = stateOf c.
Proof.
  intros Hk. unfold step, handle.
  case_bool_decide; [| discriminate].
  rewrite bool_decide_eq_true_2 by exact Hk.
  rewrite checkPresence_cancelled. cbn [mbind option_bind].
  intros [= <-]. destruct (mounted c); [apply commit_stateOf | reflexivity].
Qed.

(** The events that leave [cameraEnabled] and [isRunning] as they are. *)
Lemma handle_quiet e c c1 :
  handle e c = Some c1 ->
  match e with
  | Connectivity _ | ClickReset | SecondElapsed | SampleSettles _ _
  | ClickEnableCameraPending | ClickTogglePending =>
      cameraEnabled c1 = cameraEnabled c /\ isRunning c1 = isRunning c
  | _ => True
  end.
Proof.
  destruct e as [onLine|m|m| | |k smp| | | |i a]; unfold handle; intros Hhandle;
    try exact I.
  - destruct (mounted c); [| discriminate]. now injection Hhandle as <-.
  - destruct (mounted c); [| discriminate]. now injection Hhandle as <-.
  - destruct (mounted c && isTimerActive c); [| discriminate].
    now injection Hhandle as <-.
  - case_bool_decide; [| discriminate].
    destruct (checkPresence _ smp c) as [c2|err] eqn:Hcheck;
      injection Hhandle as <-; [| now split].
    now destruct (checkPresence_cases _ _ _ _ Hcheck) as [-> | [_ [p ->]]].
  - destruct (mounted c && negb (cameraEnabled c)); [| discriminate].
    now injection Hhandle as <-.
  - destruct (mounted c && negb (isRunning c) && negb (cameraEnabled c));
      [| discriminate].
    now injection Hhandle as <-.
Qed.

(** An answer of [getUserMedia] never takes the camera or the request to
    run away. *)
Lemma resume_keeps w a c :
  (cameraEnabled c = true -> cameraEnabled (resume w a c) = true) /\
  (isRunning c = true -> isRunning (resume w a c) = true).
Proof. unfold resume. destruct (mounted c), w, a; split; auto. Qed.

Lemma stopTimerAndCamera_sampling c :
  cameraEnabled (stopTimerAndCamera c) = false /\
  isRunning (stopTimerAndCamera c) = false /\
  mounted (stopTimerAndCamera c) = mounted c /\
  sampler (stopTimerAndCamera c) = sampler c /\
  cancelled (stopTimerAndCamera c) = cancelled c /\
  closures (stopTimerAndCamera c) = closures c.
Proof. rewrite stopTimerAndCamera_fields. repeat split; reflexivity. Qed.

(** The tracks left after the stop path or the unmount: none of the stream
    the component held, and none at all if no other track ran. *)
Lemma released_tracks c (l : gset MediaStreamTrack) :
  l = match streamRef c with
      | Some stream => stopTracks stream (live c)
      | None => live c
      end ->
  (forall stream t, streamRef c = Some stream -> t ∈ stream -> t ∉ l) /\
  (mounted c = true -> noLeak c -> l = ∅).
Proof.
  intros ->. split.
  - intros stream t -> Ht. rewrite stopTracks_difference.
    intros [_ Hnot]%elem_of_difference. apply Hnot. now apply elem_of_list_to_set.
  - unfold noLeak. intros -> ->.
    destruct (streamRef c) as [stream|]; [| reflexivity].
    rewrite stopTracks_difference. apply difference_diag_L.
Qed.

(** A step leaves the installed sampler installed, or it is a stop or an
    unmount: then the closure is cancelled and every track of the stream the
    component held is stopped. *)
Lemma step_teardown e c c' k :
  samplingHeld c -> step e c = Some c' -> sampler c = Some k ->
  sampler c' = Some k \/
  (sampler c' = None /\ k ∈ cancelled c' /\
   (forall stream t, streamRef c = Some stream -> t ∈ stream -> t ∉ live c') /\
   (noLeak c -> live c' = ∅) /\
   (e = Unmount \/ exists m, e = ClickToggle m)).
Proof.
  intros (Hcan & Hsam & Hun & Hon) Hstep Hsampler.
  assert (Hm : mounted c = true).
  { destruct (mounted c); [reflexivity |].
    rewrite (Hun eq_refl) in Hsampler. discriminate. }
  destruct (proj1 (Hon Hm)) as [Hcam Hrun]; [rewrite Hsampler; eauto |].
  unfold step in Hstep.
  destruct (handle e c) as [c1|] eqn:Hhandle; [| discriminate].
  simpl in Hstep. injection Hstep as Hc'.
  pose proof (handle_quiet _ _ _ Hhandle) as Hquiet.
  destruct e as [onLine|m|m| | |j smp| | | |i a].
  1, 4, 5, 6, 8, 9:
    left; destruct (handle_sampling _ _ _ Hhandle ltac:(discriminate))
      as [Hsampling Hm1];
    rewrite Hm1, Hm in Hc'; subst c';
    pose proof (commit_samplingOf c c1) as Hcommit;
    rewrite bool_decide_eq_true_2 in Hcommit by (destruct Hquiet; auto);
    unfold samplingOf in Hcommit, Hsampling; congruence.
  - simpl in Hhandle. rewrite Hm, Hcam in Hhandle. discriminate.
  - right. simpl in Hhandle. rewrite Hm in Hhandle. injection Hhandle as <-.
    unfold handleToggle in Hc'. rewrite Hrun in Hc'. cbn [negb] in Hc'.
    destruct (stopTimerAndCamera_sampling c) as (Hcam1 & Hrun1 & Hm1 & Hs1 & Hk1 & Hn1).
    assert (Hl1 : live (stopTimerAndCamera c)
                  = match streamRef c with
                    | Some stream => stopTracks stream (live c)
                    | None => live c
                    end) by now rewrite stopTimerAndCamera_fields.
    remember (stopTimerAndCamera c) as c1 eqn:Hc1. clear Hc1.
    rewrite Hm1, Hm in Hc'. subst c'.
    pose proof (commit_samplingOf c c1) as Hcommit.
    pose proof (commit_stateOf c c1) as Hstate.
    rewrite bool_decide_eq_false_2 in Hcommit
      by (rewrite Hcam, Hcam1; intros [[=] _]).
    cbv zeta in Hcommit. rewrite Hcam1, Hs1, Hsampler in Hcommit.
    cbn [andb] in Hcommit.
    unfold samplingOf in Hcommit. injection Hcommit as Hs Hk Hn.
    apply stateOf_fields in Hstate as (_ & _ & _ & _ & _ & _ & _ & Hl & _).
    rewrite Hl1 in Hl. destruct (released_tracks c _ Hl) as [Hheld Hnone].
    split; [exact Hs |]. split; [rewrite Hk; apply elem_of_union; right;
                                 now apply elem_of_singleton |].
    split; [exact Hheld |]. split; [now apply Hnone | right; eauto].
  - right. simpl in Hhandle. rewrite Hm in Hhandle. injection Hhandle as <-.
    assert (Hmu : mounted (unmount c) = false)
      by (rewrite unmount_fields; reflexivity).
    rewrite Hmu in Hc'. subst c'.
    assert (Hl : live (unmount c)
                 = match streamRef c with
                   | Some stream => stopTracks stream (live c)
                   | None => live c
                   end) by now rewrite unmount_fields.
    destruct (released_tracks c _ Hl) as [Hheld Hnone].
    split; [rewrite unmount_fields; reflexivity |].
    split; [rewrite unmount_fields; cbn [cancelled]; rewrite Hsampler;
            apply elem_of_union; right; now apply elem_of_singleton |].
    split; [exact Hheld |]. split; [now apply Hnone | left; reflexivity].
  - left. simpl in Hhandle.
    destruct (pending c !! i) as [w|]; [| discriminate]. injection Hhandle as Hc1.
    destruct (resume_sampling w a (setPending (delete i (pending c)) c))
      as [Hsampling Hm1].
    destruct (resume_keeps w a (setPending (delete i (pending c)) c))
      as [Hcam1 Hrun1].
    rewrite Hc1 in Hsampling, Hm1, Hcam1, Hrun1. cbn in Hsampling, Hm1, Hcam1, Hrun1.
    specialize (Hcam1 Hcam). specialize (Hrun1 Hrun).
    rewrite Hm1, Hm in Hc'. subst c'.
    pose proof (commit_samplingOf c c1) as Hcommit.
    rewrite bool_decide_eq_true_2 in Hcommit by (split; congruence).
    unfold samplingOf in Hcommit, Hsampling. cbn in Hsampling. congruence.
Qed.

(** *** A track that is never stopped *)

(** After the unmount no track is ever stopped. *)
Lemma step_unmounted_live e c c' :
  mounted c = false -> step e c = Some c' ->
  mounted c' = false /\ live c ⊆ live c'.
Proof.
  intros Hm. unfold step, handle.
  destruct e as [onLine|m|m| | |k smp| | | |i a]; rewrite ?Hm; cbn;
    try discriminate.
  - case_bool_decide; [| discriminate].
    destruct (checkPresence _ smp c) as [c2|err] eqn:Hcheck; cbn.
    + destruct (checkPresence_cases _ _ _ _ Hcheck) as [-> | [_ [p ->]]]; cbn;
        rewrite Hm; intros [= <-]; auto.
    + rewrite Hm. intros [= <-]. auto.
  - destruct (pending c !! i) as [w|]; [| discriminate]. cbn.
    unfold resume. cbn. rewrite Hm.
    destruct a as [stream|err]; cbn; rewrite Hm; intros [= <-]; cbn;
      (split; [exact Hm |]); [| reflexivity].
    intros t Ht. apply elem_of_union. now left.
Qed.

Lemma run_unmounted_live es : forall c c',
  mounted c = false -> run es c = Some c' ->
  mounted c' = false /\ live c ⊆ live c'.
Proof.
  induction es as [|e es IH]; intros c c' Hm; simpl.
  - intros [= <-]. auto.
  - destruct (step e c) as [c1|] eqn:Hstep; [| discriminate]. cbn.
    destruct (step_unmounted_live _ _ _ Hm Hstep) as [Hm1 Hsub].
    intros Hrun. destruct (IH _ _ Hm1 Hrun) as [Hm' Hsub'].
    split; [exact Hm' |]. intros t Ht. auto.
Qed.

(** C9, at the input where the code fails. The camera is asked for twice
    before the first answer comes, and each answer is a stream of one track:
    the sampling loop is installed, the component holds the second stream
    only, and both tracks run. Stop then tears the loop down and cancels its
    closure, and so does the unmount; either stops the track of the second
    stream and leaves the track of the first running, with the camera shown
    as off. And when the component is unmounted while the camera is being
    asked for, the answer still comes: its track runs, and nothing that can
    happen afterwards stops it. *)
Theorem teardown_leaves_a_track_running :
  (exists c,
     run twoStreams (mount true) = Some c /\
     sampler c = Some 0%nat /\ streamRef c = Some [8%nat] /\
     live c = {[ 7%nat; 8%nat ]} /\
     (exists c',
        step (ClickToggle oneTrack) c = Some c' /\
        sampler c' = None /\ 0%nat ∈ cancelled c' /\
        cameraEnabled c' = false /\ streamRef c' = None /\
        live c' = {[ 7%nat ]}) /\
     (exists c',
        step Unmount c = Some c' /\
        sampler c' = None /\ 0%nat ∈ cancelled c' /\ mounted c' = false /\
        live c' = {[ 7%nat ]})) /\
  (exists c,
     run answerAfterUnmount (mount true) = Some c /\
     mounted c = false /\ live c = {[ 7%nat ]} /\
     forall es c', run es c = Some c' -> 7%nat ∈ live c').
Proof.
  split.
  - eexists. split; [vm_compute; reflexivity |].
    split; [reflexivity |]. split; [reflexivity |].
    split; [vm_compute; reflexivity |]. split.
    + eexists. split; [vm_compute; reflexivity |].
      split; [reflexivity |]. split; [vm_compute; reflexivity |].
      split; [reflexivity |]. split; [reflexivity |]. vm_compute. reflexivity.
    + eexists. split; [vm_compute; reflexivity |].
      split; [reflexivity |]. split; [vm_compute; reflexivity |].
      split; [reflexivity |]. vm_compute. reflexivity.
  - eexists. split; [vm_compute; reflexivity |].
    split; [reflexivity |]. split; [vm_compute; reflexivity |].
    intros es c' Hrun.
    eapply (run_unmounted_live es); [| exact Hrun |]; [reflexivity |].
    vm_compute. reflexivity.
Qed.

(** *** The sampler as a state machine *)

(** While the component is mounted, the sampling loop is installed exactly
    when the camera is enabled and run is requested; after the unmount it is
    not installed. *)
Theorem sampler_installed_iff (c : Component) :
  reachable c ->
  (mounted c = true ->
   (is_Some (sampler c) <-> cameraEnabled c = true /\ isRunning c = true)) /\
  (mounted c = false -> sampler c = None).
Proof.
  intros Hreach.
  destruct (reachable_invariant _ Hreach) as [_ (_ & _ & Hun & Hon)].
  split; assumption.
Qed.

Lemma sampler_installed_iff_witness :
  is_Some (sampler watching) <->
  cameraEnabled watching = true /\ isRunning watching = true.
Proof.
  apply (proj1 (sampler_installed_iff watching watching_reachable)).
  reflexivity.
Defined.

(** *** Synthetic frames *)

(** With no face detector in the window, a sample of the live loop on the
    all-black frame is classified Absent, and one on the checkerboard of mean
    luminance 128 is classified Present. *)
Theorem synthetic_frames_without_detector :
  (c ← step (SampleSettles 0 {| hasVideo := true; hasCtx := true; detector := None;
                                readyState := 4; videoWidth := 640;
                                videoHeight := 480;
                                drawn := Normal Luminance.blackFrame |}) watching;
   Some (latestSample c)) = Some Absent /\
  (c ← step (SampleSettles 0 texturedNoDetector) watching;
   Some (latestSample c)) = Some Present.
Proof. apply conj; vm_compute; reflexivity. Qed.

(** *** A session *)

(** Start to finish, with no face detector in the window: the camera is
    enabled and the first sample is Present, three seconds are counted; a
    sample then fails, and no second can be counted until a sample is Present
    again. *)
Theorem session_counts_while_present :
  (c ← run [ClickEnableCamera oneTrack; SampleSettles 0 texturedNoDetector;
            SecondElapsed; SecondElapsed; SecondElapsed;
            SampleSettles 0 unreadableFrame] (mount true);
   Some (seconds c, latestSample c, step SecondElapsed c))
  = Some (3%Z, Absent, None) /\
  (c ← run [ClickEnableCamera oneTrack; SampleSettles 0 texturedNoDetector;
            SecondElapsed; SecondElapsed; SecondElapsed;
            SampleSettles 0 unreadableFrame;
            SampleSettles 0 texturedNoDetector; SecondElapsed] (mount true);
   Some (seconds c, latestSample c))
  = Some (4%Z, Present).
Proof. apply conj; vm_compute; reflexivity. Qed.

End StudyPresenceFacts.

(** ** What the component shows *)

Module StudyPresenceViewFacts.
Import StudyPresence StudyPresenceView.

(** *** Strings *)

Lemma app_string_nil (t : string) : "" +:+ t = t.
Proof. reflexivity. Qed.

Lemma app_string_cons a (s t : string) : String a s +:+ t = String a (s +:+ t).
Proof. reflexivity. Qed.

Lemma length_app_string (s t : string) :
  String.length (s +:+ t) = String.length s + String.length t.
Proof.
  induction s as [|a s IH]; [reflexivity |].
  rewrite app_string_cons. simpl. now rewrite IH.
Qed.

Lemma length_repeatChar n fill : String.length (repeatChar n fill) = n.
Proof. induction n as [|n IH]; simpl; [reflexivity | now rewrite IH]. Qed.

Lemma length_padStart n fill s :
  String.length (padStart n fill s) = Nat.max n (String.length s).
Proof. unfold padStart. rewrite length_app_string, length_repeatChar. lia. Qed.

(** Two texts with tails of one length are equal part by part. *)
Lemma app_string_inj_tail (a a' t t' : string) :
  String.length t = String.length t' -> a +:+ t = a' +:+ t' -> a = a' /\ t = t'.
Proof.
  revert a'. induction a as [|x a IH]; intros [|x' a'] Hlen Heq;
    rewrite ?app_string_nil, ?app_string_cons in Heq.
  - now split.
  - subst t. simpl in Hlen. rewrite length_app_string in Hlen. lia.
  - subst t'. simpl in Hlen. rewrite length_app_string in Hlen. lia.
  - injection Heq as -> Heq. destruct (IH a' Hlen Heq) as [-> ->]. now split.
Qed.

(** *** Decimal fields *)

Lemma toString_nonneg z :
  (0 <= z)%Z ->
  exists d, d <> Decimal.Nil /\ toString z = NilZero.string_of_uint d /\
            Z.of_uint d = z.
Proof.
  intros Hz. unfold toString. destruct z as [|p|p]; [| | lia].
  - exists Decimal.zero. repeat split. discriminate.
  - exists (Pos.to_uint p). split; [apply Unsigned.to_uint_nonnil |].
    split; [reflexivity |].
    pose proof (DecimalZ.of_to (Z.pos p)) as H. exact H.
Qed.

(** Zeros put in front of a decimal field do not change what it reads as. *)
Lemma readNumber_zeros k d :
  d <> Decimal.Nil ->
  readNumber (repeatChar k "0" +:+ NilZero.string_of_uint d) = Some (Z.of_uint d).
Proof.
  intros Hd.
  assert (Hu : forall k,
            NilEmpty.uint_of_string (repeatChar k "0" +:+ NilZero.string_of_uint d)
            = Some (Nat.iter k Decimal.D0 d)).
  { clear k. induction k as [|k IH]; cbn [repeatChar].
    - rewrite app_string_nil.
      pose proof (NilZero.usu d Hd) as H. unfold NilZero.uint_of_string in H.
      destruct (NilZero.string_of_uint d) eqn:Hs; [discriminate H | exact H].
    - rewrite app_string_cons. cbn [NilEmpty.uint_of_string]. rewrite IH.
      reflexivity. }
  assert (Hof : forall k, Z.of_uint (Nat.iter k Decimal.D0 d) = Z.of_uint d).
  { clear k. induction k as [|k IH]; [reflexivity |]. simpl. exact IH. }
  unfold readNumber, NilZero.int_of_string.
  destruct (repeatChar k "0" +:+ NilZero.string_of_uint d) as [|a s] eqn:Hs.
  - exfalso. destruct k as [|k]; cbn [repeatChar] in Hs;
      rewrite ?app_string_nil, ?app_string_cons in Hs; [| discriminate Hs].
    destruct d; try (now destruct Hd); cbn in Hs; discriminate Hs.
  - destruct (Ascii.eqb_spec a "-") as [-> | Hne].
    + exfalso. destruct k as [|k]; cbn [repeatChar] in Hs;
        rewrite ?app_string_nil, ?app_string_cons in Hs.
      * destruct d; try (now destruct Hd); cbn in Hs; discriminate Hs.
      * discriminate Hs.
    + unfold NilZero.uint_of_string. rewrite <- Hs, Hu. simpl. now rewrite Hof.
Qed.

Lemma readNumber_padStart z :
  (0 <= z)%Z -> readNumber (padStart 2 "0" (toString z)) = Some z.
Proof.
  intros Hz. destruct (toString_nonneg z Hz) as (d & Hd & -> & <-).
  unfold padStart. now apply readNumber_zeros.
Qed.

Lemma length_toString_small r :
  (0 <= r < 60)%Z -> String.length (toString r) <= 2.
Proof.
  intros Hr. destruct r as [|p|p]; [simpl; lia | | lia].
  do 6 (destruct p as [p|p|]; try lia; try (vm_compute; lia)).
Qed.

(** The time on the display can be read back: the text is a minutes field of
    at least two digits, a colon and a seconds field of exactly two digits;
    the fields read as the whole minutes and the seconds below sixty, and
    sixty times the first plus the second is the elapsed time. *)
Theorem timeDisplay_reads_back (c : Component) :
  (0 <= seconds c <= maxSafeInteger)%Z ->
  exists mm ss,
    timeDisplay c = mm +:+ ":" +:+ ss /\
    2 <= String.length mm /\ String.length ss = 2 /\
    readNumber mm = Some (minutes c) /\
    readNumber ss = Some (remainderSeconds c) /\
    (0 <= minutes c)%Z /\ (0 <= remainderSeconds c < 60)%Z /\
    seconds c = (60 * minutes c + remainderSeconds c)%Z.
Proof.
  intros [Hlo _]. unfold timeDisplay, minutes, remainderSeconds.
  assert (Hrem : Z.rem (seconds c) 60 = (seconds c mod 60)%Z)
    by (apply Z.rem_mod_nonneg; lia).
  rewrite Hrem.
  pose proof (Z.mod_pos_bound (seconds c) 60 ltac:(lia)) as Hr.
  pose proof (Z.div_pos (seconds c) 60 Hlo ltac:(lia)) as Hm.
  eexists _, _. split; [reflexivity |].
  split; [rewrite length_padStart; lia |].
  split; [rewrite length_padStart; pose proof (length_toString_small _ Hr); lia |].
  split; [now apply readNumber_padStart |].
  split; [apply readNumber_padStart; lia |].
  split; [exact Hm |]. split; [exact Hr |].
  apply Z.div_mod. lia.
Qed.

Lemma timeDisplay_reads_back_witness :
  exists mm ss,
    timeDisplay (setSeconds (fun _ => 3725%Z) watching) = mm +:+ ":" +:+ ss /\
    2 <= String.length mm /\ String.length ss = 2 /\
    readNumber mm = Some 62%Z /\ readNumber ss = Some 5%Z.
Proof.
  destruct (timeDisplay_reads_back (setSeconds (fun _ => 3725%Z) watching))
    as (mm & ss & H1 & H2 & H3 & H4 & H5 & _).
  { unfold maxSafeInteger. simpl. lia. }
  exists mm, ss. auto.
Defined.

(** Two different elapsed times never show the same text. *)
Theorem timeDisplay_inj (c c' : Component) :
  (0 <= seconds c <= maxSafeInteger)%Z -> (0 <= seconds c' <= maxSafeInteger)%Z ->
  timeDisplay c = timeDisplay c' -> seconds c = seconds c'.
Proof.
  intros Hc Hc' Heq.
  assert (Hfields : forall d, (0 <= seconds d <= maxSafeInteger)%Z ->
            String.length (":" +:+ padStart 2 "0" (toString (remainderSeconds d))) = 3 /\
            readNumber (padStart 2 "0" (toString (minutes d))) = Some (minutes d) /\
            readNumber (padStart 2 "0" (toString (remainderSeconds d)))
            = Some (remainderSeconds d) /\
            seconds d = (60 * minutes d + remainderSeconds d)%Z).
  { intros d [Hlo _]. unfold minutes, remainderSeconds.
    rewrite (Z.rem_mod_nonneg (seconds d) 60) by lia.
    pose proof (Z.mod_pos_bound (seconds d) 60 ltac:(lia)) as Hr.
    pose proof (Z.div_pos (seconds d) 60 Hlo ltac:(lia)) as Hm.
    split.
    { rewrite app_string_cons, app_string_nil. simpl. rewrite length_padStart.
      pose proof (length_toString_small _ Hr). lia. }
    split; [now apply readNumber_padStart |].
    split; [apply readNumber_padStart; lia |].
    apply Z.div_mod. lia. }
  destruct (Hfields c Hc) as (Hl & Hm & Hs & Hsum).
  destruct (Hfields c' Hc') as (Hl' & Hm' & Hs' & Hsum').
  unfold timeDisplay in Heq.
  apply app_string_inj_tail in Heq as [Hmm Hss]; [| congruence].
  rewrite !app_string_cons, !app_string_nil in Hss. injection Hss as Hss.
  rewrite Hmm in Hm. rewrite Hss in Hs. congruence.
Qed.

Lemma timeDisplay_inj_witness :
  seconds (setSeconds (fun _ => 61%Z) watching)
  = seconds (secondTick (setSeconds (fun _ => 60%Z) stoppedWithCamera)).
Proof.
  apply (timeDisplay_inj (setSeconds (fun _ => 61%Z) watching)
           (secondTick (setSeconds (fun _ => 60%Z) stoppedWithCamera)));
    [unfold maxSafeInteger; simpl; lia .. | reflexivity].
Defined.

(** *** Labels *)

(** The status text is shown in green exactly while the timer is active; the
    toggle says "Stop" exactly while run is requested; and the status label is
    the long one exactly when the camera badge is shown and does not say that
    a face is detected. *)
Theorem labels_agree (c : Component) :
  (statusClass c = "text-emerald-300" <-> isTimerActive c = true) /\
  (toggleLabel c = "Stop" <-> isRunning c = true) /\
  (studyStatusLabel c = "Not studying – user not detected or camera covered"
   <-> exists badge, presenceBadge c = Some badge /\ badge <> "Face detected") /\
  (presenceBadge c = None <-> enableCameraShown c = true).
Proof.
  unfold statusClass, toggleLabel, studyStatusLabel, presenceBadge,
    enableCameraShown, isTimerActive, isAutoPaused.
  destruct (isRunning c), (cameraEnabled c), (isUserPresent c) as [[|]|]; simpl;
    repeat match goal with
      | |- _ /\ _ => split
      | |- _ <-> _ => split
      end;
    try reflexivity; try discriminate; try (intros; discriminate);
    try (intros _; eexists; split; [reflexivity | discriminate]);
    try (intros (badge & [= <-] & Hne); try reflexivity; now destruct Hne);
    try (intros (badge & [=] & _)).
Qed.

End StudyPresenceViewFacts.

(** ** The camera session and the traces of the component *)

Module StudyPresenceSessionFacts.
Import StudyPresence StudyPresenceView StudyPresenceFacts.

(** *** Commit, in closed form *)

Lemma commit_videoRef old c :
  videoRef (commit old c) =
  if cameraEnabled c then
    if bool_decide (cameraEnabled old = cameraEnabled c)
    then Some (default {| srcObject := None |} (videoRef c))
    else match streamRef c with
         | Some stream => Some {| srcObject := Some stream |}
         | None => Some (default {| srcObject := None |} (videoRef c))
         end
  else None.
Proof.
  unfold commit.
  assert (Hsam : forall d, videoRef (samplingEffect (samplingCleanup d)) = videoRef d)
    by (intros d; now rewrite samplingEffect_videoRef, samplingCleanup_videoRef).
  assert (Hgoal :
    videoRef (if bool_decide (cameraEnabled old = cameraEnabled c)
              then render c else attachStream (render c)) =
    if cameraEnabled c then
      if bool_decide (cameraEnabled old = cameraEnabled c)
      then Some (default {| srcObject := None |} (videoRef c))
      else match streamRef c with
           | Some stream => Some {| srcObject := Some stream |}
           | None => Some (default {| srcObject := None |} (videoRef c))
           end
    else None).
  { unfold render, attachStream.
    destruct c as [? ? ? cam ? ? [v|] [stream|] ? ? ? ? ? ?]; simpl;
      destruct cam; simpl; case_bool_decide; reflexivity. }
  destruct (bool_decide (cameraEnabled old = cameraEnabled c ∧ isRunning old = isRunning c));
    rewrite ?Hsam; exact Hgoal.
Qed.

(** A component whose video element is in the page exactly while the camera
    is enabled, and whose [cameraEnabled] and [isRunning] are those of the
    last render, is committed as it is. *)
Lemma commit_settled old c :
  cameraEnabled old = cameraEnabled c -> isRunning old = isRunning c ->
  (if cameraEnabled c then is_Some (videoRef c) else videoRef c = None) ->
  commit old c = c.
Proof.
  intros Hcam Hrun Hvideo. unfold commit, render.
  rewrite !bool_decide_eq_true_2 by auto.
  destruct c as [? ? ? cam ? ? vid ? ? ? ? ? ? ?]. simpl in *.
  destruct cam; [destruct Hvideo as [v ->] | subst vid]; reflexivity.
Qed.

(** The video element of a component that keeps its session. *)
Lemma sessionHeld_video c :
  sessionHeld c -> mounted c = true ->
  if cameraEnabled c then is_Some (videoRef c) else videoRef c = None.
Proof.
  intros (_ & _ & _ & Hvideo & _) Hm. specialize (Hvideo Hm).
  destruct (cameraEnabled c); [| exact Hvideo].
  destruct Hvideo as (stream & -> & _). eauto.
Qed.

(** *** The session is kept *)

(** What a handler other than the unmount leaves, in a mounted component. *)
Lemma handle_session e c c1 :
  handle e c = Some c1 -> e <> Unmount -> mounted c = true ->
  sessionHeld c -> samplingHeld c ->
  (0 <= seconds c1)%Z /\
  (cameraEnabled c1 = true <-> is_Some (streamRef c1)) /\
  (cameraEnabled c1 = false -> isUserPresent c1 = None) /\
  (cameraEnabled c = cameraEnabled c1 -> videoRef c1 = videoRef c) /\
  (cameraEnabled c1 = true -> live c ⊆ live c1).
Proof.
  intros Hhandle Hne Hm (Hsec & Hcam & Hlive & Hvideo & Hpres & Hclo)
    (Hcan & Hsam & Hun & Hon).
  specialize (Hcam Hm). specialize (Hlive Hm). specialize (Hvideo Hm).
  specialize (Hon Hm).
  assert (Hadd : forall stream, live c ⊆ live c ∪ list_to_set stream)
    by (intros stream t Ht; apply elem_of_union; now left).
  assert (Hanswer : forall m d,
            d = handleEnableCamera m c \/ d = setIsRunning true (handleEnableCamera m c) ->
            (0 <= seconds d)%Z /\
            (cameraEnabled d = true <-> is_Some (streamRef d)) /\
            (cameraEnabled d = false -> isUserPresent d = None) /\
            (cameraEnabled c = cameraEnabled d -> videoRef d = videoRef c) /\
            (cameraEnabled d = true -> live c ⊆ live d)).
  { intros m d Hd.
    destruct m as [|stream|err]; destruct Hd as [-> | ->]; cbn;
      repeat split; eauto; try tauto; try discriminate. }
  destruct e as [onLine|m|m| | |k smp| | | |i a]; unfold handle in Hhandle;
    rewrite ?Hm in Hhandle; cbn [andb] in Hhandle.
  - injection Hhandle as <-. cbn. repeat split; auto; tauto.
  - destruct (negb (cameraEnabled c)); [| discriminate].
    injection Hhandle as <-. apply (Hanswer m). now left.
  - injection Hhandle as <-. unfold handleToggle.
    destruct (isRunning c) eqn:Erun; cbn [negb].
    + rewrite stopTimerAndCamera_fields. cbn.
      repeat split; auto; try discriminate; try (intros [x [=]]).
      intros Ecam. rewrite Ecam in Hvideo. now rewrite Hvideo.
    + destruct (negb (cameraEnabled c)) eqn:Ecam.
      * apply (Hanswer m). now right.
      * cbn. repeat split; auto; tauto.
  - injection Hhandle as <-. cbn. repeat split; auto; try tauto; lia.
  - destruct (isTimerActive c); [| discriminate]. injection Hhandle as <-.
    cbn. repeat split; auto; try tauto; lia.
  - case_bool_decide as Hk; [| discriminate].
    destruct (checkPresence _ smp c) as [c2|err] eqn:Hcheck;
      injection Hhandle as <-; [| repeat split; auto; tauto].
    destruct (checkPresence_cases _ _ _ _ Hcheck) as [-> | [Hlive' [p ->]]];
      [repeat split; auto; tauto |].
    apply bool_decide_eq_false_1 in Hlive'.
    destruct (Hclo _ Hk) as [Hin | Hs]; [contradiction |].
    destruct (proj1 Hon) as [Ecam _]; [rewrite Hs; eauto |].
    cbn. rewrite Ecam. repeat split; auto; try tauto; discriminate.
  - now destruct Hne.
  - destruct (negb (cameraEnabled c)); [| discriminate].
    injection Hhandle as <-. cbn. repeat split; auto; tauto.
  - destruct (negb (isRunning c) && negb (cameraEnabled c)); [| discriminate].
    injection Hhandle as <-. cbn. repeat split; auto; tauto.
  - destruct (pending c !! i) as [w|]; [| discriminate]. injection Hhandle as <-.
    unfold resume. cbn [mounted setPending]. rewrite Hm.
    destruct (Hanswer (settled a)
                (match w with
                 | EnableCameraAwaits => handleEnableCamera (settled a) c
                 | ToggleAwaits => setIsRunning true (handleEnableCamera (settled a) c)
                 end)) as (H1 & H2 & H3 & H4 & H5);
      [destruct w; auto |].
    destruct w, a; cbn in *; repeat split; auto; tauto.
Qed.

(** After the unmount only a sample or an answer of [getUserMedia] can still
    settle. The sample changes nothing. The answer changes no state variable
    either, but its stream is kept in the ref and its tracks run. *)
Lemma step_unmounted e c c' :
  sessionHeld c -> samplingHeld c -> mounted c = false ->
  step e c = Some c' ->
  settledOf c' = settledOf c /\ live c ⊆ live c' /\
  ((exists k smp, e = SampleSettles k smp) /\ c' = c \/
   exists i a, e = UserMediaSettles i a /\ is_Some (pending c !! i) /\
               pending c' = delete i (pending c) /\
               match a with
               | Normal stream =>
                   streamRef c' = Some stream /\
                   live c' = live c ∪ list_to_set stream
               | Throw _ => streamRef c' = streamRef c /\ live c' = live c
               end).
Proof.
  intros (_ & _ & _ & _ & _ & Hclo) (_ & _ & Hun & _) Hm.
  unfold step, handle.
  destruct e as [onLine|m|m| | |k smp| | | |i a]; rewrite ?Hm; cbn;
    try discriminate.
  - case_bool_decide as Hk; [| discriminate].
    destruct (Hclo _ Hk) as [Hin | Hs]; [| rewrite (Hun Hm) in Hs; discriminate].
    rewrite bool_decide_eq_true_2 by exact Hin.
    rewrite checkPresence_cancelled. cbn. rewrite Hm.
    intros [= <-]. split; [reflexivity |]. split; [reflexivity |]. left. eauto.
  - destruct (pending c !! i) as [w|] eqn:Hw; [| discriminate]. cbn.
    unfold resume. cbn [mounted setPending]. rewrite Hm.
    destruct a as [stream|err]; cbn; rewrite Hm; intros [= <-]; cbn.
    + split; [unfold settledOf; cbn; now rewrite Hm |].
      split; [intros t Ht; apply elem_of_union; now left |].
      right. exists i, (Normal stream). rewrite Hw. repeat split; eauto.
    + split; [unfold settledOf; cbn; now rewrite Hm |].
      split; [reflexivity |].
      right. exists i, (Throw err). rewrite Hw. repeat split; eauto.
Qed.

Lemma settledOf_fields c c' :
  settledOf c' = settledOf c ->
  seconds c' = seconds c /\ isRunning c' = isRunning c /\
  isOnline c' = isOnline c /\ cameraEnabled c' = cameraEnabled c /\
  isUserPresent c' = isUserPresent c /\ cameraError c' = cameraError c /\
  videoRef c' = videoRef c /\ sampler c' = sampler c /\
  cancelled c' = cancelled c /\ closures c' = closures c /\
  mounted c' = mounted c.
Proof.
  unfold settledOf, samplingOf. intros H.
  injection H as -> -> -> -> -> -> -> -> -> -> ->. tauto.
Qed.

Lemma step_sessionHeld e c c' :
  sessionHeld c -> invariant c -> step e c = Some c' -> sessionHeld c'.
Proof.
  intros Hsession [Htracks Hsampling] Hstep.
  destruct (mounted c) eqn:Hm.
  2: { destruct (step_unmounted _ _ _ Hsession Hsampling Hm Hstep) as (Hsame & _).
       apply settledOf_fields in Hsame
         as (Es & _ & _ & Ecam & Epres & _ & _ & Esam & Ecan & Eclo & Em).
       destruct Hsession as (Hsec & _ & _ & _ & Hpres & Hclo).
       unfold sessionHeld. rewrite Es, Ecam, Epres, Esam, Ecan, Eclo, Em, Hm.
       refine (conj Hsec (conj _ (conj _ (conj _ (conj Hpres Hclo)))));
         discriminate. }
  assert (Hcase : e = Unmount \/ e <> Unmount)
    by (destruct e; auto; right; discriminate).
  destruct Hcase as [-> | Hne].
  - unfold step, handle in Hstep. rewrite Hm in Hstep.
    cbn [mbind option_bind] in Hstep.
    assert (Hmu : mounted (unmount c) = false)
      by (rewrite unmount_fields; reflexivity).
    rewrite Hmu in Hstep. injection Hstep as <-.
    destruct Hsession as (Hsec & _ & _ & _ & Hpres & Hclo).
    rewrite unmount_fields. unfold sessionHeld. cbn.
    refine (conj Hsec (conj _ (conj _ (conj _ (conj Hpres _)))));
      try (intros; discriminate).
    intros k Hk. left. destruct (Hclo _ Hk) as [Hin | Hs].
    + destruct (sampler c); [apply elem_of_union; left |]; exact Hin.
    + rewrite Hs. apply elem_of_union. right. now apply elem_of_singleton.
  - unfold step in Hstep.
    destruct (handle e c) as [c1|] eqn:Hhandle; [| discriminate].
    cbn in Hstep. injection Hstep as <-.
    destruct (handle_sampling _ _ _ Hhandle Hne) as [Hsame Hm1].
    rewrite Hm in Hm1. rewrite Hm1.
    destruct (handle_session _ _ _ Hhandle Hne Hm Hsession Hsampling)
      as (Hsec1 & Hcam1 & Hpres1 & Hvid1 & Hgrow).
    destruct (handle_tracks _ _ _ Hhandle Htracks) as [Hlive1 _].
    specialize (Hlive1 Hm1).
    destruct Hsession as (_ & Hcam & _ & Hvideo & _ & Hclo).
    specialize (Hcam Hm). specialize (Hvideo Hm).
    destruct Hsampling as (Hcan & Hsam & _ & _).
    pose proof (commit_stateOf c c1) as Hstate.
    apply stateOf_fields in Hstate
      as (Es & _ & _ & Ecam & Epres & Eerr & Estream & Elive & Emounted).
    assert (Evideo : if cameraEnabled c1
                     then exists stream,
                            videoRef (commit c c1) = Some {| srcObject := Some stream |} /\
                            list_to_set stream ⊆ live c1
                     else videoRef (commit c c1) = None).
    { rewrite commit_videoRef.
      destruct (cameraEnabled c1) eqn:Ecam1; [| reflexivity].
      destruct (decide (cameraEnabled c = true)) as [Hsamecam | Hdiff].
      - rewrite bool_decide_eq_true_2 by exact Hsamecam.
        rewrite (Hvid1 Hsamecam). rewrite Hsamecam in Hvideo.
        destruct Hvideo as (stream & -> & Hsub). exists stream.
        split; [reflexivity |]. intros t Ht. apply (Hgrow eq_refl). auto.
      - rewrite bool_decide_eq_false_2 by exact Hdiff.
        destruct (proj1 Hcam1 eq_refl) as [stream Hstream]. rewrite Hstream.
        exists stream. split; [reflexivity |]. now rewrite Hstream in Hlive1. }
    unfold sessionHeld.
    rewrite Es, Ecam, Epres, Estream, Elive, Emounted.
    split; [exact Hsec1 |]. split; [intros _; exact Hcam1 |].
    split; [intros _; exact Hlive1 |].
    split; [intros _; exact Evideo |].
    split; [exact Hpres1 |].
    pose proof (commit_samplingOf c c1) as Esampling.
    unfold samplingOf in Hsame. injection Hsame as Hs1 Hk1 Hn1.
    case_bool_decide as Hdeps.
    + unfold samplingOf in Esampling. injection Esampling as -> -> ->.
      rewrite Hs1, Hk1, Hn1. exact Hclo.
    + cbv zeta in Esampling. rewrite Hs1, Hk1, Hn1 in Esampling.
      assert (Hold : forall k, k < closures c ->
                k ∈ match sampler c with
                    | Some j => cancelled c ∪ {[j]}
                    | None => cancelled c
                    end).
      { intros k Hk. destruct (Hclo _ Hk) as [Hin | Hs].
        - destruct (sampler c); [apply elem_of_union; left |]; exact Hin.
        - rewrite Hs. apply elem_of_union. right. now apply elem_of_singleton. }
      destruct (cameraEnabled c1 && isRunning c1);
        unfold samplingOf in Esampling; injection Esampling as -> -> ->.
      * intros k Hk. destruct (decide (k = closures c)) as [-> | Hneq];
          [right; reflexivity | left; apply Hold; lia].
      * intros k Hk. left. now apply Hold.
Qed.

Lemma mount_sessionHeld onLine : sessionHeld (mount onLine).
Proof.
  unfold sessionHeld. cbn.
  repeat split; try discriminate; try (intros [x [=]]); try lia; auto.
Qed.

Lemma reachable_sessionHeld (c : Component) : reachable c -> sessionHeld c.
Proof.
  induction 1 as [onLine | e c c' Hreach IH Hstep].
  - apply mount_sessionHeld.
  - eapply step_sessionHeld; eauto. now apply reachable_invariant.
Qed.

(** *** With no answer waited for across another event *)

Lemma handle_unshared e c c1 :
  handle e c = Some c1 -> e <> Unmount -> leavesPending e = false ->
  mounted c = true -> tracksHeld c -> samplingHeld c -> sessionHeld c ->
  sessionUnshared c ->
  pending c1 = [] /\ live c1 = tracksOf (streamRef c1) /\
  (cameraEnabled c1 = true -> cameraError c1 = None) /\
  (cameraEnabled c = cameraEnabled c1 ->
   streamRef c1 = streamRef c /\ videoRef c1 = videoRef c).
Proof.
  intros Hhandle Hne Hquiet Hm [_ Hstream] (_ & _ & _ & Hon)
    (_ & _ & _ & _ & _ & Hclo) (Hpend & Hlive & Hvideo & Herr).
  specialize (Hstream Hm). specialize (Hvideo Hm). specialize (Hon Hm).
  unfold noLeak in Hlive. rewrite Hm in Hlive.
  assert (Hanswer : forall m d,
            cameraEnabled c = false ->
            d = handleEnableCamera m c \/ d = setIsRunning true (handleEnableCamera m c) ->
            pending d = [] /\ live d = tracksOf (streamRef d) /\
            (cameraEnabled d = true -> cameraError d = None) /\
            (cameraEnabled c = cameraEnabled d ->
             streamRef d = streamRef c /\ videoRef d = videoRef c)).
  { intros m d Ecam Hd. rewrite Ecam.
    assert (Hempty : live c = ∅) by now rewrite Hlive, (Hstream Ecam).
    destruct m as [|stream|err]; destruct Hd as [-> | ->]; cbn;
      rewrite ?Ecam, ?Hempty;
      repeat split; auto; try discriminate; try congruence;
      apply (left_id_L ∅ (∪)). }
  destruct e as [onLine|m|m| | |k smp| | | |i a]; try discriminate Hquiet;
    unfold handle in Hhandle; rewrite ?Hm in Hhandle; cbn [andb] in Hhandle.
  - injection Hhandle as <-. cbn. auto.
  - destruct (cameraEnabled c) eqn:Ecam; [discriminate |]. cbn [negb] in Hhandle.
    injection Hhandle as <-. apply (Hanswer m); auto.
  - injection Hhandle as <-. unfold handleToggle.
    destruct (isRunning c) eqn:Erun; cbn [negb].
    + rewrite stopTimerAndCamera_fields. cbn.
      split; [exact Hpend |]. split.
      { rewrite Hlive. destruct (streamRef c) as [stream|]; cbn; [| reflexivity].
        rewrite stopTracks_difference. apply difference_diag_L. }
      split; [discriminate |].
      intros Ecam. rewrite (Hstream Ecam). rewrite Ecam in Hvideo.
      now rewrite Hvideo.
    + destruct (cameraEnabled c) eqn:Ecam; cbn [negb].
      * cbn. rewrite Ecam. auto.
      * apply (Hanswer m); auto.
  - injection Hhandle as <-. cbn. auto.
  - destruct (isTimerActive c); [| discriminate]. injection Hhandle as <-.
    cbn. auto.
  - case_bool_decide as Hk; [| discriminate].
    destruct (checkPresence _ smp c) as [c2|err] eqn:Hcheck;
      injection Hhandle as <-; [| auto].
    destruct (checkPresence_cases _ _ _ _ Hcheck) as [-> | [_ [p ->]]]; cbn; auto.
  - now destruct Hne.
  - rewrite Hpend in Hhandle. discriminate Hhandle.
Qed.

Lemma step_unshared e c c' :
  sessionHeld c -> invariant c -> sessionUnshared c ->
  leavesPending e = false -> step e c = Some c' -> sessionUnshared c'.
Proof.
  intros Hsession [Htracks Hsampling] Hunshared Hquiet Hstep.
  destruct (mounted c) eqn:Hm.
  2: { destruct (step_unmounted _ _ _ Hsession Hsampling Hm Hstep)
         as (_ & _ & [[_ ->] | (i & a & _ & [w Hw] & _)]); [exact Hunshared |].
       destruct Hunshared as [Hpend _]. rewrite Hpend in Hw. discriminate Hw. }
  assert (Hcase : e = Unmount \/ e <> Unmount)
    by (destruct e; auto; right; discriminate).
  destruct Hcase as [-> | Hne].
  - unfold step, handle in Hstep. rewrite Hm in Hstep.
    cbn [mbind option_bind] in Hstep.
    assert (Hmu : mounted (unmount c) = false)
      by (rewrite unmount_fields; reflexivity).
    rewrite Hmu in Hstep. injection Hstep as <-.
    destruct Hunshared as (Hpend & Hlive & _ & Herr).
    unfold noLeak in Hlive. rewrite Hm in Hlive.
    rewrite unmount_fields. unfold sessionUnshared, noLeak. cbn.
    split; [exact Hpend |]. split; [| split; [discriminate | exact Herr]].
    rewrite Hlive. destruct (streamRef c) as [stream|]; cbn; [| reflexivity].
    rewrite stopTracks_difference. apply difference_diag_L.
  - unfold step in Hstep.
    destruct (handle e c) as [c1|] eqn:Hhandle; [| discriminate].
    cbn in Hstep. injection Hstep as <-.
    destruct (handle_sampling _ _ _ Hhandle Hne) as [_ Hm1].
    rewrite Hm in Hm1. rewrite Hm1.
    destruct (handle_session _ _ _ Hhandle Hne Hm Hsession Hsampling)
      as (_ & Hcam1 & _).
    destruct (handle_unshared _ _ _ Hhandle Hne Hquiet Hm Htracks Hsampling
                Hsession Hunshared) as (Hpend1 & Hlive1 & Herr1 & Hsame).
    destruct Hunshared as (_ & _ & Hvideo & _). specialize (Hvideo Hm).
    pose proof (commit_stateOf c c1) as Hstate.
    apply stateOf_fields in Hstate
      as (_ & _ & _ & Ecam & _ & Eerr & Estream & Elive & Emounted).
    unfold sessionUnshared, noLeak.
    rewrite commit_pending, Ecam, Eerr, Estream, Elive, Emounted, Hm1.
    split; [exact Hpend1 |]. split; [exact Hlive1 |]. split; [| exact Herr1].
    intros _. rewrite commit_videoRef.
    destruct (decide (cameraEnabled c = cameraEnabled c1)) as [Hsamecam | Hdiff].
    + rewrite bool_decide_eq_true_2 by exact Hsamecam.
      destruct (Hsame Hsamecam) as [-> ->]. rewrite Hvideo, <- Hsamecam.
      now destruct (cameraEnabled c).
    + rewrite bool_decide_eq_false_2 by exact Hdiff.
      destruct (cameraEnabled c1); [| reflexivity].
      destruct (proj1 Hcam1 eq_refl) as [stream ->]. reflexivity.
Qed.

Lemma mount_unshared onLine : sessionUnshared (mount onLine).
Proof. repeat split; discriminate. Qed.

Lemma run_unshared es : forall c c',
  reachable c -> sessionUnshared c ->
  Forall (fun e => leavesPending e = false) es ->
  run es c = Some c' -> sessionUnshared c'.
Proof.
  induction es as [|e es IH]; intros c c' Hreach Hunshared Hes; simpl.
  - now intros [= <-].
  - destruct (step e c) as [c1|] eqn:Hstep; [| discriminate]. cbn.
    apply Forall_cons in Hes as [He Hes].
    apply IH; [eapply reachable_step; eauto | | exact Hes].
    eapply step_unshared; eauto using reachable_sessionHeld, reachable_invariant.
Qed.

(** In every reachable state the camera session is as the component keeps
    it: the seconds are not negative; while mounted, the camera is enabled
    exactly when a stream is held, the tracks of that stream run, and the
    video element is in the page exactly while the camera is enabled, showing
    a stream whose tracks run; a disabled camera leaves the sample Unknown;
    and every closure of the sampling effect but the installed one is
    cancelled. If, since the mount, no answer of [getUserMedia] was waited
    for across another event, then moreover no promise is pending, no track
    runs but those of the stream held (none after the unmount), the video
    element shows that very stream, and an enabled camera shows no error. *)
Theorem session_kept (c : Component) :
  reachable c ->
  sessionHeld c /\
  (forall onLine es,
     Forall (fun e => leavesPending e = false) es ->
     run es (mount onLine) = Some c -> sessionUnshared c).
Proof.
  intros Hreach. split.
  - induction Hreach as [onLine | e c c' Hreach IH Hstep].
    + apply mount_sessionHeld.
    + exact (step_sessionHeld e c c' IH (reachable_invariant _ Hreach) Hstep).
  - intros onLine es Hes Hrun.
    exact (run_unshared es (mount onLine) c (reachable_mount onLine)
             (mount_unshared onLine) Hes Hrun).
Qed.

Lemma session_kept_witness :
  sessionHeld watching /\
  (forall onLine es,
     Forall (fun e => leavesPending e = false) es ->
     run es (mount onLine) = Some watching -> sessionUnshared watching).
Proof. apply (session_kept watching watching_reachable). Defined.

(** *** After the unmount *)

Lemma stoppedNoCamera_reachable : reachable stoppedNoCamera.
Proof.
  apply (reachable_run [ClickToggle oneTrack] (mount true));
    [apply reachable_mount | vm_compute; reflexivity].
Qed.

Lemma unmountedAfterWatching_reachable : reachable unmountedAfterWatching.
Proof.
  apply (reachable_run [Unmount] watching);
    [apply watching_reachable | vm_compute; reflexivity].
Qed.

Lemma step_unmounted_pending e c c' :
  reachable c -> mounted c = false -> step e c = Some c' ->
  settles e = true /\ settledOf c' = settledOf c /\ live c ⊆ live c' /\
  length (pending c') <= length (pending c) /\
  (pending c = [] \/ (exists k smp, e = SampleSettles k smp) -> c' = c).
Proof.
  intros Hreach Hm Hstep.
  destruct (step_unmounted e c c' (reachable_sessionHeld _ Hreach)
              (proj2 (reachable_invariant _ Hreach)) Hm Hstep)
    as (Hsame & Hlive & [[(k & smp & ->) ->] | (i & a & -> & [w Hw] & Hpend & _)]).
  - repeat split; auto.
  - split; [reflexivity |]. split; [exact Hsame |]. split; [exact Hlive |].
    split.
    + rewrite Hpend, length_delete by eauto. lia.
    + intros [Hnone | (k & smp & [=])]. rewrite Hnone in Hw. discriminate Hw.
Qed.

(** Once the component is unmounted, the only events that can still happen
    are settlings: of a sample of a torn-down loop, or of a [getUserMedia]
    that was pending. They change no state variable, nor the video ref, nor
    the bookkeeping of the sampling effect, and they stop no track; if only
    samples settle, or if no [getUserMedia] was pending, the component stays
    exactly as it is. *)
Theorem unmounted_only_settles (c : Component) (es : list Event) (c' : Component) :
  reachable c -> mounted c = false -> run es c = Some c' ->
  Forall (fun e => settles e = true) es /\
  settledOf c' = settledOf c /\ live c ⊆ live c' /\
  length (pending c') <= length (pending c) /\
  (pending c = [] \/ Forall (fun e => exists k smp, e = SampleSettles k smp) es ->
   c' = c).
Proof.
  revert c. induction es as [|e es IH]; intros c Hreach Hm Hrun.
  - simpl in Hrun. injection Hrun as <-. repeat split; auto.
  - simpl in Hrun. destruct (step e c) as [c1|] eqn:Hstep; [| discriminate].
    cbn in Hrun.
    destruct (step_unmounted_pending e c c1 Hreach Hm Hstep)
      as (He & Hsame1 & Hlive1 & Hpend1 & Hstay1).
    assert (Hm1 : mounted c1 = false).
    { apply settledOf_fields in Hsame1. destruct Hsame1 as (_ & _ & _ & _ & _ & _ & _ & _ & _ & _ & ->).
      exact Hm. }
    destruct (IH c1 (reachable_step _ _ _ Hreach Hstep) Hm1 Hrun)
      as (Hes & Hsame & Hlive & Hpend & Hstay).
    split; [constructor; assumption |].
    split; [congruence |].
    split; [intros t Ht; auto |].
    split; [lia |].
    intros Hquiet.
    assert (Hc1 : c1 = c).
    { apply Hstay1. destruct Hquiet as [Hnone | Hsamples]; [now left | right].
      now apply Forall_cons in Hsamples as [He' _]. }
    subst c1. apply Hstay. destruct Hquiet as [Hnone | Hsamples]; [now left | right].
    now apply Forall_cons in Hsamples as [_ Hes'].
Qed.

Lemma unmounted_only_settles_witness :
  Forall (fun e => settles e = true)
         [SampleSettles 0 texturedNoDetector; SampleSettles 0 unreadableFrame] /\
  settledOf unmountedAfterWatching = settledOf unmountedAfterWatching /\
  live unmountedAfterWatching ⊆ live unmountedAfterWatching /\
  length (pending unmountedAfterWatching) <= length (pending unmountedAfterWatching) /\
  (pending unmountedAfterWatching = [] \/
   Forall (fun e => exists k smp, e = SampleSettles k smp)
          [SampleSettles 0 texturedNoDetector; SampleSettles 0 unreadableFrame] ->
   unmountedAfterWatching = unmountedAfterWatching).
Proof.
  apply (unmounted_only_settles unmountedAfterWatching
           [SampleSettles 0 texturedNoDetector; SampleSettles 0 unreadableFrame]
           unmountedAfterWatching unmountedAfterWatching_reachable eq_refl).
  vm_compute. reflexivity.
Defined.

(** *** The one loop that writes *)

(** Only a sample of the installed loop can change the classification, and
    that loop is installed only while the camera is enabled and run is
    requested: a sample of any other closure settles without a trace. *)
Theorem only_installed_loop_writes
  (c : Component) (k : nat) (smp : Sample) (c' : Component) :
  reachable c -> step (SampleSettles k smp) c = Some c' ->
  isUserPresent c' <> isUserPresent c ->
  sampler c = Some k /\ mounted c = true /\
  cameraEnabled c = true /\ isRunning c = true.
Proof.
  intros Hreach Hstep Hchanged.
  pose proof (reachable_sessionHeld _ Hreach) as (_ & _ & _ & _ & _ & Hclo).
  destruct (reachable_invariant _ Hreach) as [_ (_ & _ & Hun & Hon)].
  assert (Hk : k < closures c).
  { unfold step, handle in Hstep. case_bool_decide; [assumption | discriminate]. }
  destruct (decide (k ∈ cancelled c)) as [Hin | Hnot].
  - apply (step_sample_cancelled _ _ _ _ Hin) in Hstep.
    apply stateOf_fields in Hstep as (_ & _ & _ & _ & Hsame & _). contradiction.
  - destruct (Hclo _ Hk) as [Hin | Hs]; [contradiction |].
    assert (Hm : mounted c = true).
    { destruct (mounted c); [reflexivity |]. rewrite (Hun eq_refl) in Hs.
      discriminate. }
    destruct (proj1 (Hon Hm)) as [Hcam Hrun]; [rewrite Hs; eauto |]. auto.
Qed.

Lemma only_installed_loop_writes_witness :
  sampler watching = Some 0%nat /\ mounted watching = true /\
  cameraEnabled watching = true /\ isRunning watching = true.
Proof.
  apply (only_installed_loop_writes watching 0 texturedNoDetector
           (setIsUserPresent (Some true) watching) watching_reachable).
  - vm_compute. reflexivity.
  - discriminate.
Defined.

(** *** Asking for the camera *)

(** A click that leaves its handler waiting changes nothing that shows. *)
Lemma step_pending e w c :
  reachable c -> handle e c = Some (setPending (pending c ++ [w]) c) ->
  step e c = Some (setPending (pending c ++ [w]) c).
Proof.
  intros Hreach Hhandle. unfold step. rewrite Hhandle. cbn.
  destruct (mounted c) eqn:Hm; [| reflexivity].
  f_equal. apply commit_settled; try reflexivity.
  exact (sessionHeld_video c (reachable_sessionHeld _ Hreach) Hm).
Qed.

(** The answer to the request made last. *)
Lemma step_answer w a c :
  mounted c = true ->
  step (UserMediaSettles (length (pending c)) a) (setPending (pending c ++ [w]) c)
  = Some (commit c (resume w a c)).
Proof.
  intros Hm. unfold step, handle. cbn [pending setPending].
  rewrite list_lookup_middle by reflexivity.
  rewrite delete_middle, app_nil_r.
  replace (setPending (pending c) (setPending (pending c ++ [w]) c)) with c
    by now destruct c.
  cbn [mbind option_bind].
  destruct (resume_sampling w a c) as [_ ->]. rewrite Hm.
  reflexivity.
Qed.

(** A handler that awaits [getUserMedia] and is answered before anything
    else happens has run to its end: the click with the answer in it is the
    click that leaves the handler waiting followed by the answer. *)
Lemma click_then_answer (c : Component) (a : Completion MediaStream) :
  reachable c -> mounted c = true -> cameraEnabled c = false ->
  run [ClickEnableCameraPending; UserMediaSettles (length (pending c)) a] c
  = step (ClickEnableCamera (settled a)) c /\
  (isRunning c = false ->
   run [ClickTogglePending; UserMediaSettles (length (pending c)) a] c
   = step (ClickToggle (settled a)) c).
Proof.
  intros Hreach Hm Hcam. split; [| intros Hrun].
  - cbn [run]. rewrite (step_pending _ EnableCameraAwaits) by
      (try assumption; unfold handle; now rewrite Hm, Hcam).
    cbn [mbind option_bind]. rewrite step_answer by assumption.
    unfold step, handle, resume. rewrite Hm, Hcam. cbn.
    replace (mounted (handleEnableCamera (settled a) c)) with true
      by (destruct a; cbn; congruence).
    reflexivity.
  - cbn [run]. rewrite (step_pending _ ToggleAwaits) by
      (try assumption; unfold handle; now rewrite Hm, Hrun, Hcam).
    cbn [mbind option_bind]. rewrite step_answer by assumption.
    unfold step, handle, handleToggle, resume. rewrite Hm, Hcam, Hrun. cbn.
    replace (mounted (handleEnableCamera (settled a) c)) with true
      by (destruct a; cbn; congruence).
    reflexivity.
Qed.

(** Start, pressed while stopped with the camera off, asks for the camera
    and waits: until the answer comes nothing changes but the pending
    request, and run is not requested yet. The answer, whenever no other
    event came first, ends the handler as if it had come with the click:
    run is requested then. With a stream the session is watched from then
    on: the camera is enabled, the stream's tracks run beside those that ran
    already, a new sampling loop is installed and the timer waits for its
    first Present sample. With a rejection the error is shown and the timer
    runs ungated; so it does, without waiting, in a browser that has no
    [getUserMedia]. *)
Theorem start_asks_for_camera (c : Component) :
  reachable c -> mounted c = true -> isRunning c = false -> cameraEnabled c = false ->
  step ClickTogglePending c = Some (setPending (pending c ++ [ToggleAwaits]) c) /\
  (forall a, exists c',
     run [ClickTogglePending; UserMediaSettles (length (pending c)) a] c = Some c' /\
     step (ClickToggle (settled a)) c = Some c' /\
     isRunning c' = true /\ seconds c' = seconds c /\ pending c' = pending c /\
     match a with
     | Normal stream =>
         cameraEnabled c' = true /\ streamRef c' = Some stream /\
         live c' = live c ∪ list_to_set stream /\
         videoRef c' = Some {| srcObject := Some stream |} /\
         cameraError c' = None /\ latestSample c' = Unknown /\
         isTimerActive c' = false /\ sampler c' = Some (closures c)
     | Throw _ =>
         cameraEnabled c' = false /\ is_Some (cameraError c') /\
         live c' = live c /\ isTimerActive c' = true /\ sampler c' = None
     end) /\
  (exists c',
     step (ClickToggle ApiMissing) c = Some c' /\
     isRunning c' = true /\ seconds c' = seconds c /\ pending c' = pending c /\
     cameraEnabled c' = false /\ is_Some (cameraError c') /\
     live c' = live c /\ isTimerActive c' = true /\ sampler c' = None).
Proof.
  intros Hreach Hm Hrun Hcam.
  pose proof (reachable_sessionHeld _ Hreach) as (_ & _ & _ & Hvideo & Hpres & _).
  destruct (reachable_invariant _ Hreach) as [_ (_ & _ & _ & Hon)].
  specialize (Hvideo Hm). specialize (Hpres Hcam). rewrite Hcam in Hvideo.
  assert (Hs : sampler c = None).
  { destruct (sampler c) eqn:Hs; [| reflexivity].
    destruct (proj1 (Hon Hm)) as [Habs _]; [eauto | congruence]. }
  assert (Hatomic : forall m c',
            step (ClickToggle m) c = Some c' ->
            c' = commit c (setIsRunning true (handleEnableCamera m c))).
  { intros m c'. unfold step, handle, handleToggle. rewrite Hm, Hrun, Hcam. cbn.
    replace (mounted (handleEnableCamera m c)) with true
      by (destruct m; cbn; congruence).
    now intros [= <-]. }
  assert (Hfacts : forall m,
            let c' := commit c (setIsRunning true (handleEnableCamera m c)) in
            isRunning c' = true /\ seconds c' = seconds c /\ pending c' = pending c /\
            match m with
            | Resolves stream =>
                cameraEnabled c' = true /\ streamRef c' = Some stream /\
                live c' = live c ∪ list_to_set stream /\
                videoRef c' = Some {| srcObject := Some stream |} /\
                cameraError c' = None /\ latestSample c' = Unknown /\
                isTimerActive c' = false /\ sampler c' = Some (closures c)
            | _ =>
                cameraEnabled c' = false /\ is_Some (cameraError c') /\
                live c' = live c /\ isTimerActive c' = true /\ sampler c' = None
            end).
  { intros m c'. subst c'.
    set (c1 := setIsRunning true (handleEnableCamera m c)).
    destruct (commit_state c c1) as (Es & Erun & _ & Ecam & Epres & Eerr & Estream & Elive & _).
    pose proof (commit_samplingOf c c1) as Esampling.
    pose proof (commit_videoRef c c1) as Evideo.
    unfold isTimerActive, isAutoPaused, latestSample.
    rewrite Es, Erun, Ecam, Epres, Eerr, Estream, Elive, commit_pending, Evideo.
    unfold samplingOf in Esampling.
    rewrite bool_decide_eq_false_2 in Esampling
      by (subst c1; rewrite Hrun; cbn; intros [_ [=]]).
    cbv zeta in Esampling. rewrite Hcam.
    subst c1. destruct m as [| stream | err]; cbn in *;
      rewrite ?Hcam, ?Hs, ?Hpres, ?Hvideo in *; cbn in *;
      injection Esampling as ? ? ?; repeat split; eauto. }
  split; [| split].
  - apply step_pending; [assumption |]. unfold handle. now rewrite Hm, Hrun, Hcam.
  - intros a.
    destruct (click_then_answer c a Hreach Hm Hcam) as [_ Hsame].
    specialize (Hsame Hrun).
    destruct (step (ClickToggle (settled a)) c) as [c'|] eqn:Hstep.
    2: { unfold step, handle in Hstep. rewrite Hm in Hstep. discriminate Hstep. }
    exists c'. split; [exact Hsame |]. split; [reflexivity |].
    rewrite (Hatomic _ _ Hstep).
    pose proof (Hfacts (settled a)) as H. cbv zeta in H. destruct a; exact H.
  - destruct (step (ClickToggle ApiMissing) c) as [c'|] eqn:Hstep.
    2: { unfold step, handle in Hstep. rewrite Hm in Hstep. discriminate Hstep. }
    exists c'. split; [reflexivity |].
    rewrite (Hatomic _ _ Hstep).
    pose proof (Hfacts ApiMissing) as H. cbv zeta in H. tauto.
Qed.

Lemma start_asks_for_camera_witness :
  step ClickTogglePending stoppedNoCamera
  = Some (setPending (pending stoppedNoCamera ++ [ToggleAwaits]) stoppedNoCamera) /\
  exists c',
    run [ClickTogglePending; UserMediaSettles 0 (Normal [7%nat])] stoppedNoCamera
    = Some c' /\
    cameraEnabled c' = true /\ live c' = {[ 7%nat ]} /\ sampler c' = Some 0%nat.
Proof.
  destruct (start_asks_for_camera stoppedNoCamera stoppedNoCamera_reachable
              eq_refl eq_refl eq_refl) as (Hwaits & Hanswer & _).
  split; [exact Hwaits |].
  destruct (Hanswer (Normal [7%nat]))
    as (c' & Hrun & _ & _ & _ & _ & Hcam & _ & Hlive & _ & _ & _ & _ & Hsampler).
  exists c'. split; [exact Hrun |]. split; [exact Hcam |].
  split; [| exact Hsampler].
  rewrite Hlive. vm_compute. reflexivity.
Defined.

(** *** Connectivity *)

Lemma resume_isOnline w a c : isOnline (resume w a c) = isOnline c.
Proof. unfold resume. destruct (mounted c), w, a; reflexivity. Qed.

Lemma handle_isOnline e c c1 :
  handle e c = Some c1 ->
  isOnline c1 = match e with Connectivity b => b | _ => isOnline c end.
Proof.
  destruct e as [b|m|m| | |k smp| | | |i a]; simpl; repeat case_match;
    intros [= <-]; rewrite ?resume_isOnline; try reflexivity.
  - now destruct m.
  - unfold handleToggle. destruct (negb (isRunning c)).
    + destruct (negb (cameraEnabled c)); [now destruct m | reflexivity].
    + now rewrite stopTimerAndCamera_fields.
  - match goal with
    | H : checkPresence _ _ _ = Normal _ |- _ =>
        destruct (checkPresence_cases _ _ _ _ H) as [-> | [_ [p ->]]]; reflexivity
    end.
  - now rewrite unmount_fields.
Qed.

Lemma step_isOnline e c c' :
  step e c = Some c' ->
  isOnline c' = match e with Connectivity b => b | _ => isOnline c end.
Proof.
  intros (c1 & Hhandle & Hstate)%step_handle.
  rewrite <- (handle_isOnline _ _ _ Hhandle).
  now apply stateOf_fields in Hstate.
Qed.

(** The indicator mirrors the platform: after any run of events it shows
    what the last online or offline event said, or what it showed before if
    there was none; and such an event changes nothing but the indicator. *)
Theorem indicator_mirrors_platform (c : Component) :
  reachable c ->
  (forall es c', run es c = Some c' -> isOnline c' = lastConnectivity es (isOnline c)) /\
  (forall b, mounted c = true -> step (Connectivity b) c = Some (setIsOnline b c)).
Proof.
  intros Hreach. split.
  - intros es. clear Hreach. revert c.
    induction es as [|e es IH]; intros c c'; simpl.
    + now intros [= <-].
    + destruct (step e c) as [c1|] eqn:Hstep; [| discriminate]. cbn.
      intros Hrun. rewrite (IH _ _ Hrun), (step_isOnline _ _ _ Hstep).
      now destruct e.
  - intros b Hm.
    unfold step, handle. rewrite Hm. cbn. rewrite Hm.
    f_equal. apply commit_settled; try reflexivity.
    exact (sessionHeld_video c (reachable_sessionHeld _ Hreach) Hm).
Qed.

Lemma indicator_mirrors_platform_witness :
  (forall es c', run es watching = Some c' ->
                 isOnline c' = lastConnectivity es (isOnline watching)) /\
  (forall b, mounted watching = true ->
             step (Connectivity b) watching = Some (setIsOnline b watching)).
Proof. apply (indicator_mirrors_platform watching watching_reachable). Defined.

(** *** The seconds of a trace *)

Lemma ticks_nonneg es : (0 <= ticks es)%Z.
Proof. induction es as [|[] ? ?]; simpl; lia. Qed.

Lemma tally_bounds es : forall s,
  (0 <= s)%Z -> (0 <= tally es s <= s + ticks es)%Z.
Proof.
  induction es as [|e es IH]; intros s Hs; simpl; [lia |].
  pose proof ticks_nonneg as Hticks.
  destruct e; try (specialize (IH s Hs); lia).
  - specialize (IH 0%Z ltac:(lia)). specialize (Hticks es). lia.
  - specialize (IH (s + 1)%Z ltac:(lia)). lia.
Qed.

Lemma tally_no_reset es : forall s,
  ClickReset ∉ es -> tally es s = (s + ticks es)%Z.
Proof.
  induction es as [|e es IH]; intros s Hno; simpl; [lia |].
  assert (Hes : ClickReset ∉ es) by (intros ?; apply Hno; now right).
  destruct e; rewrite ?IH by assumption; try lia.
  exfalso. apply Hno. now left.
Qed.

Lemma run_tally es : forall c c',
  run es c = Some c' -> seconds c' = tally es (seconds c).
Proof.
  induction es as [|e es IH]; intros c c'; simpl.
  - now intros [= <-].
  - destruct (step e c) as [c1|] eqn:Hstep; [| discriminate]. cbn.
    intros Hrun. rewrite (IH _ _ Hrun), (step_seconds _ _ _ Hstep).
    now destruct e.
Qed.

(** The seconds shown are the ticks since the last reset: whatever else
    happens in between (clicks, samples, connectivity, the unmount), the
    count after a run of events is the tally of its ticks and resets; it is
    never negative, never more than the ticks added, and exactly the ticks
    added if Reset was not pressed. *)
Theorem seconds_are_ticks_since_reset (es : list Event) (c c' : Component) :
  run es c = Some c' ->
  seconds c' = tally es (seconds c) /\
  ((0 <= seconds c)%Z -> (0 <= seconds c' <= seconds c + ticks es)%Z) /\
  (ClickReset ∉ es -> seconds c' = (seconds c + ticks es)%Z).
Proof.
  intros Hrun. rewrite (run_tally _ _ _ Hrun). split; [reflexivity |]. split.
  - apply tally_bounds.
  - apply tally_no_reset.
Qed.

Lemma seconds_are_ticks_since_reset_witness :
  seconds (setSeconds (fun _ => 2%Z) (setIsOnline false (setIsUserPresent (Some true) watching))) =
  tally [SampleSettles 0 texturedNoDetector; SecondElapsed; Connectivity false;
         SecondElapsed] (seconds watching) /\
  ((0 <= seconds watching)%Z ->
   (0 <= seconds (setSeconds (fun _ => 2%Z) (setIsOnline false (setIsUserPresent (Some true) watching)))
    <= seconds watching +
       ticks [SampleSettles 0 texturedNoDetector; SecondElapsed; Connectivity false;
              SecondElapsed])%Z) /\
  (ClickReset ∉ [SampleSettles 0 texturedNoDetector; SecondElapsed; Connectivity false;
                 SecondElapsed] ->
   seconds (setSeconds (fun _ => 2%Z) (setIsOnline false (setIsUserPresent (Some true) watching))) =
   (seconds watching +
    ticks [SampleSettles 0 texturedNoDetector; SecondElapsed; Connectivity false;
           SecondElapsed])%Z).
Proof.
  apply (seconds_are_ticks_since_reset
           [SampleSettles 0 texturedNoDetector; SecondElapsed; Connectivity false;
            SecondElapsed] watching).
  vm_compute. reflexivity.
Defined.


(** *** Teardown *)

(** Once the variable [cancelled] of a closure is set, a sample of that
    closure that was still in flight changes no state variable when it
    settles, whether it completes or fails, and this stays so after any
    further events. A step that uninstalls the sampler (it is then a press of
    Stop or the unmount) sets that variable and stops every track of the
    stream the component holds. So do the unmount and the press of Stop in
    any reachable state; and if no track ran but those of that stream, none
    runs afterwards. *)
Theorem teardown_cancels_and_releases (c : Component) :
  reachable c ->
  (forall k smp c',
     k ∈ cancelled c -> step (SampleSettles k smp) c = Some c' ->
     stateOf c' = stateOf c /\ isUserPresent c' = isUserPresent c) /\
  (forall k es c1 smp c2,
     k ∈ cancelled c -> run es c = Some c1 ->
     step (SampleSettles k smp) c1 = Some c2 ->
     isUserPresent c2 = isUserPresent c1) /\
  (forall e c' k,
     step e c = Some c' -> sampler c = Some k ->
     sampler c' = Some k \/
     (sampler c' = None /\ k ∈ cancelled c' /\
      (forall stream t, streamRef c = Some stream -> t ∈ stream -> t ∉ live c') /\
      (noLeak c -> live c' = ∅) /\
      (e = Unmount \/ exists m, e = ClickToggle m))) /\
  (forall c',
     step Unmount c = Some c' ->
     (forall stream t, streamRef c = Some stream -> t ∈ stream -> t ∉ live c') /\
     (noLeak c -> live c' = ∅) /\ sampler c' = None /\
     forall k, sampler c = Some k -> k ∈ cancelled c') /\
  (forall m c',
     isRunning c = true -> step (ClickToggle m) c = Some c' ->
     (forall stream t, streamRef c = Some stream -> t ∈ stream -> t ∉ live c') /\
     (noLeak c -> live c' = ∅) /\ sampler c' = None /\
     cameraEnabled c' = false /\ streamRef c' = None /\
     forall k, sampler c = Some k -> k ∈ cancelled c').
Proof.
  intros Hreach. pose proof (reachable_invariant _ Hreach) as [_ Hsampling].
  assert (Hdiscard : forall c0 k smp c',
            k ∈ cancelled c0 -> step (SampleSettles k smp) c0 = Some c' ->
            stateOf c' = stateOf c0 /\ isUserPresent c' = isUserPresent c0).
  { intros c0 k smp c' Hk Hstep.
    pose proof (step_sample_cancelled _ _ _ _ Hk Hstep) as Hstate.
    split; [exact Hstate |]. now apply stateOf_fields in Hstate. }
  assert (Hgone : forall e c' k,
            step e c = Some c' -> sampler c = Some k -> sampler c' = None ->
            k ∈ cancelled c').
  { intros e c' k Hstep Hsampler Hnone.
    destruct (step_teardown _ _ _ _ Hsampling Hstep Hsampler)
      as [Hkept | (_ & Hk & _)]; [congruence | exact Hk]. }
  split; [intros k smp c'; apply Hdiscard |].
  split.
  { intros k es c1 smp c2 Hk Hrun Hstep.
    apply (Hdiscard c1 k smp c2); [| exact Hstep].
    eapply run_cancelled; eauto. }
  split; [intros e c' k; now apply step_teardown |].
  split.
  - intros c' Hstep.
    pose proof (step_samplingHeld _ _ _ Hsampling Hstep) as (_ & _ & Hsun' & _).
    assert (Hunmounted :
              mounted c = true /\ mounted c' = false /\ live c' = live (unmount c)).
    { apply step_handle in Hstep as (c1 & Hhandle & Hstate).
      unfold handle in Hhandle. destruct (mounted c); [| discriminate].
      injection Hhandle as <-.
      apply stateOf_fields in Hstate as (_ & _ & _ & _ & _ & _ & _ & Hl & Hm').
      split; [reflexivity |].
      split; [rewrite Hm'; now rewrite unmount_fields | exact Hl]. }
    destruct Hunmounted as (Hm & Hm' & Hl).
    rewrite unmount_fields in Hl. cbn [live] in Hl.
    destruct (released_tracks c _ Hl) as [Hheld Hnone].
    split; [exact Hheld |]. split; [now apply Hnone |]. split; [auto |].
    intros k Hsampler. eapply Hgone; eauto.
  - intros m c' Hrun Hstep.
    pose proof (step_samplingHeld _ _ _ Hsampling Hstep) as (_ & _ & _ & Hon').
    assert (Hstopped : mounted c = true /\ mounted c' = true /\
                       cameraEnabled c' = false /\ streamRef c' = None /\
                       live c' = live (stopTimerAndCamera c)).
    { apply step_handle in Hstep as (c1 & Hhandle & Hstate).
      unfold handle in Hhandle. destruct (mounted c) eqn:Hm; [| discriminate].
      injection Hhandle as <-. unfold handleToggle in Hstate.
      rewrite Hrun in Hstate. cbn [negb] in Hstate.
      apply stateOf_fields in Hstate as (_ & _ & _ & Hcam' & _ & _ & Hs' & Hl & Hm').
      rewrite stopTimerAndCamera_fields in Hcam', Hs', Hm'. cbn in Hcam', Hs', Hm'.
      repeat split; congruence. }
    destruct Hstopped as (Hm & Hm' & Hcam' & Hs' & Hl).
    rewrite stopTimerAndCamera_fields in Hl. cbn [live] in Hl.
    destruct (released_tracks c _ Hl) as [Hheld Hnone].
    assert (Hnot : sampler c' = None).
    { destruct (sampler c') as [j|] eqn:Hj; [| reflexivity].
      destruct (proj1 (Hon' Hm')) as [Hc _]; [eauto | congruence]. }
    split; [exact Hheld |]. split; [now apply Hnone |].
    split; [exact Hnot |]. split; [exact Hcam' |]. split; [exact Hs' |].
    intros k Hsampler. eapply Hgone; eauto.
Qed.

Lemma teardown_cancels_and_releases_witness :
  exists c',
    step Unmount watching = Some c' /\
    live c' = ∅ /\ sampler c' = None /\ 0%nat ∈ cancelled c'.
Proof.
  destruct (teardown_cancels_and_releases watching watching_reachable)
    as (_ & _ & _ & Hunmount & _).
  eexists. split; [reflexivity |].
  destruct (Hunmount _ eq_refl) as (_ & Hlive & Hsampler & Hcancelled).
  split; [apply Hlive; reflexivity |]. split; [exact Hsampler |].
  apply Hcancelled. reflexivity.
Defined.

(** *** Tracks that no one holds *)

Lemma handle_noLeak e c c1 :
  handle e c = Some c1 -> e <> Unmount -> mounted c = true ->
  tracksHeld c -> noLeak c ->
  live c1 = tracksOf (streamRef c1) \/
  exists i stream, e = UserMediaSettles i (Normal stream) /\ is_Some (streamRef c).
Proof.
  intros Hhandle Hne Hm [_ Hstream] Hlive.
  specialize (Hstream Hm). unfold noLeak in Hlive. rewrite Hm in Hlive.
  assert (Hanswer : forall m d,
            streamRef c = None ->
            d = handleEnableCamera m c \/ d = setIsRunning true (handleEnableCamera m c) ->
            live d = tracksOf (streamRef d)).
  { intros m d Hnone Hd.
    assert (Hempty : live c = ∅) by now rewrite Hlive, Hnone.
    destruct m as [|stream|err]; destruct Hd as [-> | ->]; cbn;
      rewrite ?Hempty, ?Hnone; try reflexivity; apply (left_id_L ∅ (∪)). }
  destruct e as [onLine|m|m| | |k smp| | | |i a];
    unfold handle in Hhandle; rewrite ?Hm in Hhandle; cbn [andb] in Hhandle.
  - injection Hhandle as <-. now left.
  - destruct (cameraEnabled c) eqn:Ecam; [discriminate |]. cbn [negb] in Hhandle.
    injection Hhandle as <-. left. apply (Hanswer m); auto.
  - injection Hhandle as <-. left. unfold handleToggle.
    destruct (isRunning c) eqn:Erun; cbn [negb].
    + rewrite stopTimerAndCamera_fields. cbn.
      rewrite Hlive. destruct (streamRef c) as [stream|]; cbn; [| reflexivity].
      rewrite stopTracks_difference. apply difference_diag_L.
    + destruct (cameraEnabled c) eqn:Ecam; cbn [negb]; [exact Hlive |].
      apply (Hanswer m); auto.
  - injection Hhandle as <-. now left.
  - destruct (isTimerActive c); [| discriminate]. injection Hhandle as <-.
    now left.
  - case_bool_decide as Hk; [| discriminate].
    destruct (checkPresence _ smp c) as [c2|err] eqn:Hcheck;
      injection Hhandle as <-; [| now left].
    destruct (checkPresence_cases _ _ _ _ Hcheck) as [-> | [_ [p ->]]]; now left.
  - now destruct Hne.
  - destruct (negb (cameraEnabled c)); [| discriminate].
    injection Hhandle as <-. now left.
  - destruct (negb (isRunning c) && negb (cameraEnabled c)); [| discriminate].
    injection Hhandle as <-. now left.
  - destruct (pending c !! i) as [w|]; [| discriminate]. injection Hhandle as <-.
    unfold resume. cbn [mounted setPending]. rewrite Hm.
    destruct (streamRef c) as [held|] eqn:Hheld.
    + destruct a as [stream|err]; [right; eauto |].
      left. destruct w; cbn; now rewrite Hheld.
    + left.
      assert (Hd := Hanswer (settled a)
                (match w with
                 | EnableCameraAwaits => handleEnableCamera (settled a) c
                 | ToggleAwaits => setIsRunning true (handleEnableCamera (settled a) c)
                 end) eq_refl).
      destruct w, a; cbn in *; apply Hd; auto.
Qed.

(** A track can only come to run unheld through an answer of [getUserMedia]
    that brings a stream when the component is already unmounted or already
    holds one: every other step of a component that holds all the running
    tracks leaves it holding them all. And such an answer does what it says:
    its stream is put in the ref, over the one that was there, and its tracks
    run beside those that ran. *)
Theorem tracks_leak_only_by_late_answer (c : Component) :
  reachable c ->
  (forall e c',
     noLeak c -> step e c = Some c' ->
     noLeak c' \/
     exists i stream, e = UserMediaSettles i (Normal stream) /\
                      (mounted c = false \/ is_Some (streamRef c))) /\
  (forall i stream c',
     step (UserMediaSettles i (Normal stream)) c = Some c' ->
     streamRef c' = Some stream /\ live c' = live c ∪ list_to_set stream).
Proof.
  intros Hreach. split.
  - intros e c' Hleak Hstep.
    destruct (mounted c) eqn:Hm.
    2: { destruct (step_unmounted e c c' (reachable_sessionHeld _ Hreach)
                     (proj2 (reachable_invariant _ Hreach)) Hm Hstep)
           as (Hsame & _ & [[_ ->] | (i & a & -> & _ & _ & Ha)]); [now left |].
         destruct a as [stream|err]; [right; eauto |]. left.
         apply settledOf_fields in Hsame
           as (_ & _ & _ & _ & _ & _ & _ & _ & _ & _ & Hm').
         destruct Ha as [_ Hl]. unfold noLeak in *.
         rewrite Hm', Hl, Hm. now rewrite Hm in Hleak. }
    assert (Hcase : e = Unmount \/ e <> Unmount)
      by (destruct e; auto; right; discriminate).
    destruct Hcase as [-> | Hne].
    + left. unfold step, handle in Hstep. rewrite Hm in Hstep.
      cbn [mbind option_bind] in Hstep.
      assert (Hmu : mounted (unmount c) = false)
        by (rewrite unmount_fields; reflexivity).
      rewrite Hmu in Hstep. injection Hstep as <-.
      unfold noLeak. rewrite Hmu.
      assert (Hl : live (unmount c)
                   = match streamRef c with
                     | Some stream => stopTracks stream (live c)
                     | None => live c
                     end) by now rewrite unmount_fields.
      now apply (released_tracks c _ Hl).
    + unfold step in Hstep.
      destruct (handle e c) as [c1|] eqn:Hhandle; [| discriminate].
      cbn in Hstep. injection Hstep as <-.
      destruct (handle_sampling _ _ _ Hhandle Hne) as [_ Hm1].
      rewrite Hm in Hm1. rewrite Hm1.
      destruct (handle_noLeak _ _ _ Hhandle Hne Hm
                  (proj1 (reachable_invariant _ Hreach)) Hleak)
        as [Hlive1 | (i & stream & -> & Hheld)]; [left | right; eauto].
      pose proof (commit_stateOf c c1) as Hstate.
      apply stateOf_fields in Hstate as (_ & _ & _ & _ & _ & _ & Es & El & Em).
      unfold noLeak. now rewrite Es, El, Em, Hm1.
  - intros i stream c' (c1 & Hhandle & Hstate)%step_handle.
    apply stateOf_fields in Hstate as (_ & _ & _ & _ & _ & _ & -> & -> & _).
    unfold handle in Hhandle.
    destruct (pending c !! i) as [w|]; [| discriminate]. injection Hhandle as <-.
    unfold resume. cbn [mounted setPending].
    destruct (mounted c), w; split; reflexivity.
Qed.

Lemma tracks_leak_only_by_late_answer_witness :
  noLeak watching /\
  forall e c', step e watching = Some c' ->
    noLeak c' \/
    exists i stream, e = UserMediaSettles i (Normal stream) /\
                     (mounted watching = false \/ is_Some (streamRef watching)).
Proof.
  split; [reflexivity |].
  intros e c'.
  apply (proj1 (tracks_leak_only_by_late_answer watching watching_reachable)).
  reflexivity.
Defined.

(** *** Counting, in time *)

Lemma stateOf_timer c c' :
  stateOf c' = stateOf c ->
  mounted c' && isTimerActive c' = mounted c && isTimerActive c.
Proof.
  intros (_ & Hrun & _ & Hcam & Hpres & _ & _ & _ & Hm)%stateOf_fields.
  unfold isTimerActive, isAutoPaused. now rewrite Hrun, Hcam, Hpres, Hm.
Qed.

(** The events that leave the timer as it is. *)
Lemma step_keeps_timer e c c' :
  step e c = Some c' ->
  match e with
  | SecondElapsed | Connectivity _ | ClickReset => True
  | _ => False
  end ->
  mounted c' && isTimerActive c' = mounted c && isTimerActive c.
Proof.
  intros (c1 & Hhandle & Hstate)%step_handle He.
  rewrite (stateOf_timer _ _ Hstate).
  destruct e; try contradiction; unfold handle in Hhandle.
  - destruct (mounted c) eqn:Hm; [| discriminate]. injection Hhandle as <-.
    cbn. now rewrite Hm.
  - destruct (mounted c) eqn:Hm; [| discriminate]. injection Hhandle as <-.
    cbn. now rewrite Hm.
  - destruct (mounted c && isTimerActive c) eqn:Hon; [| discriminate].
    injection Hhandle as <-. exact Hon.
Qed.

Lemma timerEffect_held {H} (c : Component) (st : H) (before : option Z) :
  (0 <= default 0 before <= period)%Z ->
  timerHeld {| component := c; host := st; sinceInstalled := timerEffect before c |}.
Proof.
  intros Hrange. unfold timerHeld, timerEffect. cbn.
  destruct (mounted c && isTimerActive c) eqn:Hactive; cbn; [| reflexivity].
  apply andb_true_iff in Hactive as [Hm Hon]. auto.
Qed.

Lemma timerHeld_since {H} (s : Hosted H) :
  timerHeld s -> (0 <= since s <= period)%Z.
Proof.
  unfold timerHeld, since, period.
  destruct (sinceInstalled s); cbn; [intros (_ & _ & ?); assumption | lia].
Qed.

(** The component in a host does what it does alone: the host only decides
    when the interval may call back. *)
Lemma hostStep_component {H} (h : Host H) e s s' :
  hostStep h e s = Some s' ->
  run (componentEvents [e]) (component s) = Some (component s').
Proof.
  destruct e as [ms| e |]; cbn [hostStep].
  - change (componentEvents [Wait ms]) with (@nil Event). cbn [run].
    destruct (0 <? ms)%Z; [| discriminate].
    destruct (sinceInstalled s) as [t|]; [| now intros [= <-]].
    destruct (t + ms <=? period)%Z; [| discriminate]. now intros [= <-].
  - change (componentEvents [At e]) with [e]. cbn [run].
    destruct e;
      try (case_bool_decide; [| discriminate]);
      (destruct (step _ (component s)) as [c'|]; [| discriminate]);
      cbn; now intros [= <-].
  - change (componentEvents [HostRenders]) with (@nil Event). cbn [run].
    now intros [= <-].
Qed.

Lemma componentEvents_cons e es :
  componentEvents (e :: es) = componentEvents [e] ++ componentEvents es.
Proof. unfold componentEvents. now destruct e. Qed.

Lemma run_app es es' c : run (es ++ es') c = c1 ← run es c; run es' c1.
Proof.
  revert c. induction es as [|e es IH]; intros c; cbn [app run]; [reflexivity |].
  destruct (step e c) as [c1|]; [apply IH | reflexivity].
Qed.

Lemma hostRun_run {H} (h : Host H) es : forall s s',
  hostRun h es s = Some s' ->
  run (componentEvents es) (component s) = Some (component s').
Proof.
  induction es as [|e es IH]; intros s s'; cbn [hostRun].
  - now intros [= <-].
  - destruct (hostStep h e s) as [s1|] eqn:Hstep; [| discriminate].
    cbn [mbind option_bind].
    intros Hrun. apply hostStep_component in Hstep. apply IH in Hrun.
    rewrite componentEvents_cons, run_app, Hstep. exact Hrun.
Qed.

(** What one step does to the interval: it never counts a second that has
    not passed in full since the interval was installed or last called. *)
Lemma hostStep_timer {H} (h : Host H) e s s' :
  timerHeld s -> hostStep h e s = Some s' ->
  timerHeld s' /\
  (period * ticks (componentEvents [e]) + since s' <= since s + waited [e])%Z.
Proof.
  intros Hheld. pose proof (timerHeld_since s Hheld) as Hsince.
  assert (Hzero : (0 <= default 0 (@None Z) <= period)%Z) by (cbn; unfold period; lia).
  destruct e as [ms| e |]; cbn [hostStep].
  - destruct (0 <? ms)%Z eqn:Hms; [| discriminate]. apply Z.ltb_lt in Hms.
    unfold timerHeld, since in *.
    destruct (sinceInstalled s) as [t|] eqn:Ht.
    + destruct (t + ms <=? period)%Z eqn:Hle; [| discriminate].
      apply Z.leb_le in Hle. intros [= <-]. cbn in *.
      split; [repeat split; try tauto; lia | lia].
    + intros [= <-]. rewrite Ht. cbn. split; [exact Hheld | lia].
  - assert (Hother : forall c',
              timerHeld {| component := c'; host := host s;
                           sinceInstalled := timerEffect (sinceInstalled s) c' |} /\
              (default 0 (timerEffect (sinceInstalled s) c') <= since s)%Z).
    { intros c'. split; [apply timerEffect_held; exact Hsince |].
      unfold since, timerEffect.
      destruct (mounted c' && isTimerActive c'); cbn; [lia | tauto]. }
    destruct e; try (destruct (step _ (component s)) as [c'|]; [| discriminate];
                     cbn; intros [= <-];
                     destruct (Hother c') as [Hh Hle]; split; [exact Hh |];
                     cbn [componentEvents omap ticks waited]; cbn; lia).
    case_bool_decide as Hdue; [| discriminate].
    destruct (step SecondElapsed (component s)) as [c'|]; [| discriminate].
    cbn. intros [= <-]. split; [apply timerEffect_held; exact Hzero |].
    unfold since at 2. rewrite Hdue. unfold since, timerEffect. cbn.
    destruct (mounted c' && isTimerActive c'); cbn; lia.
  - intros [= <-]. destruct (freshCallback h).
    + split; [apply timerEffect_held; exact Hzero |].
      unfold since at 1, timerEffect. cbn.
      destruct (mounted (component s) && isTimerActive (component s)); cbn; lia.
    + split; [exact Hheld |]. unfold since. cbn. lia.
Qed.

Lemma ticks_app es es' : ticks (es ++ es') = (ticks es + ticks es')%Z.
Proof. induction es as [|[] es IH]; cbn; lia. Qed.

Lemma waited_cons e es : waited (e :: es) = (waited [e] + waited es)%Z.
Proof. destruct e; cbn; lia. Qed.

Lemma hostRun_timer {H} (h : Host H) es : forall s s',
  timerHeld s -> hostRun h es s = Some s' ->
  timerHeld s' /\
  (period * ticks (componentEvents es) + since s' <= since s + waited es)%Z.
Proof.
  induction es as [|e es IH]; intros s s' Hheld; cbn [hostRun].
  - intros [= <-]. split; [exact Hheld | cbn; lia].
  - destruct (hostStep h e s) as [s1|] eqn:Hstep; [| discriminate].
    cbn [mbind option_bind].
    intros Hrun.
    destruct (hostStep_timer h e s s1 Hheld Hstep) as [Hheld1 Hle1].
    destruct (IH s1 s' Hheld1 Hrun) as [Hheld' Hle].
    split; [exact Hheld' |].
    rewrite componentEvents_cons, ticks_app, waited_cons. lia.
Qed.

(** With a callback that stays the same function, or a host that does not
    render, a running timer loses no time. *)
Lemma hostStep_exact {H} (h : Host H) e s s' :
  timerHeld s -> is_Some (sinceInstalled s) ->
  keepsTimer e = true -> freshCallback h = false \/ e <> HostRenders ->
  hostStep h e s = Some s' ->
  is_Some (sinceInstalled s') /\
  (period * ticks (componentEvents [e]) + since s' = since s + waited [e])%Z.
Proof.
  intros Hheld [t Ht] Hkeeps Hsteady.
  unfold timerHeld in Hheld. rewrite Ht in Hheld.
  destruct Hheld as (Hm & Hactive & Hrange).
  assert (Hon : mounted (component s) && isTimerActive (component s) = true)
    by now rewrite Hm, Hactive.
  destruct e as [ms| e |]; cbn [hostStep].
  - rewrite Ht. destruct (0 <? ms)%Z; [| discriminate].
    destruct (t + ms <=? period)%Z; [| discriminate].
    intros [= <-]. unfold since. rewrite Ht. cbn. split; [eauto | lia].
  - destruct e; try discriminate Hkeeps.
    + destruct (step _ (component s)) as [c'|] eqn:Hstep; [| discriminate].
      cbn. intros [= <-]. unfold since, timerEffect. cbn.
      rewrite (step_keeps_timer _ _ _ Hstep I), Hon, Ht. cbn. split; [eauto | lia].
    + destruct (step _ (component s)) as [c'|] eqn:Hstep; [| discriminate].
      cbn. intros [= <-]. unfold since, timerEffect. cbn.
      rewrite (step_keeps_timer _ _ _ Hstep I), Hon, Ht. cbn. split; [eauto | lia].
    + case_bool_decide as Hdue; [| discriminate].
      destruct (step _ (component s)) as [c'|] eqn:Hstep; [| discriminate].
      cbn. intros [= <-]. unfold since, timerEffect. cbn.
      rewrite (step_keeps_timer _ _ _ Hstep I), Hon, Hdue. cbn.
      split; [eauto | unfold period; lia].
  - destruct Hsteady as [-> | Hne]; [| now destruct Hne].
    intros [= <-]. unfold since. cbn. rewrite Ht. cbn. split; [eauto | lia].
Qed.

Lemma hostRun_exact {H} (h : Host H) es : forall s s',
  timerHeld s -> is_Some (sinceInstalled s) ->
  Forall (fun e => keepsTimer e = true) es ->
  freshCallback h = false \/ HostRenders ∉ es ->
  hostRun h es s = Some s' ->
  (period * ticks (componentEvents es) + since s' = since s + waited es)%Z.
Proof.
  induction es as [|e es IH]; intros s s' Hheld Hon Hes Hsteady; cbn [hostRun].
  - intros [= <-]. cbn. lia.
  - destruct (hostStep h e s) as [s1|] eqn:Hstep; [| discriminate].
    cbn [mbind option_bind].
    intros Hrun. apply Forall_cons in Hes as [He Hes].
    assert (Hsteady1 : freshCallback h = false \/ e <> HostRenders).
    { destruct Hsteady as [? | Hno]; [now left | right].
      intros ->. apply Hno. now left. }
    assert (Hsteady' : freshCallback h = false \/ HostRenders ∉ es).
    { destruct Hsteady as [? | Hno]; [now left | right].
      intros Hin. apply Hno. now right. }
    destruct (hostStep_exact h e s s1 Hheld Hon He Hsteady1 Hstep) as [Hon1 Heq1].
    destruct (hostStep_timer h e s s1 Hheld Hstep) as [Hheld1 _].
    pose proof (IH s1 s' Hheld1 Hon1 Hes Hsteady' Hrun) as Heq.
    rewrite componentEvents_cons, ticks_app, waited_cons. lia.
Qed.

(** The timer counts whole seconds of its interval. Over any run of the
    component in a host, the component does what its own events do to it;
    the seconds the interval has counted, with the time it has run since,
    never exceed the time that has passed. While nothing but time, the
    interval's calls, connectivity and Reset happen to a running timer, and
    the callback stays the same function or the host does not render, no time
    is lost: the interval has called back once for each full second. *)
Theorem counts_whole_seconds
  {H : Type} (h : Host H) (es : list HostEvent) (s s' : Hosted H) :
  timerHeld s -> hostRun h es s = Some s' ->
  timerHeld s' /\
  run (componentEvents es) (component s) = Some (component s') /\
  seconds (component s') = tally (componentEvents es) (seconds (component s)) /\
  (period * ticks (componentEvents es) + since s' <= since s + waited es)%Z /\
  (is_Some (sinceInstalled s) ->
   Forall (fun e => keepsTimer e = true) es ->
   freshCallback h = false \/ HostRenders ∉ es ->
   (period * ticks (componentEvents es) + since s' = since s + waited es)%Z).
Proof.
  intros Hheld Hrun.
  destruct (hostRun_timer h es s s' Hheld Hrun) as [Hheld' Hle].
  pose proof (hostRun_run h es s s' Hrun) as Hcomponent.
  split; [exact Hheld' |]. split; [exact Hcomponent |].
  split; [now apply run_tally |]. split; [exact Hle |].
  intros Hon Hes Hsteady. now apply (hostRun_exact h es s s').
Qed.

Lemma counts_whole_seconds_witness :
  exists s',
    hostRun noCallback
      [Wait 1000; At SecondElapsed; Wait 1000; At SecondElapsed; Wait 500]
      (hostMount true tt) = Some s' /\
    seconds (component s') = 2%Z /\
    (period * 2 + since s' = 0 + 2500)%Z.
Proof.
  eexists. split; [vm_compute; reflexivity |].
  destruct (counts_whole_seconds noCallback
              [Wait 1000; At SecondElapsed; Wait 1000; At SecondElapsed; Wait 500]
              (hostMount true tt) _
              (conj eq_refl (conj eq_refl (conj (Zle_bool_imp_le 0 0 eq_refl)
                                                (Zle_bool_imp_le 0 1000 eq_refl))))
              eq_refl)
    as (_ & _ & Hseconds & _ & Hexact).
  split; [exact Hseconds |].
  apply Hexact.
  - eexists. reflexivity.
  - repeat constructor.
  - left. reflexivity.
Defined.

End StudyPresenceSessionFacts.

(** ** The dashboard *)

Module DashboardFacts.
Import StudyPresence StudyPresenceView StudyPresenceSessionFacts Dashboard.

(** *** Lists *)

Lemma filter_sublist {A} (f : A -> bool) (l : list A) : sublist (List.filter f l) l.
Proof.
  induction l as [|x l IH]; simpl; [constructor |].
  destruct (f x); now constructor.
Qed.

Lemma filter_idem {A} (f : A -> bool) (l : list A) :
  List.filter f (List.filter f l) = List.filter f l.
Proof.
  induction l as [|x l IH]; simpl; [reflexivity |].
  destruct (f x) eqn:Hx; simpl; rewrite ?Hx, IH; reflexivity.
Qed.

Lemma filter_comm {A} (f g : A -> bool) (l : list A) :
  List.filter f (List.filter g l) = List.filter g (List.filter f l).
Proof.
  induction l as [|x l IH]; simpl; [reflexivity |].
  destruct (f x) eqn:Hf, (g x) eqn:Hg; simpl; rewrite ?Hf, ?Hg, IH; reflexivity.
Qed.

Lemma elem_of_filter {A} (f : A -> bool) (l : list A) (x : A) :
  x ∈ List.filter f l <-> x ∈ l /\ f x = true.
Proof. rewrite !list_elem_of_In. apply filter_In. Qed.

Lemma filter_length_le {A} (f : A -> bool) (l : list A) :
  List.length (List.filter f l) <= List.length l.
Proof. apply sublist_length, filter_sublist. Qed.

Lemma filter_all {A} (f : A -> bool) (l : list A) :
  List.length (List.filter f l) = List.length l <-> Forall (fun x => f x = true) l.
Proof.
  induction l as [|x l IH]; simpl.
  - split; [constructor | reflexivity].
  - destruct (f x) eqn:Hx; simpl.
    + rewrite Forall_cons. split.
      * intros [= H]. split; [assumption | now apply IH].
      * intros [_ H]. f_equal. now apply IH.
    + pose proof (filter_length_le f l) as Hle. split; [lia |].
      intros [Hfx _]%Forall_cons. congruence.
Qed.

Lemma truthy_Some (s : string) : truthy (Some s) = true <-> s <> "".
Proof.
  simpl. destruct (String.eqb_spec s ""); simpl; split; congruence.
Qed.

Lemma categories_elem (fs : list Flashcard) (cat : string) :
  cat ∈ categories fs <->
  cat <> "" /\ exists card, card ∈ fs /\ category card = Some cat.
Proof.
  unfold categories, arrayFromSet.
  assert (Hfold : forall vs set, cat ∈ foldl setAdd set vs <-> cat ∈ set \/ cat ∈ vs).
  { induction vs as [|v vs IH]; intros set; simpl.
    - rewrite elem_of_nil. tauto.
    - rewrite IH, elem_of_cons. unfold setAdd. case_bool_decide.
      + split; [tauto |]. intros [? | [-> | ?]]; auto.
      + rewrite elem_of_app, list_elem_of_singleton. tauto. }
  rewrite Hfold, elem_of_nil. unfold filterBoolean. rewrite list_elem_of_omap.
  split.
  - intros [[] | (v & Hv & Hcat)].
    destruct (truthy v) eqn:Htruthy; [| discriminate]. subst v.
    apply truthy_Some in Htruthy. split; [assumption |].
    apply list_elem_of_In, in_map_iff in Hv as (card & Hcard & Hin).
    exists card. now rewrite list_elem_of_In.
  - intros (Hne & card & Hin & Hcard). right. exists (Some cat). split.
    + apply list_elem_of_In, in_map_iff. exists card. now rewrite <- list_elem_of_In.
    + now rewrite (proj2 (truthy_Some cat) Hne).
Qed.

(** *** The filtered list *)

Section Filter.

Variable toLowerCase : string -> string.
Variable includes : string -> string -> bool.

(** The list shown is a selection of the cards, in their order; with no
    search term and no category it is all the cards; when a category is
    selected, every card shown is of that category; filtering what is shown
    again changes nothing; and a category of the drop-down, selected with no
    search term, shows exactly that category's cards, of which there is at
    least one. *)
Theorem filtered_is_a_selection
  (fs : list Flashcard) (searchTerm selectedCategory : string) :
  sublist (filteredFlashcards toLowerCase includes fs searchTerm selectedCategory) fs /\
  filteredFlashcards toLowerCase includes fs "" "" = fs /\
  (selectedCategory <> "" ->
   Forall (fun card => category card = Some selectedCategory)
          (filteredFlashcards toLowerCase includes fs searchTerm selectedCategory)) /\
  filteredFlashcards toLowerCase includes
    (filteredFlashcards toLowerCase includes fs searchTerm selectedCategory)
    searchTerm selectedCategory =
  filteredFlashcards toLowerCase includes fs searchTerm selectedCategory /\
  (selectedCategory ∈ categories fs ->
   filteredFlashcards toLowerCase includes fs "" selectedCategory = catCards fs selectedCategory /\
   filteredFlashcards toLowerCase includes fs "" selectedCategory <> []).
Proof.
  unfold filteredFlashcards. split; [| split; [| split; [| split]]].
  - destruct (truthy (Some searchTerm)), (truthy (Some selectedCategory));
      try reflexivity; try apply filter_sublist.
    etransitivity; apply filter_sublist.
  - reflexivity.
  - intros Hne. rewrite (proj2 (truthy_Some _) Hne).
    apply Forall_forall. intros card [_ Hcat]%elem_of_filter.
    unfold inCategory in Hcat. now apply bool_decide_eq_true in Hcat.
  - destruct (truthy (Some searchTerm)), (truthy (Some selectedCategory));
      try reflexivity; try apply filter_idem.
    set (f := matchesSearch _ _ _). set (g := inCategory _).
    now rewrite (filter_comm f g (List.filter f fs)), !filter_idem.
  - intros (Hne & card & Hin & Hcat)%categories_elem.
    rewrite (proj2 (truthy_Some _) Hne). simpl. split; [reflexivity |].
    intros Hnil. assert (Hcard : card ∈ List.filter (inCategory selectedCategory) fs).
    { apply elem_of_filter. split; [assumption |]. unfold inCategory.
      now apply bool_decide_eq_true. }
    rewrite Hnil in Hcard. now apply elem_of_nil in Hcard.
Qed.

End Filter.

(** *** Categories *)

Lemma arrayFromSet_NoDup (values : list string) : NoDup (arrayFromSet values).
Proof.
  unfold arrayFromSet.
  assert (Hfold : forall vs set, NoDup set -> NoDup (foldl setAdd set vs)).
  { induction vs as [|v vs IH]; intros set Hset; simpl; [assumption |].
    apply IH. unfold setAdd. case_bool_decide; [assumption |].
    apply NoDup_app. split; [assumption |]. split; [| apply NoDup_singleton].
    intros x Hx ->%list_elem_of_singleton. contradiction. }
  apply Hfold. constructor.
Qed.

Lemma inCategory_count (cats : list string) (card : Flashcard) :
  NoDup cats ->
  list_sum (List.map (fun cat => if inCategory cat card then 1 else 0) cats) =
  if inCategories cats card then 1 else 0.
Proof.
  unfold inCategories, inCategory.
  induction 1 as [|cat cats Hnotin Hnodup IH]; simpl.
  - now destruct (category card).
  - rewrite IH. destruct (category card) as [cat'|]; simpl.
    + destruct (decide (cat' = cat)) as [-> | Hne].
      * rewrite bool_decide_eq_true_2 by reflexivity.
        rewrite bool_decide_eq_false_2 by assumption.
        rewrite bool_decide_eq_true_2 by (now left). reflexivity.
      * rewrite (bool_decide_eq_false_2 (Some cat' = Some cat)) by congruence.
        destruct (decide (cat' ∈ cats)) as [Hin | Hin].
        -- rewrite !bool_decide_eq_true_2; [reflexivity | now right | assumption].
        -- rewrite !bool_decide_eq_false_2; [reflexivity | | assumption].
           intros [-> | ?]%elem_of_cons; contradiction.
    + reflexivity.
Qed.

(** Counting the cards category by category counts each card whose category
    is among them once. *)
Lemma catCards_partition (cats : list string) (fs : list Flashcard) :
  NoDup cats ->
  list_sum (List.map (fun cat => List.length (catCards fs cat)) cats) =
  List.length (List.filter (inCategories cats) fs).
Proof.
  intros Hnodup. induction fs as [|card fs IH]; simpl.
  - induction cats; simpl; auto. apply IHcats. now apply NoDup_cons_1_2 in Hnodup.
  - transitivity
      (list_sum (List.map (fun cat => if inCategory cat card then 1 else 0) cats) +
       list_sum (List.map (fun cat => List.length (catCards fs cat)) cats)).
    + clear. induction cats as [|cat cats IH]; simpl; [reflexivity |].
      rewrite IH. unfold catCards at 1. simpl.
      destruct (inCategory cat card); simpl; unfold catCards; lia.
    + rewrite IH, inCategory_count by assumption.
      destruct (inCategories cats card); reflexivity.
Qed.

Lemma filter_ext_in {A} (f g : A -> bool) (l : list A) :
  (forall x, x ∈ l -> f x = g x) -> List.filter f l = List.filter g l.
Proof.
  intros H. apply List.filter_ext_in. intros x Hx. apply H. now apply list_elem_of_In.
Qed.

Lemma inCategories_categorised (fs : list Flashcard) (card : Flashcard) :
  card ∈ fs -> inCategories (categories fs) card = categorised card.
Proof.
  intros Hin. unfold inCategories, categorised.
  destruct (category card) as [cat|] eqn:Hcat; [| reflexivity].
  destruct (truthy (Some cat)) eqn:Htruthy.
  - apply bool_decide_eq_true_2, categories_elem.
    split; [now apply truthy_Some | eauto].
  - apply bool_decide_eq_false_2. intros [Hne _]%categories_elem.
    apply truthy_Some in Hne. congruence.
Qed.

Lemma catCards_nonempty (fs : list Flashcard) (cat : string) :
  cat ∈ categories fs -> 1 <= List.length (catCards fs cat).
Proof.
  intros (_ & card & Hin & Hcat)%categories_elem.
  assert (Hcard : card ∈ catCards fs cat).
  { apply elem_of_filter. split; [assumption |]. now apply bool_decide_eq_true_2. }
  destruct (catCards fs cat); [now apply elem_of_nil in Hcard | simpl; lia].
Qed.

Lemma categorised_partition (fs : list Flashcard) :
  list_sum (List.map (fun cat => List.length (catCards fs cat)) (categories fs)) =
  List.length (List.filter categorised fs).
Proof.
  rewrite catCards_partition by apply arrayFromSet_NoDup.
  f_equal. apply filter_ext_in. intros card. apply inCategories_categorised.
Qed.

(** The categories offered are the non-empty categories of the cards, each
    once; the progress by category has one entry for each, in that order; an
    entry counts at least one card (so its percentage divides by no zero)
    and no more completed cards than cards; the totals add up to the cards
    that have a category, the completed to the completed cards among them. *)
Theorem categoryProgress_counts (fs : list Flashcard) :
  NoDup (categories fs) /\
  (forall cat, cat ∈ categories fs <->
               cat <> "" /\ exists card, card ∈ fs /\ category card = Some cat) /\
  List.map progressCategory (categoryProgress fs) = categories fs /\
  Forall (fun p => 1 <= progressTotal p /\ progressCompleted p <= progressTotal p)
         (categoryProgress fs) /\
  list_sum (List.map progressTotal (categoryProgress fs)) =
  List.length (List.filter categorised fs) /\
  list_sum (List.map progressCompleted (categoryProgress fs)) =
  List.length (List.filter categorised (List.filter completed fs)).
Proof.
  split; [apply arrayFromSet_NoDup |]. split; [apply categories_elem |].
  unfold categoryProgress. rewrite !List.map_map. simpl.
  split; [apply List.map_id |]. split; [| split].
  - apply Forall_forall. intros p (cat & <- & Hcat)%list_elem_of_In%in_map_iff.
    apply list_elem_of_In in Hcat. simpl.
    split; [now apply catCards_nonempty | apply filter_length_le].
  - apply categorised_partition.
  - transitivity
      (list_sum (List.map (fun cat => List.length (catCards (List.filter completed fs) cat))
                          (categories fs))).
    + f_equal. apply List.map_ext. intros cat. unfold catCards.
      now rewrite filter_comm.
    + rewrite catCards_partition by apply arrayFromSet_NoDup.
      f_equal. apply filter_ext_in. intros card [Hin _]%elem_of_filter.
      now apply inCategories_categorised.
Qed.

(** *** The category chart *)

Lemma sortInsert_Permutation a l : sortInsert a l ≡ₚ a :: l.
Proof.
  induction l as [|b l IH]; simpl; [reflexivity |].
  destruct (count b <=? count a)%nat; [reflexivity |].
  rewrite IH. apply Permutation_swap.
Qed.

Lemma sortByCount_Permutation l : sortByCount l ≡ₚ l.
Proof.
  induction l as [|a l IH]; simpl; [reflexivity |].
  now rewrite sortInsert_Permutation, IH.
Qed.

Lemma sortInsert_sorted a l :
  StronglySorted descending l -> StronglySorted descending (sortInsert a l).
Proof.
  induction 1 as [|b l Hsorted IH Hall]; simpl.
  - repeat constructor.
  - destruct (Nat.leb_spec (count b) (count a)) as [Hle | Hlt].
    + constructor; [now constructor |]. constructor; [exact Hle |].
      eapply Forall_impl; [exact Hall |]. unfold descending. intros; simpl in *; lia.
    + constructor; [exact IH |].
      rewrite sortInsert_Permutation. constructor; [unfold descending; lia | exact Hall].
Qed.

Lemma sortByCount_sorted l : StronglySorted descending (sortByCount l).
Proof.
  induction l as [|a l IH]; simpl; [constructor | now apply sortInsert_sorted].
Qed.

(** The sort is stable: it keeps the order of the entries of each count. *)
Lemma sortInsert_filter (n : nat) a l :
  StronglySorted descending l ->
  List.filter (fun c => count c =? n)%nat (sortInsert a l) =
  List.filter (fun c => count c =? n)%nat (a :: l).
Proof.
  induction 1 as [|b l Hsorted IH Hall]; [reflexivity |].
  cbn [sortInsert].
  destruct (Nat.leb_spec (count b) (count a)) as [Hle | Hlt]; [reflexivity |].
  cbn [List.filter] in *. rewrite IH.
  destruct (Nat.eqb_spec (count a) n), (Nat.eqb_spec (count b) n);
    try reflexivity. lia.
Qed.

Lemma sortByCount_stable (n : nat) l :
  List.filter (fun c => count c =? n)%nat (sortByCount l) =
  List.filter (fun c => count c =? n)%nat l.
Proof.
  induction l as [|a l IH]; [reflexivity |].
  cbn [sortByCount foldr]. rewrite sortInsert_filter by apply sortByCount_sorted.
  cbn [List.filter]. fold (sortByCount l). now rewrite IH.
Qed.

Lemma foldl_sum (l : list CategoryCount) (n : nat) :
  foldl (fun sum c => sum + count c) n l = n + list_sum (List.map count l).
Proof.
  revert n. induction l as [|c l IH]; intros n; simpl; [lia |].
  rewrite IH. lia.
Qed.

Lemma otherCount_sum fs :
  otherCount fs = list_sum (List.map count (drop 5 (categoryCounts fs))).
Proof. unfold otherCount. now rewrite foldl_sum. Qed.

Lemma categoryCounts_Permutation fs :
  categoryCounts fs ≡ₚ
  List.map (fun cat => {| countCategory := cat;
                          count := List.length (catCards fs cat) |}) (categories fs).
Proof. apply sortByCount_Permutation. Qed.

Lemma categoryCounts_positive fs : Forall (fun c => 1 <= count c) (categoryCounts fs).
Proof.
  rewrite categoryCounts_Permutation. apply Forall_forall.
  intros c (cat & <- & Hcat)%list_elem_of_In%in_map_iff.
  apply list_elem_of_In in Hcat. simpl. now apply catCards_nonempty.
Qed.

Lemma categoryCounts_length fs :
  List.length (categoryCounts fs) = List.length (categories fs).
Proof. now rewrite categoryCounts_Permutation, List.length_map. Qed.

Lemma categoryCounts_sum fs :
  list_sum (List.map count (categoryCounts fs)) =
  List.length (List.filter categorised fs).
Proof.
  rewrite <- categorised_partition.
  rewrite (Permutation_list_sum
             (Permutation_map count (categoryCounts_Permutation fs))).
  now rewrite List.map_map.
Qed.

Lemma list_sum_positive (l : list nat) :
  Forall (fun n => 1 <= n) l -> l <> [] -> 1 <= list_sum l.
Proof. destruct 1; [congruence | simpl; lia]. Qed.

Lemma otherCount_positive fs :
  (0 <? otherCount fs)%nat = (5 <? List.length (categories fs))%nat.
Proof.
  rewrite otherCount_sum, <- categoryCounts_length.
  pose proof (categoryCounts_positive fs) as Hpos.
  pose proof (length_drop (categoryCounts fs) 5) as Hlen.
  destruct (drop 5 (categoryCounts fs)) as [|c rest] eqn:Hdrop.
  - simpl in *. symmetry. apply Nat.ltb_ge. lia.
  - assert (Hc : 1 <= count c).
    { eapply Forall_forall in Hpos; [exact Hpos |].
      apply (elem_of_sublist (drop 5 (categoryCounts fs))); [| apply sublist_drop].
      rewrite Hdrop. now left. }
    simpl in *. transitivity true; [apply Nat.ltb_lt; lia |].
    symmetry. apply Nat.ltb_lt. lia.
Qed.

Lemma imap_colors {A} (l : list A) (f : nat -> A -> Slice) (g : nat -> string) :
  (forall i a, color (f i a) = g i) ->
  List.map color (imap f l) = List.map g (seq 0 (List.length l)).
Proof.
  intros Hf. revert f g Hf. induction l as [|a l IH]; intros f g Hf; [reflexivity |].
  cbn [imap List.map List.length seq]. rewrite Hf. f_equal.
  rewrite <- seq_shift, List.map_map. apply IH. intros i b. apply Hf.
Qed.

Lemma imap_values {A} (l : list A) (f : nat -> A -> Slice) (g : A -> nat) :
  (forall i a, value (f i a) = g a) ->
  List.map value (imap f l) = List.map g l.
Proof.
  intros Hf. revert f Hf. induction l as [|a l IH]; intros f Hf; [reflexivity |].
  cbn [imap List.map]. rewrite Hf. f_equal. apply IH. intros i b. apply Hf.
Qed.

(** The category chart shows every card that has a category exactly once:
    its values add up to the number of such cards. It has a slice for each
    of the (at most five) categories with the most cards, largest first and
    ties in the order the categories were first met, and a slice Other
    exactly when there are more than five categories; no slice is empty;
    there are at most six slices, and their colours are the first of the
    palette, each used once. *)
Theorem categoryPieData_partition (fs : list Flashcard) :
  list_sum (List.map value (categoryPieData fs)) =
  List.length (List.filter categorised fs) /\
  Forall (fun s => 1 <= value s) (categoryPieData fs) /\
  List.length (categoryPieData fs) =
  Nat.min 5 (List.length (categories fs)) +
  (if (5 <? List.length (categories fs))%nat then 1 else 0) /\
  List.map color (categoryPieData fs) =
  take (List.length (categoryPieData fs)) catColors /\
  NoDup (List.map color (categoryPieData fs)) /\
  StronglySorted descending (categoryCounts fs) /\
  (forall n, List.filter (fun c => count c =? n)%nat (categoryCounts fs) =
             List.filter (fun c => count c =? n)%nat
               (List.map (fun cat => {| countCategory := cat;
                                        count := List.length (catCards fs cat) |})
                         (categories fs))).
Proof.
  assert (Hvalues : List.map value (categoryPieData fs) =
                    List.map count (topCats fs) ++
                    if (0 <? otherCount fs)%nat then [otherCount fs] else []).
  { unfold categoryPieData. rewrite List.map_app.
    rewrite (imap_values _ _ count) by reflexivity.
    now destruct (0 <? otherCount fs)%nat. }
  assert (Hlen : List.length (categoryPieData fs) =
                 Nat.min 5 (List.length (categories fs)) +
                 (if (5 <? List.length (categories fs))%nat then 1 else 0)).
  { unfold categoryPieData, topCats.
    rewrite List.length_app, length_imap, length_take, categoryCounts_length.
    rewrite otherCount_positive.
    now destruct (5 <? List.length (categories fs))%nat. }
  assert (Hcolors : List.map color (categoryPieData fs) =
                    take (List.length (categoryPieData fs)) catColors).
  { rewrite Hlen. unfold categoryPieData, topCats.
    rewrite List.map_app, otherCount_positive.
    rewrite (imap_colors _ _ (fun i => colorAt (i mod List.length catColors)))
      by reflexivity.
    rewrite length_take, categoryCounts_length.
    destruct (Nat.ltb_spec 5 (List.length (categories fs))) as [Hmany | Hfew].
    - rewrite Nat.min_l by lia. reflexivity.
    - rewrite Nat.min_r by lia. rewrite Nat.add_0_r, List.app_nil_r.
      destruct (List.length (categories fs)) as [|[|[|[|[|[|n]]]]]];
        try reflexivity. lia. }
  split; [| split; [| split; [exact Hlen | split; [exact Hcolors | split; [| split]]]]].
  - rewrite Hvalues, list_sum_app, <- categoryCounts_sum.
    rewrite <- (take_drop 5 (categoryCounts fs)) at 1.
    rewrite List.map_app, list_sum_app, <- otherCount_sum. unfold topCats.
    destruct (Nat.ltb_spec 0 (otherCount fs)); simpl; lia.
  - apply Forall_forall. intros s Hs.
    assert (Hv : value s ∈ List.map value (categoryPieData fs)).
    { apply list_elem_of_In, in_map, list_elem_of_In, Hs. }
    rewrite Hvalues in Hv. apply elem_of_app in Hv as [Hv | Hv].
    + apply list_elem_of_In, in_map_iff in Hv as (c & <- & Hc).
      pose proof (categoryCounts_positive fs) as Hpos.
      eapply Forall_forall in Hpos; [exact Hpos |].
      apply (elem_of_sublist (topCats fs)); [| apply sublist_take].
      now apply list_elem_of_In.
    + destruct (Nat.ltb_spec 0 (otherCount fs)) as [Hpos | _].
      * apply list_elem_of_singleton in Hv. lia.
      * now apply elem_of_nil in Hv.
  - rewrite Hcolors. apply (sublist_NoDup _ catColors); [| apply sublist_take].
    apply (bool_decide_eq_true_1 (NoDup catColors)). vm_compute. reflexivity.
  - apply sortByCount_sorted.
  - intros n. apply sortByCount_stable.
Qed.

(** *** Celebration *)

Lemma updateCompleted_filter fs id' :
  List.length (List.filter completed (updateCompleted fs id')) =
  newCompletedCount fs id'.
Proof.
  unfold newCompletedCount, updateCompleted.
  induction fs as [|c fs IH]; simpl; [reflexivity |].
  destruct (String.eqb (id c) id'); simpl.
  - rewrite orb_true_r. simpl. now rewrite IH.
  - rewrite orb_false_r. destruct (completed c); simpl; now rewrite IH.
Qed.

(** The count [handleMarkCompleted] takes from the cards of its render is
    the number of completed cards once the update is in the collection; the
    larger burst comes exactly when there are cards and the update completes
    the last of them. *)
Theorem megaCelebration_iff_all_completed (fs : list Flashcard) (id' : string) :
  newCompletedCount fs id' = completedCount (updateCompleted fs id') /\
  (megaCelebration fs id' = true <->
   fs <> [] /\ Forall (fun c => completed c = true) (updateCompleted fs id')).
Proof.
  split; [symmetry; apply updateCompleted_filter |].
  unfold megaCelebration, totalCount.
  rewrite andb_true_iff, Nat.eqb_eq, Nat.ltb_lt, <- updateCompleted_filter.
  replace (List.length fs) with (List.length (updateCompleted fs id'))
    by apply List.length_map.
  rewrite filter_all.
  split; intros [H1 H2]; (split; [| try assumption]); try assumption.
  - intros ->. simpl in H2. lia.
  - destruct fs; [congruence | simpl; lia].
Qed.

(** *** Links *)

Lemma fetchLinksForCard_lookedUp id' n l card :
  lookedUp id' n l -> lookedUp id' n (fetchLinksForCard l card).
Proof.
  intros Hl. unfold fetchLinksForCard.
  destruct (decide (id card ∈ fetchedIds l)) as [Hcard | Hcard];
    [now rewrite bool_decide_eq_true_2 | rewrite bool_decide_eq_false_2 by assumption].
  destruct Hl as [Hle Hge]. destruct l as [cards fetched l].
  unfold lookedUp, startedFor in *. cbn [fetchedIds started List.filter] in *.
  destruct (String.eqb_spec id' (id card)) as [-> | Hne].
  - rewrite bool_decide_eq_false_2 in Hle by assumption.
    rewrite bool_decide_eq_true_2
      by (apply elem_of_union_r, elem_of_singleton_2; reflexivity).
    cbn [List.length]. split; [lia | intros _; lia].
  - assert (Hiff : id' ∈ fetched ∪ {[id card]} <-> id' ∈ fetched).
    { rewrite elem_of_union, elem_of_singleton. tauto. }
    rewrite (bool_decide_ext _ _ Hiff). split; [exact Hle |].
    intros Hin%Hiff. now apply Hge.
Qed.

Lemma fetchLinksForCards_lookedUp id' n l :
  lookedUp id' n l -> lookedUp id' n (fetchLinksForCards l).
Proof.
  assert (Hfold : forall cards l0,
             lookedUp id' n l0 -> lookedUp id' n (foldl fetchLinksForCard l0 cards)).
  { induction cards as [|card cards IH]; intros l0 Hl; simpl; [assumption |].
    now apply IH, fetchLinksForCard_lookedUp. }
  unfold fetchLinksForCards. destruct (_ =? 0)%nat; [auto | apply Hfold].
Qed.

Lemma linksStep_lookedUp id' n l e :
  lookedUp id' n l -> lookedUp id' (n + deletions id' [e]) (linksStep l e).
Proof.
  destruct e as [cards | d]; unfold deletions; simpl.
  - rewrite Nat.add_0_r. intros [Hle Hge]. apply fetchLinksForCards_lookedUp.
    exact (conj Hle Hge).
  - intros [Hle Hge]. unfold lookedUp. cbn [fetchedIds].
    unfold startedFor in *. cbn [started].
    destruct (String.eqb_spec id' d) as [-> | Hne]; simpl.
    + rewrite bool_decide_eq_false_2
        by (rewrite elem_of_difference, elem_of_singleton; tauto).
      split; [destruct (bool_decide _) in Hle; lia |].
      rewrite elem_of_difference, elem_of_singleton. tauto.
    + assert (Hiff : id' ∈ fetchedIds l ∖ {[d]} <-> id' ∈ fetchedIds l).
      { rewrite elem_of_difference, elem_of_singleton. tauto. }
      rewrite (bool_decide_ext _ _ Hiff), Nat.add_0_r. split; [exact Hle |].
      intros Hin%Hiff. now apply Hge.
Qed.

Lemma deletions_cons id' e es :
  deletions id' (e :: es) = deletions id' [e] + deletions id' es.
Proof. unfold deletions. simpl. now destruct e as [|d]; [| destruct (String.eqb id' d)]. Qed.

Lemma foldl_lookedUp id' es : forall n l,
  lookedUp id' n l -> lookedUp id' (n + deletions id' es) (foldl linksStep l es).
Proof.
  induction es as [|e es IH]; intros n l Hl.
  - unfold deletions. simpl. now rewrite Nat.add_0_r.
  - rewrite deletions_cons, Nat.add_assoc. simpl. now apply IH, linksStep_lookedUp.
Qed.

Lemma fetchLinksForCard_fetched l card :
  fetchedIds (fetchLinksForCard l card) = fetchedIds l ∪ {[ id card ]}.
Proof.
  unfold fetchLinksForCard. case_bool_decide as Hin; [| reflexivity].
  apply set_eq. intros x. rewrite elem_of_union, elem_of_singleton.
  split; [tauto |]. intros [? | ->]; assumption.
Qed.

Lemma fetchLinksForCards_fetched l card :
  card ∈ flashcards l -> id card ∈ fetchedIds (fetchLinksForCards l).
Proof.
  assert (Hfold : forall cards l0,
             id card ∈ fetchedIds l0 \/ card ∈ cards ->
             id card ∈ fetchedIds (foldl fetchLinksForCard l0 cards)).
  { induction cards as [|c cards IH]; intros l0; simpl.
    - rewrite elem_of_nil. tauto.
    - intros H. apply IH. rewrite fetchLinksForCard_fetched, elem_of_union,
        elem_of_singleton. rewrite elem_of_cons in H.
      destruct H as [? | [-> | ?]]; auto. }
  unfold fetchLinksForCards. intros Hin.
  destruct (Nat.eqb_spec (List.length (flashcards l)) 0) as [Hlen | _].
  - destruct (flashcards l); [now apply elem_of_nil in Hin | discriminate].
  - apply Hfold. now right.
Qed.

(** A look-up of links is started for each card once: over any sequence of
    snapshots and deletions, for one card id at most once more than the card
    was deleted; an id marked as attempted had its look-up started; and
    after a snapshot every card in it is marked. *)
Theorem links_looked_up_once (es : list LinksEvent) (id' : string) :
  startedFor id' (linksRun es) <= 1 + deletions id' es /\
  (id' ∈ fetchedIds (linksRun es) -> 1 <= startedFor id' (linksRun es)) /\
  (forall cards card, card ∈ cards ->
     id card ∈ fetchedIds (linksRun (es ++ [Snapshot cards]))).
Proof.
  assert (Hrun : lookedUp id' (0 + deletions id' es) (linksRun es)).
  { apply foldl_lookedUp. unfold lookedUp, startedFor. simpl.
    split; [lia |]. intros []%elem_of_empty. }
  destruct Hrun as [Hle Hge]. split; [| split; [exact Hge |]].
  - destruct (bool_decide _) in Hle; lia.
  - intros cards card Hin. unfold linksRun. rewrite foldl_app. simpl.
    now apply fetchLinksForCards_fetched.
Qed.

(** *** The study timer in the dashboard *)

(** The host's state changes only when the interval calls back. *)
Lemma hostStep_host {H} (h : Host H) e s s' :
  hostStep h e s = Some s' ->
  host s' = match e, callback h with
            | At SecondElapsed, Some f => f (host s)
            | _, _ => host s
            end.
Proof.
  destruct e as [ms| e |]; cbn [hostStep].
  - destruct (0 <? ms)%Z; [| discriminate].
    destruct (sinceInstalled s) as [t|]; [| now intros [= <-]].
    destruct (t + ms <=? period)%Z; [| discriminate]. now intros [= <-].
  - destruct e;
      try (case_bool_decide; [| discriminate]);
      (destruct (step _ (component s)) as [c'|]; [| discriminate]);
      cbn [mbind option_bind]; intros [= <-]; cbn [host];
      now destruct (callback h).
  - now intros [= <-].
Qed.

Lemma hostRun_key es : forall s s' : Hosted Z,
  hostRun dashboardHost es s = Some s' ->
  host s' = (host s + ticks (componentEvents es))%Z.
Proof.
  induction es as [|e es IH]; intros s s'; cbn [hostRun].
  - intros [= <-]. cbn. lia.
  - destruct (hostStep dashboardHost e s) as [s1|] eqn:Hstep; [| discriminate].
    cbn [mbind option_bind]. intros Hrun.
    rewrite (IH _ _ Hrun), (hostStep_host _ _ _ _ Hstep).
    rewrite componentEvents_cons, ticks_app.
    destruct e as [ms| e |]; [cbn; lia | | cbn; lia].
    destruct e; cbn; unfold onSecondsTick; lia.
Qed.

(** In the dashboard the timer's callback bumps the statistics key at every
    call of the interval and at no other event: after any run of events the
    key has grown by the number of ticks; Reset only ever lowering the
    seconds, it has grown by at least as much as the seconds; and it has
    grown by no more than the whole seconds that passed, each counted from
    the last time the interval was installed. *)
Theorem statsRefreshKey_counts_ticks (es : list HostEvent) (s s' : Hosted Z) :
  timerHeld s -> hostRun dashboardHost es s = Some s' ->
  host s' = (host s + ticks (componentEvents es))%Z /\
  ((0 <= seconds (component s))%Z ->
   (seconds (component s') - seconds (component s) <= host s' - host s)%Z) /\
  (period * (host s' - host s) + since s' <= since s + waited es)%Z.
Proof.
  intros Hheld Hrun.
  pose proof (hostRun_key es s s' Hrun) as Hkey.
  destruct (hostRun_timer dashboardHost es s s' Hheld Hrun) as [_ Hle].
  pose proof (hostRun_run dashboardHost es s s' Hrun) as Hcomponent.
  split; [exact Hkey |]. split.
  - intros Hsec.
    pose proof (tally_bounds (componentEvents es) (seconds (component s)) Hsec) as Hb.
    rewrite (run_tally _ _ _ Hcomponent). lia.
  - rewrite Hkey.
    replace (host s + ticks (componentEvents es) - host s)%Z
      with (ticks (componentEvents es)) by lia.
    exact Hle.
Qed.

Lemma statsRefreshKey_counts_ticks_witness :
  exists s',
    hostRun dashboardHost [Wait 1000; At SecondElapsed; At ClickReset;
                           Wait 1000; At SecondElapsed] (hostMount true 0%Z)
    = Some s' /\
    host s' = 2%Z /\ seconds (component s') = 1%Z.
Proof.
  eexists. split; [vm_compute; reflexivity |].
  destruct (statsRefreshKey_counts_ticks
              [Wait 1000; At SecondElapsed; At ClickReset;
               Wait 1000; At SecondElapsed] (hostMount true 0%Z) _
              (conj eq_refl (conj eq_refl (conj (Zle_bool_imp_le 0 0 eq_refl)
                                                (Zle_bool_imp_le 0 1000 eq_refl))))
              eq_refl)
    as (Hkey & _ & _).
  split; [exact Hkey | reflexivity].
Defined.

Lemma restless_waited n : waited (restless n) = (999 * Z.of_nat n)%Z.
Proof.
  unfold restless. induction n as [|n IH]; [reflexivity |].
  cbn [replicate concat app waited]. rewrite IH. lia.
Qed.

(** A host that makes the callback anew at each render holds the timer back
    by rendering: each render restarts the interval, and the part of a second
    that had passed is lost. If it renders every 999 milliseconds no second
    is ever counted, however long this goes on: the component stays as it
    was mounted. Of one second with one render of the host in it, the
    dashboard counts nothing, the interval being not yet due; a host that
    passes the same function every time counts it. *)
Theorem restless_host_starves_timer :
  (forall (H : Type) (h : Host H) (n : nat) (onLine : bool) (state : H),
     freshCallback h = true ->
     hostRun h (restless n) (hostMount onLine state) = Some (hostMount onLine state) /\
     waited (restless n) = (999 * Z.of_nat n)%Z /\
     seconds (component (hostMount onLine state)) = 0%Z) /\
  hostRun dashboardHost secondWithRender (hostMount true 0%Z) = None /\
  (exists s',
     hostRun steadyHost secondWithRender (hostMount true 0%Z) = Some s' /\
     seconds (component s') = 1%Z /\ host s' = 1%Z).
Proof.
  split; [| split].
  - intros H h n onLine state Hfresh.
    split; [| split; [apply restless_waited | reflexivity]].
    unfold restless. induction n as [|n IH]; [reflexivity |].
    cbn [replicate concat app hostRun hostStep].
    rewrite Hfresh. exact IH.
  - vm_compute. reflexivity.
  - eexists. split; [vm_compute; reflexivity |]. split; reflexivity.
Qed.

End DashboardFacts.

(** ** The quiz page *)

Module QuizFacts.
Import Quiz.

(** *** The array of answers *)

Lemma answerOf_Number a q : answerOf a q -> exists n, a = Number n.
Proof. intros (n & -> & _). eauto. Qed.

Lemma spread_answers answers questions :
  Forall2 answerOf answers questions -> spread answers = answers.
Proof.
  unfold spread. induction 1 as [|a q answers questions Ha _ IH]; [reflexivity |].
  simpl. rewrite IH. now destruct Ha as (n & -> & _).
Qed.

Lemma assign_in_range i v next :
  i < List.length next -> assign i v next = <[ i := Number v ]> next.
Proof.
  intros Hi. unfold assign. now rewrite (proj2 (Nat.ltb_lt _ _) Hi).
Qed.

Lemma everyAnswered_spec answers questions :
  Forall2 answerOf answers questions ->
  everyAnswered answers = true <-> Forall (fun a => a <> Number (-1)) answers.
Proof.
  unfold everyAnswered.
  induction 1 as [|a q answers questions (n & -> & Hn) _ IH]; simpl.
  - split; [constructor | reflexivity].
  - rewrite andb_true_iff, Forall_cons, IH, Z.leb_le.
    split; intros [Ha Hrest]; (split; [| assumption]).
    + intros [= ->]. lia.
    + destruct Hn as [-> | ?]; [congruence | lia].
Qed.

(** *** Steps *)

Lemma step_Select q p qIndex optionIndex p' :
  pageHeld (Some q) p -> quizStep (Select qIndex optionIndex) p = Some p' ->
  exists qu, questions q !! qIndex = Some qu /\
    optionIndex < List.length (options qu) /\ submitted p = false /\
    p' = {| quiz := Some q;
            answers := <[ qIndex := Number (Z.of_nat optionIndex) ]> (answers p);
            submitted := false; score := score p;
            lastQuizScore := lastQuizScore p |}.
Proof.
  intros (Hquiz & Hanswers & _) Hstep. simpl in Hanswers.
  unfold quizStep, optionRendered, handleSelect in Hstep. rewrite Hquiz in Hstep.
  destruct (questions q !! qIndex) as [qu|] eqn:Hqu; [| discriminate].
  destruct (Nat.ltb_spec optionIndex (List.length (options qu))); [| discriminate].
  destruct (submitted p) eqn:Hsub; [discriminate |]. simpl in Hstep.
  injection Hstep as <-. exists qu. repeat split; try assumption.
  rewrite (spread_answers _ _ Hanswers), assign_in_range; [reflexivity |].
  rewrite (Forall2_length _ _ _ Hanswers). now apply lookup_lt_Some in Hqu.
Qed.

Lemma step_Submit q p p' :
  pageHeld (Some q) p -> quizStep Submit p = Some p' ->
  submitted p = false /\ allAnswered p = true /\
  p' = {| quiz := Some q; answers := answers p; submitted := true;
          score := Some (countCorrect (questions q) 0 (answers p) 0);
          lastQuizScore :=
            Some {| lastTopic := topic q;
                    lastScore := countCorrect (questions q) 0 (answers p) 0;
                    lastTotal := List.length (questions q) |} |}.
Proof.
  intros (Hquiz & _) Hstep. unfold quizStep, handleSubmit in Hstep.
  rewrite Hquiz in Hstep.
  destruct (submitted p); [now rewrite andb_false_r in Hstep |].
  destruct (allAnswered p); [| now rewrite andb_false_r in Hstep].
  simpl in Hstep. injection Hstep as <-. auto.
Qed.

Lemma step_no_quiz p e : quiz p = None -> quizStep e p = None.
Proof.
  intros Hquiz. destruct e; unfold quizStep, optionRendered; rewrite Hquiz;
    [reflexivity |]. now rewrite bool_decide_eq_false_2 by (intros [? [=]]).
Qed.

Lemma step_pageHeld currentQuiz e p p' :
  pageHeld currentQuiz p -> quizStep e p = Some p' -> pageHeld currentQuiz p'.
Proof.
  intros Hheld Hstep. destruct currentQuiz as [q|].
  2: { destruct Hheld as [Hquiz _]. rewrite (step_no_quiz _ _ Hquiz) in Hstep.
       discriminate. }
  pose proof Hheld as (Hquiz & Hanswers & Hscore & Hall & Hn).
  simpl in Hanswers. destruct e as [qIndex optionIndex |].
  - destruct (step_Select _ _ _ _ _ Hheld Hstep) as (qu & Hqu & Hopt & Hsub & ->).
    unfold pageHeld. cbn [quiz answers submitted score lastQuizScore from_option].
    split; [reflexivity |]. split; [| split; [| split]].
    + rewrite <- (list_insert_id _ _ _ Hqu). apply Forall2_insert; [assumption |].
      exists (Z.of_nat optionIndex). split; [reflexivity |]. lia.
    + rewrite <- Hscore, Hsub. tauto.
    + discriminate.
    + intros n Hsome. assert (Habs : submitted p = true) by (apply Hscore; eauto).
      congruence.
  - destruct (step_Submit _ _ _ Hheld Hstep) as (Hsub & Hans & ->).
    unfold pageHeld. cbn [quiz answers submitted score lastQuizScore from_option].
    split; [reflexivity |]. split; [assumption |]. split; [| split].
    + split; eauto.
    + intros _. unfold allAnswered in *. cbn [quiz answers].
      rewrite Hquiz in Hans. exact Hans.
    + intros n [= <-]. exists q. auto.
Qed.

Lemma mount_pageHeld currentQuiz stored : pageHeld currentQuiz (quizMount currentQuiz stored).
Proof.
  destruct currentQuiz as [q|]; unfold pageHeld, quizMount;
    cbn [quiz answers submitted score lastQuizScore from_option].
  - split; [reflexivity |]. split; [| split; [| split]].
    + unfold fill. induction (questions q) as [|qu qs IH]; simpl; constructor.
      * exists (-1)%Z. auto.
      * exact IH.
    + split; [discriminate | intros [? [=]]].
    + discriminate.
    + discriminate.
  - split; [reflexivity |]. split; [constructor |].
    split; [split; [discriminate | intros [? [=]]] |]. split; discriminate.
Qed.

Lemma quizReachable_pageHeld currentQuiz p : quizReachable currentQuiz p -> pageHeld currentQuiz p.
Proof.
  induction 1 as [stored | e p p' _ IH Hstep].
  - apply mount_pageHeld.
  - eapply step_pageHeld; eauto.
Qed.



(** *** Submitting *)

Lemma step_submitted e p : submitted p = true -> quizStep e p = None.
Proof.
  intros Hsub. destruct e; unfold quizStep; rewrite Hsub; simpl;
    now rewrite andb_false_r.
Qed.

(** The quiz can be submitted exactly when it was not submitted before and
    every question has an option selected; with a question that has no
    option to select it can never be submitted. *)
Theorem submit_needs_every_answer (q : QuizPayload) (p : Page) :
  quizReachable (Some q) p ->
  (is_Some (quizStep Submit p) <->
   submitted p = false /\ Forall (fun a => a <> Number (-1)) (answers p)) /\
  ((exists qu, qu ∈ questions q /\ options qu = []) ->
   submitted p = false /\ quizStep Submit p = None).
Proof.
  intros Hreach. pose proof (quizReachable_pageHeld _ _ Hreach) as Hheld.
  pose proof Hheld as (Hquiz & Hanswers & _ & Hall & _). simpl in Hanswers.
  assert (Hevery : allAnswered p = true <->
                   Forall (fun a => a <> Number (-1)) (answers p)).
  { unfold allAnswered. rewrite Hquiz, (Forall2_length _ _ _ Hanswers), Nat.eqb_refl.
    simpl. now apply everyAnswered_spec with (questions q). }
  assert (Hsubmit : is_Some (quizStep Submit p) <->
                    submitted p = false /\ Forall (fun a => a <> Number (-1)) (answers p)).
  { rewrite <- Hevery. unfold quizStep. rewrite Hquiz.
    rewrite bool_decide_eq_true_2 by eauto.
    destruct (submitted p), (allAnswered p); simpl.
    - split; [intros [? [=]] | intros [[=] _]].
    - split; [intros [? [=]] | intros [[=] _]].
    - split; [auto | eauto].
    - split; [intros [? [=]] | intros [_ [=]]]. }
  split; [exact Hsubmit |].
  intros (qu & [i Hi]%list_elem_of_lookup_1 & Hnone).
  destruct (Forall2_lookup_r _ _ _ _ _ Hanswers Hi) as (a & Ha & n & -> & Hn).
  rewrite Hnone in Hn. simpl in Hn. assert (n = -1)%Z as -> by lia.
  assert (Hnotall : ~ Forall (fun a => a <> Number (-1)) (answers p)).
  { intros Hforall. eapply Forall_lookup_1 in Hforall; [| exact Ha]. congruence. }
  assert (Hfalse : submitted p = false).
  { destruct (submitted p); [| reflexivity]. exfalso. apply Hnotall, Hevery, Hall.
    reflexivity. }
  split; [exact Hfalse |].
  destruct (quizStep Submit p) eqn:Hstep; [| reflexivity].
  exfalso. apply Hnotall. apply Hsubmit. eauto.
Qed.

Lemma submit_needs_every_answer_witness :
  (is_Some (quizStep Submit (quizMount (Some twoQuestions) None)) <->
   submitted (quizMount (Some twoQuestions) None) = false /\
   Forall (fun a => a <> Number (-1)) (answers (quizMount (Some twoQuestions) None))) /\
  ((exists qu, qu ∈ questions twoQuestions /\ options qu = []) ->
   submitted (quizMount (Some twoQuestions) None) = false /\
   quizStep Submit (quizMount (Some twoQuestions) None) = None).
Proof.
  apply (submit_needs_every_answer twoQuestions _
           (quizReachable_mount (Some twoQuestions) None)).
Defined.

(** *** The score *)

Lemma quizRun_reachable currentQuiz es : forall p p',
  quizReachable currentQuiz p -> quizRun es p = Some p' -> quizReachable currentQuiz p'.
Proof.
  induction es as [|e es IH]; intros p p' Hp; simpl.
  - now intros [= <-].
  - destruct (quizStep e p) as [p1|] eqn:Hstep; [| discriminate]. cbn.
    apply IH. eapply quizReachable_step; eauto.
Qed.

Lemma run_submitted es p p' :
  submitted p = true -> quizRun es p = Some p' -> es = [] /\ p' = p.
Proof.
  intros Hsub. destruct es as [|e es]; simpl.
  - now intros [= <-].
  - now rewrite (step_submitted e p Hsub).
Qed.

(** The last selection wins. *)
Lemma run_answers q es : forall p p',
  quizReachable (Some q) p -> quizRun es p = Some p' ->
  forall i a, answers p !! i = Some (Number a) ->
              answers p' !! i = Some (Number (lastSelected es i a)).
Proof.
  induction es as [|e es IH]; intros p p' Hreach; simpl.
  - now intros [= <-].
  - destruct (quizStep e p) as [p1|] eqn:Hstep; [| discriminate]. cbn.
    intros Hrun i a Ha.
    assert (Hreach1 : quizReachable (Some q) p1) by (eapply quizReachable_step; eauto).
    pose proof (quizReachable_pageHeld _ _ Hreach) as Hheld.
    destruct e as [qIndex optionIndex |].
    + destruct (step_Select _ _ _ _ _ Hheld Hstep) as (qu & Hqu & _ & _ & ->).
      apply (IH _ _ Hreach1 Hrun). cbn [answers].
      destruct (Nat.eqb_spec qIndex i) as [-> | Hne].
      * rewrite list_lookup_insert_eq; [reflexivity |]. now apply lookup_lt_Some in Ha.
      * now rewrite list_lookup_insert_ne.
    + destruct (step_Submit _ _ _ Hheld Hstep) as (_ & _ & ->).
      now apply (IH _ _ Hreach1 Hrun).
Qed.

(** The submission, if any, ends the trace. *)
Lemma run_score q es : forall p p' n,
  quizReachable (Some q) p -> submitted p = false -> quizRun es p = Some p' ->
  score p' = Some n -> exists es', es = es' ++ [Submit] /\ Submit ∉ es'.
Proof.
  induction es as [|e es IH]; intros p p' n Hreach Hsub; simpl.
  - intros [= <-] Hscore.
    destruct (quizReachable_pageHeld _ _ Hreach) as (_ & _ & Hiff & _).
    assert (submitted p = true) by (apply Hiff; eauto). congruence.
  - destruct (quizStep e p) as [p1|] eqn:Hstep; [| discriminate]. cbn.
    intros Hrun Hscore.
    assert (Hreach1 : quizReachable (Some q) p1) by (eapply quizReachable_step; eauto).
    pose proof (quizReachable_pageHeld _ _ Hreach) as Hheld.
    destruct e as [qIndex optionIndex |].
    + destruct (step_Select _ _ _ _ _ Hheld Hstep) as (qu & _ & _ & _ & Hp1).
      assert (Hsub1 : submitted p1 = false) by now rewrite Hp1.
      destruct (IH _ _ _ Hreach1 Hsub1 Hrun Hscore) as (es' & -> & Hnot).
      exists (Select qIndex optionIndex :: es'). split; [reflexivity |].
      intros [[=] | ?]%elem_of_cons. contradiction.
    + destruct (step_Submit _ _ _ Hheld Hstep) as (_ & _ & Hp1).
      assert (Hsub1 : submitted p1 = true) by now rewrite Hp1.
      destruct (run_submitted _ _ _ Hsub1 Hrun) as [-> _].
      exists []. split; [reflexivity | apply not_elem_of_nil].
Qed.

Lemma countCorrect_filter questions answers : forall i correct,
  countCorrect questions i answers correct =
  correct +
  List.length
    (List.filter (fun iq => strictEquals (answers !! iq.1) (correctIndex iq.2))
                 (imap (fun j qu => (i + j, qu)) questions)).
Proof.
  induction questions as [|qu questions IH]; intros i correct; simpl; [lia |].
  rewrite IH, Nat.add_0_r.
  rewrite (imap_ext (fun j qu => (S i + j, qu)) (fun j qu => (i + S j, qu)))
    by (intros; f_equal; lia).
  unfold compose.
  destruct (strictEquals (answers !! i) (correctIndex qu)); simpl; lia.
Qed.

Lemma imap_pair_elem {A} (l : list A) (i : nat) (x : A) :
  (i, x) ∈ imap pair l <-> l !! i = Some x.
Proof.
  rewrite list_elem_of_lookup. split.
  - intros [j Hj]. rewrite list_lookup_imap in Hj.
    destruct (l !! j) as [y|] eqn:Hy; [| discriminate].
    simpl in Hj. now injection Hj as -> ->.
  - intros Hi. exists i. now rewrite list_lookup_imap, Hi.
Qed.

Lemma imap_pair_snd {A} (l : list A) : List.map snd (imap pair l) = l.
Proof.
  assert (H : forall (f : nat -> nat), List.map snd (imap (fun j x => (f j, x)) l) = l).
  { induction l as [|x l IH]; intros f; simpl; [reflexivity |]. f_equal.
    apply (IH (f ∘ S)). }
  apply (H (fun j => j)).
Qed.

Lemma filter_length_impl {A} (f g : A -> bool) (l : list A) :
  (forall x, x ∈ l -> f x = true -> g x = true) ->
  List.length (List.filter f l) <= List.length (List.filter g l).
Proof.
  induction l as [|x l IH]; intros Himpl; simpl; [lia |].
  assert (IH' := IH (fun y Hy => Himpl y (list_elem_of_further _ _ _ Hy))).
  specialize (Himpl x (list_elem_of_here _ _)).
  destruct (f x); [rewrite Himpl by reflexivity; simpl; lia |].
  destruct (g x); simpl; lia.
Qed.

Lemma filter_map_length {A B} (g : B -> bool) (h : A -> B) (l : list A) :
  List.length (List.filter (fun x => g (h x)) l) =
  List.length (List.filter g (List.map h l)).
Proof.
  induction l as [|x l IH]; simpl; [reflexivity |].
  destruct (g (h x)); simpl; now rewrite IH.
Qed.

(** For each question the answer is the option last selected for it, and
    the score, which only a submission at the very end of the trace gives,
    counts the questions whose last selection is [correctIndex]; a question
    whose [correctIndex] is the index of none of its options is never
    counted. *)
Theorem score_counts_last_selections
  (q : QuizPayload) (stored : option LastQuizScore) (es : list QuizEvent) (p : Page) :
  quizRun es (quizMount (Some q) stored) = Some p ->
  (forall i, i < List.length (questions q) ->
             answers p !! i = Some (Number (lastSelected es i (-1)))) /\
  (forall n, score p = Some n ->
     n = List.length (correctlyAnswered es q) /\
     n <= List.length (List.filter answerable (questions q)) /\
     exists es', es = es' ++ [Submit] /\ Submit ∉ es').
Proof.
  intros Hrun.
  assert (Hmount : quizReachable (Some q) (quizMount (Some q) stored)) by constructor.
  pose proof (quizRun_reachable _ _ _ _ Hmount Hrun) as Hreach.
  assert (Hanswers : forall i, i < List.length (questions q) ->
                       answers p !! i = Some (Number (lastSelected es i (-1)))).
  { intros i Hi. apply (run_answers q es _ _ Hmount Hrun).
    cbn [quizMount answers]. unfold fill. now apply lookup_replicate_2. }
  split; [exact Hanswers |]. intros n Hscore.
  destruct (quizReachable_pageHeld _ _ Hreach) as (_ & Hslots & Hiff & Hall & Hn).
  simpl in Hslots.
  pose proof (run_score q es _ _ n Hmount eq_refl Hrun Hscore) as Hlast.
  destruct (Hn n Hscore) as (q' & [= <-] & -> & _).
  assert (Hevery : everyAnswered (answers p) = true).
  { assert (Hall' : allAnswered p = true) by (apply Hall, Hiff; eauto).
    unfold allAnswered in Hall'. destruct (quiz p); [| discriminate].
    now apply andb_true_iff in Hall' as [_ ?]. }
  rewrite countCorrect_filter. simpl.
  split; [| split; [| exact Hlast]].
  - unfold correctlyAnswered. f_equal. apply List.filter_ext_in.
    intros [i qu] Hin%list_elem_of_In%imap_pair_elem. simpl.
    rewrite Hanswers by (now apply lookup_lt_Some in Hin). reflexivity.
  - rewrite <- (imap_pair_snd (questions q)) at 2.
    rewrite <- (filter_map_length answerable snd).
    apply filter_length_impl.
    intros [i qu] Hin%imap_pair_elem Heq. simpl in *.
    destruct (Forall2_lookup_r _ _ _ _ _ Hslots Hin) as (a & Ha & m & -> & Hm).
    rewrite Ha in Heq. simpl in Heq. apply Z.eqb_eq in Heq. subst m.
    assert (Hnonneg : (0 <= correctIndex qu)%Z).
    { unfold everyAnswered in Hevery. rewrite forallb_forall in Hevery.
      specialize (Hevery (Number (correctIndex qu))).
      apply Z.leb_le, Hevery, list_elem_of_In. eapply list_elem_of_lookup_2; eauto. }
    unfold answerable. apply andb_true_iff. split; [apply Z.leb_le | apply Z.ltb_lt]; lia.
Qed.

Lemma score_counts_last_selections_witness :
  (forall i, i < List.length (questions twoQuestions) ->
     answers {| quiz := Some twoQuestions; answers := [Number 0; Number 2];
                submitted := true; score := Some 1;
                lastQuizScore := Some {| lastTopic := "Newton"; lastScore := 1;
                                         lastTotal := 2 |} |} !! i =
     Some (Number (lastSelected [Select 0 1; Select 1 2; Select 0 0; Submit] i (-1)))) /\
  (forall n, Some 1 = Some n ->
     n = List.length
           (correctlyAnswered [Select 0 1; Select 1 2; Select 0 0; Submit] twoQuestions) /\
     n <= List.length (List.filter answerable (questions twoQuestions)) /\
     exists es', [Select 0 1; Select 1 2; Select 0 0; Submit] = es' ++ [Submit] /\
                 Submit ∉ es').
Proof.
  apply (score_counts_last_selections twoQuestions None
           [Select 0 1; Select 1 2; Select 0 0; Submit]).
  vm_compute. reflexivity.
Defined.

End QuizFacts.

(** ** Looking up a video *)

Module FetchYoutubeFacts.
Import StudyPresence(Completion, Normal, Throw).
Import FetchYoutube.

(** *** Tokens *)

Lemma allChars_app p s t : allChars p (s +:+ t) = allChars p s && allChars p t.
Proof.
  induction s as [|c s IH]; [reflexivity |].
  change (String c s +:+ t) with (String c (s +:+ t)). simpl.
  now rewrite IH, andb_assoc.
Qed.

Lemma replaceOthers_chars s :
  allChars (fun c => isWord c || isSpace c) (replaceOthers s) = true.
Proof.
  induction s as [|c s IH]; [reflexivity |]. simpl. rewrite IH, andb_true_r.
  destruct (isWord c || isSpace c) eqn:Hc; [exact Hc | reflexivity].
Qed.

Lemma splitFrom_chars s : forall current gap,
  allChars (fun c => isWord c || isSpace c) s = true ->
  allChars isWord current = true ->
  Forall (fun t => allChars isWord t = true) (splitFrom s current gap).
Proof.
  induction s as [|c s IH]; intros current gap Hs Hcurrent; simpl.
  - now constructor.
  - simpl in Hs. apply andb_true_iff in Hs as [Hc Hs].
    destruct (isSpace c) eqn:Hspace.
    + destruct gap; [now apply IH |]. constructor; [assumption |]. now apply IH.
    + apply IH; [assumption |]. rewrite allChars_app, Hcurrent. simpl.
      rewrite orb_false_r in Hc. now rewrite Hc.
Qed.

Section Strings.

Variable toLowerCase : string -> string.
Variable trim : string -> string.
Variable includes : string -> string -> bool.
Variable codeUnits : string -> nat.

Lemma tokenize_tokens text :
  Forall (fun t => 3 <= String.length t /\ allChars isWord t = true)
         (tokenize toLowerCase text).
Proof.
  unfold tokenize, split. apply Forall_forall.
  intros t [Hin Hlen]%list_elem_of_In%filter_In. split; [now apply Nat.leb_le |].
  pose proof (splitFrom_chars (replaceOthers (toLowerCase text)) "" false
                (replaceOthers_chars _) eq_refl) as Hall.
  eapply Forall_forall in Hall; [exact Hall | now apply list_elem_of_In].
Qed.

Lemma overlap_bounds tTokens dTokens qTokens : forall score,
  (score <= foldl (overlap tTokens dTokens) score qTokens
         <= score + 3 * Z.of_nat (List.length qTokens))%Z.
Proof.
  induction qTokens as [|qt qTokens IH]; intros score; simpl; [lia |].
  specialize (IH (overlap tTokens dTokens score qt)). unfold overlap in *.
  repeat case_bool_decide; lia.
Qed.

(** A token has at least three characters, all of them lower-case letters
    or digits, whatever the text; and the score of a result is at least
    zero and at most three for each token of the query, seven for the
    phrase and three for a short title. *)
Theorem scoreResult_bounds (query text : string) (item : YoutubeSearchItem) :
  Forall (fun t => 3 <= String.length t /\ allChars isWord t = true)
         (tokenize toLowerCase text) /\
  (0 <= scoreResult toLowerCase trim includes codeUnits query item
     <= 3 * Z.of_nat (List.length (tokenize toLowerCase query)) + 10)%Z.
Proof.
  split; [apply tokenize_tokens |]. unfold scoreResult.
  pose proof (overlap_bounds (tokenize toLowerCase (orEmpty (title item)))
                (tokenize toLowerCase (orEmpty (description item)))
                (tokenize toLowerCase query) 0) as Hloop.
  set (loop := foldl _ _ _) in *.
  pose proof (Z.div_pos (Z.of_nat (codeUnits (orEmpty (title item)))) 40
                ltac:(lia) ltac:(lia)) as Hdiv.
  repeat match goal with |- context [if ?b then _ else _] => destruct b end; lia.
Qed.

(** *** The best result *)

Lemma pickStep_picked query l best it :
  picked toLowerCase trim includes codeUnits query l best ->
  picked toLowerCase trim includes codeUnits query (l ++ [it])
         (pickStep toLowerCase trim includes codeUnits query best it).
Proof.
  set (score := scoreResult toLowerCase trim includes codeUnits query).
  destruct best as [bestId bestScore]. unfold picked, pickStep, hasId.
  cbn [fst snd]. fold score.
  destruct (videoId it) as [id|] eqn:Hid.
  2: { destruct bestId as [b|]; cbn [fst snd].
       - intros (Hne & i & it0 & Hi & Hv & Hs & Hbest). split; [assumption |].
         exists i, it0. split; [now apply lookup_app_l_Some |].
         split; [assumption |]. split; [assumption |].
         intros j it' [Hj | [_ Hj]]%lookup_app_Some Hhas; [eauto |].
         apply list_lookup_singleton_Some in Hj as [_ <-].
         unfold hasId in Hhas. now rewrite Hid in Hhas.
       - intros [Hs Hall]. split; [assumption |].
         apply Forall_app. split; [assumption |]. repeat constructor.
         unfold hasId. now rewrite Hid. }
  destruct (nonEmpty id) eqn:Hnonempty.
  2: { destruct bestId as [b|]; cbn [fst snd].
       - intros (Hne & i & it0 & Hi & Hv & Hs & Hbest). split; [assumption |].
         exists i, it0. split; [now apply lookup_app_l_Some |].
         split; [assumption |]. split; [assumption |].
         intros j it' [Hj | [_ Hj]]%lookup_app_Some Hhas; [eauto |].
         apply list_lookup_singleton_Some in Hj as [_ <-].
         unfold hasId in Hhas. rewrite Hid in Hhas. congruence.
       - intros [Hs Hall]. split; [assumption |].
         apply Forall_app. split; [assumption |]. repeat constructor.
         unfold hasId. now rewrite Hid. }
  assert (Hne : id <> "").
  { unfold nonEmpty in Hnonempty. intros ->. discriminate. }
  destruct bestId as [b|]; cbn [fst snd].
  - intros (Hb & i & it0 & Hi & Hv & -> & Hbest). cbn [exceeds].
    destruct (Z.ltb_spec (score it0) (score it)) as [Hlt | Hge]; cbn [fst snd].
    + split; [assumption |]. exists (List.length l), it.
      split; [now rewrite list_lookup_middle |]. split; [assumption |].
      split; [reflexivity |].
      intros j it' [Hj | [Hlen Hj]]%lookup_app_Some Hhas.
      * destruct (Hbest j it' Hj Hhas) as [Hle _]. split; intros; lia.
      * apply list_lookup_singleton_Some in Hj as [Hj <-]. split; [lia |].
        intros. lia.
    + split; [assumption |]. exists i, it0.
      split; [now apply lookup_app_l_Some |]. split; [assumption |].
      split; [reflexivity |].
      intros j it' [Hj | [Hlen Hj]]%lookup_app_Some Hhas; [eauto |].
      apply list_lookup_singleton_Some in Hj as [Hj <-]. split; [lia |].
      intros Hji. apply lookup_lt_Some in Hi. lia.
  - intros [-> Hall]. cbn [exceeds fst snd]. split; [assumption |].
    exists (List.length l), it.
    split; [now rewrite list_lookup_middle |]. split; [assumption |].
    split; [reflexivity |].
    intros j it' [Hj | [Hlen Hj]]%lookup_app_Some Hhas.
    + eapply Forall_lookup_1 in Hall; [| exact Hj]. simpl in Hall. congruence.
    + apply list_lookup_singleton_Some in Hj as [Hj <-]. split; [lia |].
      intros. lia.
Qed.

Lemma foldl_picked query items :
  picked toLowerCase trim includes codeUnits query items
         (foldl (pickStep toLowerCase trim includes codeUnits query) (None, None) items).
Proof.
  induction items as [|it items IH] using rev_ind.
  - simpl. split; [reflexivity | constructor].
  - rewrite foldl_app. simpl. now apply pickStep_picked.
Qed.

(** [pickBest] answers with no id exactly when no item has one; otherwise
    with the id, which is not empty, of the first item among those of the
    highest score: no item with an id scores higher, and none before it
    scores as high. *)
Theorem pickBest_first_of_the_best (items : list YoutubeSearchItem) (query : string) :
  (pickBest toLowerCase trim includes codeUnits items query = None <->
   Forall (fun it => hasId it = false) items) /\
  (forall id, pickBest toLowerCase trim includes codeUnits items query = Some id ->
     id <> "" /\
     exists i it, items !! i = Some it /\ videoId it = Some id /\
       forall j it', items !! j = Some it' -> hasId it' = true ->
         (scoreResult toLowerCase trim includes codeUnits query it' <=
          scoreResult toLowerCase trim includes codeUnits query it)%Z /\
         (j < i ->
          (scoreResult toLowerCase trim includes codeUnits query it' <
           scoreResult toLowerCase trim includes codeUnits query it)%Z)).
Proof.
  pose proof (foldl_picked query items) as Hpicked.
  unfold pickBest, picked in *.
  destruct (foldl _ _ items) as [[b|] bestScore]; cbn [fst snd] in *.
  - destruct Hpicked as (Hne & i & it & Hi & Hv & _ & Hbest). split.
    + split; [discriminate |]. intros Hall.
      eapply Forall_lookup_1 in Hall; [| exact Hi]. simpl in Hall.
      unfold hasId in Hall. rewrite Hv in Hall. unfold nonEmpty in Hall.
      destruct (String.eqb_spec b ""); [contradiction | discriminate].
    + intros id [= <-]. split; [assumption |]. exists i, it. auto.
  - destruct Hpicked as [_ Hall]. split; [tauto | discriminate].
Qed.

(** *** The requests *)

Variable encodeURIComponent : string -> string.

Lemma nonEmpty_spec s : nonEmpty s = true <-> s <> "".
Proof. unfold nonEmpty. destruct (String.eqb_spec s ""); simpl; split; congruence. Qed.

Lemma bestOf_cases res query r :
  bestOf toLowerCase trim includes codeUnits res query = r ->
  match r with
  | Normal (Some url) =>
      exists data id, items res = Normal data /\
        pickBest toLowerCase trim includes codeUnits (default [] data) query = Some id /\
        url = watchUrl id
  | Normal None =>
      exists data, items res = Normal data /\
        pickBest toLowerCase trim includes codeUnits (default [] data) query = None
  | Throw e => items res = Throw e
  end.
Proof.
  unfold bestOf. intros <-. destruct (items res) as [data | e]; [| reflexivity].
  cbn. destruct (pickBest _ _ _ _ _ _) as [id|] eqn:Hbest; cbn; eauto.
Qed.

(** Without an API key nothing is requested and the answer is [null]. With
    one, the first request carries the key; a second request, without the
    key, is made only when the first was refused with status 403, and there
    is never a third. A URL is answered only from a response that was [ok]:
    it is the watch URL of the best of that response's items. The call
    fails only when the last request or the reading of its body fails. *)
Theorem fetchBestYoutubeUrl_requests
  (apiKey : option string) (fetch : string -> Completion Response) (query : string) :
  let (urls, result) :=
    fetchBestYoutubeUrl toLowerCase trim includes codeUnits encodeURIComponent
                        apiKey fetch query in
  ((apiKey = None \/ apiKey = Some "") -> urls = [] /\ result = Normal None) /\
  (forall key, apiKey = Some key -> key <> "" ->
     urls = [urlWithKey encodeURIComponent query key] \/
     urls = [urlWithKey encodeURIComponent query key; fallback encodeURIComponent query] /\
     exists res, fetch (urlWithKey encodeURIComponent query key) = Normal res /\
                 ok res = false /\ status res = 403%Z) /\
  (forall url, result = Normal (Some url) ->
     exists request res data id,
       last urls = Some request /\ fetch request = Normal res /\ ok res = true /\
       items res = Normal data /\
       pickBest toLowerCase trim includes codeUnits (default [] data) query = Some id /\
       url = watchUrl id) /\
  (forall e, result = Throw e ->
     exists request, last urls = Some request /\
       (fetch request = Throw e \/
        exists res, fetch request = Normal res /\ ok res = true /\ items res = Throw e)).
Proof.
  unfold fetchBestYoutubeUrl.
  destruct apiKey as [key|]; [| repeat split; try discriminate; intros; discriminate].
  destruct (nonEmpty key) eqn:Hkey.
  2: { repeat split; try discriminate; try (intros; discriminate).
       intros k [= <-] Hne. apply nonEmpty_spec in Hne. congruence. }
  assert (Hne : key <> "") by now apply nonEmpty_spec.
  set (url := urlWithKey encodeURIComponent query key).
  set (url2 := fallback encodeURIComponent query).
  destruct (fetch url) as [res | e] eqn:Hfetch.
  2: { split; [intros [[=] | [= ->]]; contradiction |].
       split; [intros k [= <-] _; now left |].
       split; [discriminate |].
       intros e' [= <-]. exists url. split; [reflexivity | now left]. }
  destruct (ok res) eqn:Hok; cbn [negb].
  - split; [intros [[=] | [= ->]]; contradiction |].
    split; [intros k [= <-] _; now left |].
    pose proof (bestOf_cases res query _ eq_refl) as Hbest.
    destruct (bestOf _ _ _ _ res query) as [[u|] | e].
    + split; [| discriminate]. intros u' [= <-].
      destruct Hbest as (data & id & Hitems & Hpick & ->).
      exists url, res, data, id. auto 10.
    + split; discriminate.
    + split; [discriminate |]. intros e' [= <-]. exists url.
      split; [reflexivity |]. right. exists res. auto.
  - destruct (Z.eqb_spec (status res) 403) as [Hstatus | Hstatus].
    2: { split; [intros [[=] | [= ->]]; contradiction |].
         split; [intros k [= <-] _; now left |]. split; discriminate. }
    destruct (fetch url2) as [res2 | e] eqn:Hfetch2.
    2: { split; [intros [[=] | [= ->]]; contradiction |].
         split; [intros k [= <-] _; right; split; [reflexivity | eauto] |].
         split; [discriminate |].
         intros e' [= <-]. exists url2. split; [reflexivity | now left]. }
    split; [intros [[=] | [= ->]]; contradiction |].
    split; [intros k [= <-] _; right; split; [reflexivity | eauto] |].
    destruct (ok res2) eqn:Hok2; cbn [negb]; [| split; discriminate].
    pose proof (bestOf_cases res2 query _ eq_refl) as Hbest.
    destruct (bestOf _ _ _ _ res2 query) as [[u|] | e].
    + split; [| discriminate]. intros u' [= <-].
      destruct Hbest as (data & id & Hitems & Hpick & ->).
      exists url2, res2, data, id. auto 10.
    + split; discriminate.
    + split; [discriminate |]. intros e' [= <-]. exists url2.
      split; [reflexivity |]. right. exists res2. auto.
Qed.

End Strings.

End FetchYoutubeFacts.

(** ** The study planner *)

Module StudyPlannerFacts.
Import StudyPresenceView StudyPresenceViewFacts StudyPlanner.

(** *** Labels *)

Lemma toTimeLabel_minuteOfDay x :
  toTimeLabel x =
  padStart 2 "0" (toString (minuteOfDay x / 60)) +:+ ":" +:+
  padStart 2 "0" (toString (minuteOfDay x mod 60)).
Proof.
  unfold toTimeLabel, minuteOfDay.
  assert (Hm : Z.rem (Z.rem x (24 * 60) + 24 * 60) (24 * 60) = (x mod (24 * 60))%Z).
  { change (24 * 60)%Z with 1440%Z. Z.to_euclidean_division_equations. lia. }
  rewrite Hm. rewrite Z.rem_mod_nonneg; [reflexivity | | lia].
  apply Z.mod_pos_bound. lia.
Qed.


Lemma minuteOfDay_bounds x :
  (0 <= minuteOfDay x / 60 < 24)%Z /\ (0 <= minuteOfDay x mod 60 < 60)%Z.
Proof.
  unfold minuteOfDay. change (24 * 60)%Z with 1440%Z.
  Z.to_euclidean_division_equations. lia.
Qed.

(** The label of a minute is a clock time: two digits, a colon, two digits,
    which read as the hour, below 24, and the minute, below 60, of that
    minute of the day. It wraps at midnight, and two minutes have the same
    label exactly when they are the same minute of the day. *)
Theorem toTimeLabel_clock (x : Z) :
  (exists hh mm,
     toTimeLabel x = hh +:+ ":" +:+ mm /\
     String.length hh = 2 /\ String.length mm = 2 /\
     readNumber hh = Some (minuteOfDay x / 60)%Z /\
     readNumber mm = Some (minuteOfDay x mod 60)%Z /\
     (0 <= minuteOfDay x / 60 < 24)%Z /\ (0 <= minuteOfDay x mod 60 < 60)%Z) /\
  toTimeLabel (x + 24 * 60) = toTimeLabel x /\
  (forall y, toTimeLabel x = toTimeLabel y <-> minuteOfDay x = minuteOfDay y).
Proof.
  assert (Hfields : forall z,
            String.length (padStart 2 "0" (toString (minuteOfDay z / 60))) = 2 /\
            String.length (padStart 2 "0" (toString (minuteOfDay z mod 60))) = 2).
  { intros z. destruct (minuteOfDay_bounds z) as [Hh Hm].
    rewrite !length_padStart.
    pose proof (length_toString_small (minuteOfDay z / 60) ltac:(lia)).
    pose proof (length_toString_small (minuteOfDay z mod 60) ltac:(lia)). lia. }
  assert (Hsame : forall z z', minuteOfDay z = minuteOfDay z' ->
                               toTimeLabel z = toTimeLabel z').
  { intros z z' Heq. rewrite !toTimeLabel_minuteOfDay. now rewrite Heq. }
  destruct (minuteOfDay_bounds x) as [Hh Hm]. split; [| split].
  - exists (padStart 2 "0" (toString (minuteOfDay x / 60))),
           (padStart 2 "0" (toString (minuteOfDay x mod 60))).
    destruct (Hfields x) as [Hlh Hlm].
    split; [apply toTimeLabel_minuteOfDay |].
    split; [exact Hlh |]. split; [exact Hlm |].
    split; [apply readNumber_padStart; lia |].
    split; [apply readNumber_padStart; lia |]. split; assumption.
  - apply Hsame. unfold minuteOfDay.
    rewrite <- (Z.mul_1_l (24 * 60)) at 1. apply Z.mod_add. lia.
  - intros y. split; [| apply Hsame].
    rewrite !toTimeLabel_minuteOfDay. intros Heq.
    destruct (Hfields x) as [_ Hlx]. destruct (Hfields y) as [_ Hly].
    destruct (minuteOfDay_bounds y) as [Hhy Hmy].
    apply app_string_inj_tail in Heq as [Hhh Hrest];
      [| rewrite !length_app_string, Hlx, Hly; reflexivity].
    apply app_string_inj_tail in Hrest as [_ Hmm]; [| now rewrite Hlx, Hly].
    apply (f_equal readNumber) in Hhh, Hmm.
    rewrite !readNumber_padStart in Hhh, Hmm by lia.
    injection Hhh as Hhh. injection Hmm as Hmm.
    pose proof (Z.div_mod (minuteOfDay x) 60 ltac:(lia)).
    pose proof (Z.div_mod (minuteOfDay y) 60 ltac:(lia)). lia.
Qed.

(** *** The start time *)

(** Every minute of the day, written as a label, reads as itself. *)
Lemma labels_read_back :
  forallb (fun n => (startOf (toTimeLabel (Z.of_nat n)) =? Z.of_nat n)%Z) (seq 0 1440)
  = true.
Proof. vm_compute. reflexivity. Qed.

Lemma startOf_label n : n < 1440 -> startOf (toTimeLabel (Z.of_nat n)) = Z.of_nat n.
Proof.
  intros Hn. apply Z.eqb_eq.
  apply (proj1 (forallb_forall _ _) labels_read_back n), in_seq. lia.
Qed.

Section Trim.

Variable trim : string -> string.

(** The start time is read back from its own label: a text that is, once
    trimmed, the label of a minute gives that minute of the day, so the
    first block of the timetable starts at the time entered; a text that is
    no clock time gives nine o'clock. *)
Theorem startMinutes_reads_label (startTimeInput : string) :
  (forall x, trim startTimeInput = toTimeLabel x ->
             startMinutes trim startTimeInput = minuteOfDay x /\
             toTimeLabel (startMinutes trim startTimeInput) = trim startTimeInput) /\
  (matchTime (trim startTimeInput) = None ->
   startMinutes trim startTimeInput = 540%Z /\
   toTimeLabel (startMinutes trim startTimeInput) = "09:00").
Proof.
  split.
  - intros x Hx.
    assert (Hstart : startMinutes trim startTimeInput = minuteOfDay x).
    { unfold startMinutes. rewrite Hx.
      destruct (toTimeLabel_clock x) as (_ & _ & Hsame).
      assert (Hday : (0 <= minuteOfDay x < 1440)%Z).
      { unfold minuteOfDay. apply Z.mod_pos_bound. lia. }
      rewrite (proj2 (Hsame (minuteOfDay x))).
      2: { unfold minuteOfDay. now rewrite Z.mod_mod by lia. }
      rewrite <- (Z2Nat.id (minuteOfDay x)) by lia.
      apply startOf_label. lia. }
    split; [exact Hstart |]. rewrite Hstart, Hx.
    destruct (toTimeLabel_clock x) as (_ & _ & Hsame). symmetry. apply Hsame.
    unfold minuteOfDay. now rewrite Z.mod_mod by lia.
  - intros Hnone. unfold startMinutes. rewrite Hnone.
    split; [reflexivity | vm_compute; reflexivity].
Qed.

End Trim.

(** *** The blocks *)

Lemma pushSlots_length n cursor c : List.length (pushSlots n cursor c) = n.
Proof. revert cursor. induction n as [|n IH]; intros cursor; simpl; auto. Qed.

Lemma pushSlots_lookup n : forall cursor c i sl,
  pushSlots n cursor c !! i = Some sl ->
  start sl = toTimeLabel (cursor + slotMinutes * Z.of_nat i) /\
  end' sl = toTimeLabel (cursor + slotMinutes * (Z.of_nat i + 1)) /\
  cards sl = c.
Proof.
  induction n as [|n IH]; intros cursor c [|i] sl; simpl; try discriminate.
  - intros [= <-]. simpl. unfold slotMinutes.
    rewrite Z.add_0_r. repeat split; f_equal; lia.
  - intros H. destruct (IH _ _ _ _ H) as (-> & -> & ->).
    repeat split; f_equal; unfold slotMinutes; lia.
Qed.

Lemma pushSlots_cards n cursor c :
  plannedCards (pushSlots n cursor c) = (Z.of_nat n * c)%Z.
Proof.
  revert cursor. induction n as [|n IH]; intros cursor; [reflexivity |].
  cbn [pushSlots plannedCards foldr cards]. fold (plannedCards (pushSlots n (cursor + slotMinutes) c)).
  rewrite IH. lia.
Qed.

(** With cards left and a positive study time the timetable has one block
    for every full half hour of the study time, and one block if there is
    none; the blocks are half hours that follow one another from the start
    time; each has the same number of cards, at least one; together they
    cover the cards that are left, with fewer cards to spare than there are
    blocks. With no card left or no study time there is no timetable. *)
Theorem slots_cover_the_remaining (remaining totalMinutes startMinutes : Z) :
  (slots remaining totalMinutes startMinutes = [] <->
   (remaining <= 0)%Z \/ (totalMinutes <= 0)%Z) /\
  ((0 < remaining)%Z -> (0 < totalMinutes)%Z ->
   let plan := slots remaining totalMinutes startMinutes in
   Z.of_nat (List.length plan) = slotCount totalMinutes /\
   ((30 <= totalMinutes)%Z ->
    (totalMinutes - 30 < 30 * slotCount totalMinutes <= totalMinutes)%Z) /\
   ((totalMinutes < 30)%Z -> slotCount totalMinutes = 1%Z) /\
   (forall i sl, plan !! i = Some sl ->
      start sl = toTimeLabel (startMinutes + 30 * Z.of_nat i) /\
      end' sl = toTimeLabel (startMinutes + 30 * (Z.of_nat i + 1)) /\
      cards sl = cardsPerSlot remaining totalMinutes) /\
   (1 <= cardsPerSlot remaining totalMinutes)%Z /\
   (remaining <= plannedCards plan < remaining + slotCount totalMinutes)%Z).
Proof.
  assert (Hcount : (1 <= slotCount totalMinutes)%Z) by (unfold slotCount; lia).
  split.
  - unfold slots.
    destruct (Z.leb_spec remaining 0), (Z.leb_spec totalMinutes 0); simpl;
      try (split; [auto | reflexivity]).
    split; [| lia]. intros Hnil. apply (f_equal (@List.length _)) in Hnil.
    rewrite pushSlots_length in Hnil. simpl in Hnil. lia.
  - intros Hr Ht plan. subst plan. unfold slots.
    rewrite (proj2 (Z.leb_gt _ _) Hr), (proj2 (Z.leb_gt _ _) Ht). simpl.
    rewrite pushSlots_length, pushSlots_cards, Z2Nat.id by lia.
    split; [reflexivity |].
    split; [unfold slotCount, slotMinutes; Z.to_euclidean_division_equations; lia |].
    split; [unfold slotCount, slotMinutes; Z.to_euclidean_division_equations; lia |].
    split; [intros i sl Hsl; apply (pushSlots_lookup _ _ _ _ _ Hsl) |].
    split; [unfold cardsPerSlot; lia |].
    unfold cardsPerSlot, ceilDiv. set (n := slotCount totalMinutes) in *.
    Z.to_euclidean_division_equations. nia.
Qed.

Lemma slots_cover_the_remaining_witness :
  Z.of_nat (List.length (slots 7 100 540)) = slotCount 100 /\
  ((30 <= 100)%Z -> (100 - 30 < 30 * slotCount 100 <= 100)%Z) /\
  ((100 < 30)%Z -> slotCount 100 = 1%Z) /\
  (forall i sl, slots 7 100 540 !! i = Some sl ->
     start sl = toTimeLabel (540 + 30 * Z.of_nat i) /\
     end' sl = toTimeLabel (540 + 30 * (Z.of_nat i + 1)) /\
     cards sl = cardsPerSlot 7 100) /\
  (1 <= cardsPerSlot 7 100)%Z /\
  (7 <= plannedCards (slots 7 100 540) < 7 + slotCount 100)%Z.
Proof.
  apply (proj2 (slots_cover_the_remaining 7 100 540)); lia.
Defined.

End StudyPlannerFacts.

(** ** Importing cards *)

Module ImportExportFacts.
Import StudyPresence(Completion, Normal, Throw).
Import ImportExport.

Lemma addAll_prefix user accepted parsed : forall n docs,
  exists k, k <= List.length parsed /\
    addAll user accepted parsed n docs =
    (docs ++ List.map (document user) (take k parsed),
     bool_decide (k = List.length parsed)) /\
    (forall i, i < k -> accepted (n + i) = true) /\
    (k < List.length parsed -> accepted (n + k) = false).
Proof.
  induction parsed as [|card parsed IH]; intros n docs.
  - exists 0. simpl. rewrite List.app_nil_r. repeat split; auto; intros; lia.
  - simpl. destruct (accepted n) eqn:Hn.
    + destruct (IH (S n) (docs ++ [document user card])) as (k & Hk & -> & Hacc & Hrej).
      exists (S k). split; [lia |]. split; [| split].
      * simpl. rewrite <- List.app_assoc. simpl. f_equal.
        apply bool_decide_ext. lia.
      * intros [|i] Hi; [now rewrite Nat.add_0_r |].
        rewrite <- Nat.add_succ_comm. apply Hacc. lia.
      * intros Hlt. rewrite <- Nat.add_succ_comm. apply Hrej. lia.
    + exists 0. split; [lia |]. simpl. rewrite List.app_nil_r.
      repeat split; auto; try (intros; lia). now rewrite Nat.add_0_r.
Qed.

(** An import adds the cards of the file in their order, as documents of the
    signed-in user whatever user the file names, up to the first write that
    is rejected: the cards before it stay imported. It ends not busy and
    with the file input cleared; the host is told exactly when every card
    was written, and otherwise the alert is shown. *)
Theorem import_adds_a_prefix
  (user : string) (onImportComplete : bool) (accepted : nat -> bool)
  (parsed : list ImportedCard) (s : Importer) :
  exists k, k <= List.length parsed /\
    let s' := handleImport user onImportComplete accepted (Some (Normal parsed)) s in
    collection s' = collection s ++ List.map (document user) (take k parsed) /\
    Forall (fun d => docUserId d = user) (List.map (document user) (take k parsed)) /\
    (forall i, i < k -> accepted i = true) /\
    (k < List.length parsed -> accepted k = false) /\
    busy s' = false /\ inputValue s' = "" /\
    alerts s' = (if bool_decide (k = List.length parsed) then alerts s
                 else S (alerts s)) /\
    completions s' = (if bool_decide (k = List.length parsed) && onImportComplete
                      then S (completions s) else completions s).
Proof.
  destruct (addAll_prefix user accepted parsed 0 (collection s))
    as (k & Hk & Hadd & Hacc & Hrej).
  exists k. split; [assumption |]. unfold handleImport. rewrite Hadd. simpl.
  repeat split; auto.
  apply Forall_forall. intros d (card & <- & _)%list_elem_of_In%in_map_iff.
  reflexivity.
Qed.

End ImportExportFacts.
